(** * query-tls: the event reshaping and rule evaluation pipeline of index.js

    A shallow embedding of [index.js] (AWS Lambda TLS endpoint for osquery
    agents) and the properties of its partitioner, field normalizer, rule
    evaluator, rule catalog loader and enrollment check.

    Conventions of the embedding:
    - a JavaScript value is a [value]; a number is an integer ([VNum]) or
      [VNaN]: fractions and infinities are outside the modelled numbers;
    - a string is a [string] of 8-bit characters, with [String.length] for
      [.length] and [charAt] for [.charAt];
    - an object used as a dictionary is a [gmap string _] of its own
      enumerable properties; [Object.keys] enumerates [map_to_list], whose
      order is the model's, not the engine's: no property below depends on
      it;
    - every call is taken in the initial environment, where
      [Object.prototype] holds the properties that the language gives it
      and no other.  A finite map tells what [o[name]] reads only for a
      [name] that is none of these ([own_name]); the conversion of a
      timestamp to a number is the language's on the values of
      [plain_time].  The properties of the dictionaries that
      [parseResult] and [getRules] build are stated for inputs within
      these bounds ([ordinary_record], [ordinary_group]);
    - a call that can throw returns a [result];
    - [index.js] holds two revisions of the program.  The definitions at
      top level follow the later one (the second half of the file); the
      earlier revision's [parseResult] is in module [Rev1], and both are
      embedded once more over a store of objects in module [Heap]. *)

From Stdlib Require Import ZArith Lia Ascii String List.
From stdpp Require Import gmap strings list fin_maps.

Set Warnings "-register-all".
Open Scope Z_scope.

(** ** JavaScript values and exceptions *)

Inductive value :=
  | VUndef
  | VNull
  | VBool (b : bool)
  | VNum (z : Z)
  | VNaN
  | VStr (s : string)
  | VArr (l : list value)
  | VObj (m : gmap string value).

Inductive js_error :=
  | TypeError
  | SyntaxError.

Inductive result (A : Type) :=
  | Ok (a : A)
  | Raise (e : js_error).
Arguments Ok {A} a.
Arguments Raise {A} e.

#[export] Instance result_bind : MBind result := λ A B k r,
  match r with
  | Ok a => k a
  | Raise e => Raise e
  end.

(** [foldM f a l]: a loop over [l] that stops at the first exception. *)
Fixpoint foldM {A B} (f : A → B → result A) (a : A) (l : list B) : result A :=
  match l with
  | [] => Ok a
  | b :: l' => a' ← f a b; foldM f a' l'
  end.

(** [loop f s l]: the same loop with the state that it has reached when
    it ends, by an exception or at the end of [l]. *)
Fixpoint loop {S B} (f : S → B → S * option js_error) (s : S) (l : list B)
  : S * option js_error :=
  match l with
  | [] => (s, None)
  | b :: l' =>
      match f s b with
      | (s', None) => loop f s' l'
      | (s', Some e) => (s', Some e)
      end
  end.

(** ToBoolean. *)
Definition truthy (v : value) : bool :=
  match v with
  | VUndef | VNull | VNaN => false
  | VBool b => b
  | VNum z => negb (z =? 0)
  | VStr s => negb (String.eqb s EmptyString)
  | VArr _ | VObj _ => true
  end.

(** [typeof v === 'string'] *)
Definition is_string (v : value) : bool :=
  match v with
  | VStr _ => true
  | _ => false
  end.

(** [v === s] for a string literal [s]. *)
Definition strict_eq_str (v : value) (s : string) : bool :=
  match v with
  | VStr s' => String.eqb s' s
  | _ => false
  end.

(** [s.charAt(i)]: the one-character string at [i], or the empty string. *)
Definition charAt (s : string) (i : Z) : string :=
  if i <? 0 then EmptyString
  else match String.get (Z.to_nat i) s with
       | Some c => String c EmptyString
       | None => EmptyString
       end.

Definition str_length (s : string) : Z := Z.of_nat (String.length s).

(** ** Numbers *)

Inductive number :=
  | Int (z : Z)
  | NaN.

Definition digit_char (d : Z) : ascii := ascii_of_nat (48 + Z.to_nat d).

Fixpoint digits_go (fuel : nat) (n : Z) (acc : string) : string :=
  let acc' := String (digit_char (n mod 10)) acc in
  match fuel with
  | O => acc'
  | S fuel' => if n <? 10 then acc' else digits_go fuel' (n / 10) acc'
  end.

(** Decimal digits of a non-negative integer. *)
Definition digits (n : Z) : string := digits_go (Z.to_nat (Z.log2 n)) n EmptyString.

(** Number::toString on the modelled numbers. *)
Definition number_to_string (n : number) : string :=
  match n with
  | NaN => "NaN"
  | Int z => if z <? 0 then "-" +:+ digits (- z) else digits z
  end.

Definition is_digit (c : ascii) : bool :=
  let n := nat_of_ascii c in (48 <=? n)%nat && (n <=? 57)%nat.

(** Every character of [s] passes the test [p]. *)
Fixpoint all_chars (p : ascii → bool) (s : string) : bool :=
  match s with
  | EmptyString => true
  | String c s' => p c && all_chars p s'
  end.

(** WhiteSpace and LineTerminator among the 8-bit characters. *)
Definition is_space (c : ascii) : bool :=
  let n := nat_of_ascii c in
  ((9 <=? n)%nat && (n <=? 13)%nat) || (n =? 32)%nat || (n =? 160)%nat.

Fixpoint trim_start (s : string) : string :=
  match s with
  | String c s' => if is_space c then trim_start s' else s
  | EmptyString => s
  end.

Fixpoint rev_string (s acc : string) : string :=
  match s with
  | EmptyString => acc
  | String c s' => rev_string s' (String c acc)
  end.

(** [s.trim()] *)
Definition trim (s : string) : string :=
  rev_string (trim_start (rev_string (trim_start s) EmptyString)) EmptyString.

Fixpoint read_digits (s : string) (acc : Z) : option Z :=
  match s with
  | EmptyString => Some acc
  | String c s' =>
      if is_digit c then read_digits s' (10 * acc + (Z.of_nat (nat_of_ascii c) - 48))
      else None
  end.

(** StringToNumber on decimal integer literals; any other text reads as
    [NaN] (literals with a fraction, an exponent or a radix prefix denote
    numbers outside the model). *)
Definition string_to_number (s : string) : number :=
  match trim s with
  | EmptyString => Int 0
  | String "-" (String c r) =>
      match read_digits (String c r) 0 with Some z => Int (- z) | None => NaN end
  | String "+" (String c r) =>
      match read_digits (String c r) 0 with Some z => Int z | None => NaN end
  | t => match read_digits t 0 with Some z => Int z | None => NaN end
  end.

(** ToNumber.  An object of the model is a plain one and converts to
    NaN.  An array converts through its elements joined by commas: the
    empty one to 0; the others are read as NaN, which is theirs only when
    the joined text is no number.  The values on which this is the
    conversion of the language are those of [plain_time] below; an object
    that has a property [toString] of its own makes the conversion
    throw. *)
Definition to_number (v : value) : number :=
  match v with
  | VUndef => NaN
  | VNull => Int 0
  | VBool b => Int (if b then 1 else 0)
  | VNum z => Int z
  | VNaN => NaN
  | VStr s => string_to_number s
  | VArr [] => Int 0
  | VArr _ => NaN
  | VObj _ => NaN
  end.

Definition num_mul (a b : number) : number :=
  match a, b with
  | Int x, Int y => Int (x * y)
  | _, _ => NaN
  end.

Definition num_add (a b : number) : number :=
  match a, b with
  | Int x, Int y => Int (x + y)
  | _, _ => NaN
  end.

(** [a < b] on numbers: false as soon as one side is NaN. *)
Definition num_lt (a b : number) : bool :=
  match a, b with
  | Int x, Int y => x <? y
  | _, _ => false
  end.

(** ** The built-in Date, after ECMA-262 (Time Values and Time Range,
    Day Number, Year Number, Month Number, Date Number) *)

Module Date.

Definition msPerDay : Z := 86400000.

Definition Day (t : Z) : Z := t / msPerDay.

Definition DayFromYear (y : Z) : Z :=
  365 * (y - 1970) + (y - 1969) / 4 - (y - 1901) / 100 + (y - 1601) / 400.

Definition DaysInYear (y : Z) : Z :=
  if negb (y mod 4 =? 0) then 365
  else if negb (y mod 100 =? 0) then 366
  else if negb (y mod 400 =? 0) then 365
  else 366.

(** The largest [y] with [DayFromYear y <= d]: the mean year length
    146097/400 puts the estimate within one year of it. *)
Definition YearFromDay (d : Z) : Z :=
  let y := 1970 + (400 * d) / 146097 in
  if DayFromYear (y + 1) <=? d then y + 1
  else if DayFromYear y <=? d then y
  else y - 1.

Definition YearFromTime (t : Z) : Z := YearFromDay (Day t).

Definition InLeapYear (t : Z) : Z :=
  if DaysInYear (YearFromTime t) =? 366 then 1 else 0.

Definition DayWithinYear (t : Z) : Z :=
  Day t - DayFromYear (YearFromTime t).

Definition MonthFromTime (t : Z) : Z :=
  let d := DayWithinYear t in
  let L := InLeapYear t in
  if d <? 31 then 0
  else if d <? 59 + L then 1
  else if d <? 90 + L then 2
  else if d <? 120 + L then 3
  else if d <? 151 + L then 4
  else if d <? 181 + L then 5
  else if d <? 212 + L then 6
  else if d <? 243 + L then 7
  else if d <? 273 + L then 8
  else if d <? 304 + L then 9
  else if d <? 334 + L then 10
  else 11.

Definition DateFromTime (t : Z) : Z :=
  let d := DayWithinYear t in
  let L := InLeapYear t in
  match MonthFromTime t with
  | 0 => d + 1
  | 1 => d - 30
  | 2 => d - 58 - L
  | 3 => d - 89 - L
  | 4 => d - 119 - L
  | 5 => d - 150 - L
  | 6 => d - 180 - L
  | 7 => d - 211 - L
  | 8 => d - 242 - L
  | 9 => d - 272 - L
  | 10 => d - 303 - L
  | _ => d - 333 - L
  end.

(** A Date object holds a time value in milliseconds, or NaN. *)
Definition date := number.

(** [new Date(n)]: TimeClip. *)
Definition new_Date (n : number) : date :=
  match n with
  | Int ms => if Z.abs ms <=? 8640000000000000 then Int ms else NaN
  | NaN => NaN
  end.

Definition getUTCFullYear (d : date) : number :=
  match d with Int t => Int (YearFromTime t) | NaN => NaN end.

Definition getUTCMonth (d : date) : number :=
  match d with Int t => Int (MonthFromTime t) | NaN => NaN end.

Definition getUTCDate (d : date) : number :=
  match d with Int t => Int (DateFromTime t) | NaN => NaN end.

End Date.

(** ** A model of the built-in JSON.parse

    A recursive-descent reader of JSON texts over 8-bit characters.  It
    covers objects, arrays, strings with their escapes, integer numerals
    and the three literals.  [None] stands for the SyntaxError that
    JSON.parse throws.  Two kinds of text that JSON.parse accepts denote
    values outside the model and are answered [None] as well: numerals
    with a fraction or an exponent, and [\u] escapes above code 255.  The
    reader is used below only at texts free of both. *)

Module JSON.

Definition dquote : ascii := ascii_of_nat 34.
Definition backslash : ascii := ascii_of_nat 92.

Definition is_ws (c : ascii) : bool :=
  let n := nat_of_ascii c in
  (n =? 32)%nat || (n =? 9)%nat || (n =? 10)%nat || (n =? 13)%nat.

Fixpoint skip_ws (s : string) : string :=
  match s with
  | String c s' => if is_ws c then skip_ws s' else s
  | EmptyString => s
  end.

Definition hex_val (c : ascii) : option Z :=
  let n := Z.of_nat (nat_of_ascii c) in
  if (48 <=? n) && (n <=? 57) then Some (n - 48)
  else if (97 <=? n) && (n <=? 102) then Some (n - 87)
  else if (65 <=? n) && (n <=? 70) then Some (n - 55)
  else None.

(** The four hex digits of a [\u] escape, as a code unit below 256. *)
Definition unicode_escape (s : string) : option (ascii * string) :=
  match s with
  | String a (String b (String c (String d r))) =>
      match hex_val a, hex_val b, hex_val c, hex_val d with
      | Some 0, Some 0, Some x, Some y =>
          Some (ascii_of_nat (Z.to_nat (16 * x + y)), r)
      | _, _, _, _ => None
      end
  | _ => None
  end.

(** The characters of a string literal after its opening quote, up to
    and including the closing quote. *)
Fixpoint parse_chars (fuel : nat) (s : string) (acc : string)
  : option (string * string) :=
  match fuel with
  | O => None
  | S fuel' =>
      match s with
      | EmptyString => None
      | String c r =>
          if Ascii.eqb c dquote then Some (rev_string acc EmptyString, r)
          else if Ascii.eqb c backslash then
            match r with
            | String e r' =>
                if Ascii.eqb e dquote then parse_chars fuel' r' (String dquote acc)
                else if Ascii.eqb e backslash then parse_chars fuel' r' (String backslash acc)
                else if Ascii.eqb e "/" then parse_chars fuel' r' (String "/" acc)
                else if Ascii.eqb e "b" then parse_chars fuel' r' (String "008" acc)
                else if Ascii.eqb e "f" then parse_chars fuel' r' (String "012" acc)
                else if Ascii.eqb e "n" then parse_chars fuel' r' (String "010" acc)
                else if Ascii.eqb e "r" then parse_chars fuel' r' (String "013" acc)
                else if Ascii.eqb e "t" then parse_chars fuel' r' (String "009" acc)
                else if Ascii.eqb e "u" then
                  match unicode_escape r' with
                  | Some (u, r'') => parse_chars fuel' r'' (String u acc)
                  | None => None
                  end
                else None
            | EmptyString => None
            end
          else if (nat_of_ascii c <? 32)%nat then None
          else parse_chars fuel' r (String c acc)
      end
  end.

Fixpoint take_digits (s : string) (acc : Z) : Z * string :=
  match s with
  | String c r =>
      if is_digit c then take_digits r (10 * acc + (Z.of_nat (nat_of_ascii c) - 48))
      else (acc, s)
  | EmptyString => (acc, s)
  end.

Definition starts_fraction (s : string) : bool :=
  match s with
  | String c _ => Ascii.eqb c "." || Ascii.eqb c "e" || Ascii.eqb c "E"
  | EmptyString => false
  end.

(** An integer numeral: [0], or a non-zero digit followed by digits. *)
Definition parse_int (s : string) : option (Z * string) :=
  match s with
  | String c r =>
      if Ascii.eqb c "0" then
        if starts_fraction r then None else Some (0, r)
      else if is_digit c then
        let '(z, r') := take_digits s 0 in
        if starts_fraction r' then None else Some (z, r')
      else None
  | EmptyString => None
  end.

Fixpoint strip_prefix (p s : string) : option string :=
  match p, s with
  | EmptyString, _ => Some s
  | String a p', String b s' => if Ascii.eqb a b then strip_prefix p' s' else None
  | String _ _, EmptyString => None
  end.

Fixpoint parse_value (fuel : nat) (s : string) : option (value * string) :=
  match fuel with
  | O => None
  | S fuel' =>
      match skip_ws s with
      | EmptyString => None
      | String c r =>
          if Ascii.eqb c "{" then
            match skip_ws r with
            | String "}" r' => Some (VObj ∅, r')
            | _ => parse_members fuel' r ∅
            end
          else if Ascii.eqb c "[" then
            match skip_ws r with
            | String "]" r' => Some (VArr [], r')
            | _ => parse_elements fuel' r []
            end
          else if Ascii.eqb c dquote then
            match parse_chars (S (String.length r)) r EmptyString with
            | Some (str, r') => Some (VStr str, r')
            | None => None
            end
          else if Ascii.eqb c "-" then
            match parse_int r with
            | Some (z, r') => Some (VNum (- z), r')
            | None => None
            end
          else if is_digit c then
            match parse_int (String c r) with
            | Some (z, r') => Some (VNum z, r')
            | None => None
            end
          else
            match strip_prefix "true" (String c r) with
            | Some r' => Some (VBool true, r')
            | None =>
                match strip_prefix "false" (String c r) with
                | Some r' => Some (VBool false, r')
                | None =>
                    match strip_prefix "null" (String c r) with
                    | Some r' => Some (VNull, r')
                    | None => None
                    end
                end
            end
      end
  end
(** The elements of an array after [[] or a comma, up to the closing
    bracket; [acc] holds the elements read so far, last first. *)
with parse_elements (fuel : nat) (s : string) (acc : list value)
  : option (value * string) :=
  match fuel with
  | O => None
  | S fuel' =>
      match parse_value fuel' s with
      | Some (v, r) =>
          match skip_ws r with
          | String "," r' => parse_elements fuel' r' (v :: acc)
          | String "]" r' => Some (VArr (rev (v :: acc)), r')
          | _ => None
          end
      | None => None
      end
  end
(** The members of an object; a repeated key keeps its last value. *)
with parse_members (fuel : nat) (s : string) (acc : gmap string value)
  : option (value * string) :=
  match fuel with
  | O => None
  | S fuel' =>
      match skip_ws s with
      | String q r =>
          if Ascii.eqb q dquote then
            match parse_chars (S (String.length r)) r EmptyString with
            | Some (key, r1) =>
                match skip_ws r1 with
                | String ":" r2 =>
                    match parse_value fuel' r2 with
                    | Some (v, r3) =>
                        match skip_ws r3 with
                        | String "," r4 => parse_members fuel' r4 (<[key := v]> acc)
                        | String "}" r4 => Some (VObj (<[key := v]> acc), r4)
                        | _ => None
                        end
                    | None => None
                    end
                | _ => None
                end
            | None => None
            end
          else None
      | EmptyString => None
      end
  end.

(** [JSON.parse(text)] *)
Definition parse (text : string) : option value :=
  match parse_value (2 * String.length text + 2) text with
  | Some (v, r) =>
      match skip_ws r with
      | EmptyString => Some v
      | String _ _ => None
      end
  | None => None
  end.

End JSON.

(** ** getDay (index.js, both revisions)

    A function of the timestamp, as [to_number] is: what it gives is the
    key of the code where [unixTime * 1000] is the number that [to_number]
    gives. *)

Definition getDay (unixTime : value) : string :=
  let date := Date.new_Date (num_mul (to_number unixTime) (Int 1000)) in
  let month := num_add (Date.getUTCMonth date) (Int 1) in
  let day := EmptyString +:+ number_to_string (Date.getUTCFullYear date) in
  let day := day +:+ (if num_lt month (Int 10)
                      then "0" +:+ number_to_string month
                      else number_to_string month) in
  let day := day +:+ (if num_lt (Date.getUTCDate date) (Int 10)
                      then "0" +:+ number_to_string (Date.getUTCDate date)
                      else number_to_string (Date.getUTCDate date)) in
  day.

(** ** The incoming batch and the partitioned dataset *)

(** One element of [body.data], shaped as the comment in [parseResult]
    documents it. *)
Record record := {
  name : string;
  calendarTime : value;
  unixTime : value;
  action : value;
  columns : gmap string value;
}.

(** tableName -> partition -> rows *)
Abbreviation row_t := (gmap string value).
Abbreviation partitions_t := (gmap string (list (gmap string value))).
Abbreviation tables_t := (gmap string (gmap string (list (gmap string value)))).

(** ** parseResult (later revision) *)

Section Partitioner.

(** The built-in [JSON.parse]; [None] when it throws. *)
Variable JSON_parse : string → option value.

(** The test on a column value that is a string.  In the source the
    conjunction binds tighter than the disjunction:
    [(value && typeof value === 'string' && value.length > 1 && ({ .. }))
     || ([ .. ])]. *)
Definition json_shaped (s : string) : bool :=
  (truthy (VStr s) && is_string (VStr s) && (1 <? str_length s)
   && (String.eqb (charAt s 0) "{"
       && String.eqb (charAt s (str_length s - 1)) "}"))
  || (String.eqb (charAt s 0) "["
      && String.eqb (charAt s (str_length s - 1)) "]").

(** The body of the [forEach] over the column keys: what is stored in
    [row[key]].  For a value that is not a string the left operand of
    [||] is false and the right operand calls [value.charAt], which no
    such value has. *)
Definition normalize (val : value) : result value :=
  match val with
  | VStr s =>
      if json_shaped s then
        match JSON_parse s with
        | Some parsed => Ok parsed
        | None => Raise SyntaxError
        end
      else Ok val
  | _ => Raise TypeError
  end.

(** The object literal that [row] starts as. *)
Definition reserved_keys (calendarTime unixTime action : value)
  : gmap string value :=
  <["added" := VBool (strict_eq_str action "added")]>
    (<["unixTime" := unixTime]> (<["calendarTime" := calendarTime]> ∅)).

Definition reserved (record : record) : gmap string value :=
  reserved_keys (calendarTime record) (unixTime record) (action record).

(** [row[key] = ..] for one column.  [row] is an object literal: the
    assignment stores a property of its own under every key but
    [__proto__], for which it calls the setter that [Object.prototype]
    has.  The setter stores no property (given an object, it makes it the
    prototype of [row], which neither [Object.keys] nor [JSON.stringify]
    shows); the right-hand side is evaluated first in every case. *)
Definition set_column (row : gmap string value) (kv : string * value)
  : result (gmap string value) :=
  v ← normalize kv.2;
  Ok (if String.eqb kv.1 "__proto__" then row else <[kv.1 := v]> row).

Definition make_row (record : record) : result (gmap string value) :=
  foldM set_column (reserved record) (map_to_list (columns record)).

(** One turn of the loop over [data].  [tables[record.name]] and
    [partitions[day]] are read as entries of finite maps, which they are
    when neither name is one that every object inherits ([own_name]; a
    day key never is). *)
Definition add_record (tables : tables_t) (record : record) : result tables_t :=
  let day := getDay (unixTime record) in
  let partitions := default ∅ (tables !! name record) in
  let partitions :=
    match partitions !! day with
    | Some _ => partitions
    | None => <[day := []]> partitions
    end in
  row ← make_row record;
  Ok (<[name record := <[day := default [] (partitions !! day) ++ [row]]> partitions]> tables).

Definition parseResult_from (tables : tables_t) (data : list record) : result tables_t :=
  foldM add_record tables data.

Definition parseResult (data : list record) : result tables_t :=
  parseResult_from ∅ data.

End Partitioner.

(** The rows of bucket [(tableName, day)], empty when there is none. *)
Definition bucket (tables : tables_t) (tableName day : string) : list (gmap string value) :=
  default [] (tables !! tableName ≫= λ partitions, partitions !! day).

Definition sum_sizes {A} (f : A → nat) (m : gmap string A) : nat :=
  sum_list_with (λ kv, f kv.2) (map_to_list m).

(** The number of rows of a dataset, over all its buckets. *)
Definition total_rows (tables : tables_t) : nat :=
  sum_sizes (sum_sizes (length (A := gmap string value))) tables.

(** ** parseResult (earlier revision)

    The records are values: each has a [columns] mapping of its own, as
    the records of a batch that [JSON.parse] returns have.  Records that
    share one [columns] object are told apart over the store, in module
    [Heap]. *)

Module Rev1.

(** [row] is [record.columns] itself, with the three keys written
    into it. *)
Definition make_row (record : record) : gmap string value :=
  <["added" := VBool (strict_eq_str (action record) "added")]>
    (<["unixTime" := unixTime record]>
       (<["calendarTime" := calendarTime record]> (columns record))).

Definition add_record (tables : tables_t) (record : record) : tables_t :=
  let day := getDay (unixTime record) in
  let partitions := default ∅ (tables !! name record) in
  let partitions :=
    match partitions !! day with
    | Some _ => partitions
    | None => <[day := []]> partitions
    end in
  <[name record := <[day := default [] (partitions !! day) ++ [make_row record]]> partitions]> tables.

Definition parseResult (data : list record) : tables_t :=
  foldl add_record ∅ data.

End Rev1.

(** ** getRules (both revisions) *)

(** A rule expression is a JsonLogic document: a [value]. *)
Record group := {
  tables : list string;
  rules : gmap string value;
}.

(** A parsed rule file holds its groups in the order of [Object.keys];
    the group names are read only to fetch the groups. *)
Abbreviation document := (list group).
Abbreviation catalog_t := (gmap string (gmap string value)).

(** [Object.keys(group.rules).forEach(ruleName =>
      tableRules[ruleName] = group.rules[ruleName])] *)
Definition copy_rules (tableRules : gmap string value) (group : group)
  : gmap string value :=
  foldl (λ tableRules kv, <[kv.1 := kv.2]> tableRules) tableRules
        (map_to_list (rules group)).

(** The body of [for (const tableName of group.tables)].
    [rules[tableName]] is read as the entry of a finite map, which it is
    for a name that [rules] does not inherit, and
    [tableRules[ruleName] = ..] stores an entry, which it does for every
    name but [__proto__] ([ordinary_group]). *)
Definition add_table (group : group) (rules : catalog_t) (tableName : string)
  : catalog_t :=
  let tableRules := default ∅ (rules !! tableName) in
  <[tableName := copy_rules tableRules group]> rules.

Definition add_group (rules : catalog_t) (group : group) : catalog_t :=
  foldl (add_table group) rules (tables group).

Definition add_document (rules : catalog_t) (parsed : document) : catalog_t :=
  foldl add_group rules parsed.

(** [getRules], as a function of the parsed rule files in the order of
    [fs.readdirSync]. *)
Definition getRules (files : list document) : catalog_t :=
  foldl add_document ∅ files.

(** ** processRules (later revision) *)

(** What one pass through the body of the [if] emits: the table, the rule
    and the row that [console.info] logs and [sns.publish] sends
    (serialized by [JSON.stringify]). *)
Record RuleMatch := {
  match_table : string;
  match_rule : string;
  match_row : gmap string value;
}.

Section Evaluator.

(** The catalog built at start-up. *)
Variable RULES : catalog_t.

(** [re.apply] of json-logic-js: the value it returns, or the exception
    it throws. *)
Variable re_apply : value → value → result value.

(** [row.added && re.apply(tableRules[ruleName], row)], as a condition.
    The callback is an async function: an exception thrown by
    [re.apply] rejects the promise of that callback and reaches neither
    the loops nor the other callbacks. *)
Definition rule_fires (rule : value) (row : gmap string value) : bool :=
  truthy (default VUndef (row !! "added"))
  && match re_apply rule (VObj row) with
     | Ok v => truthy v
     | Raise _ => false
     end.

Definition matches_of_row (tableName : string) (tableRules : gmap string value)
    (row : gmap string value) : list RuleMatch :=
  flat_map (λ kv, if rule_fires kv.2 row
                  then [ {| match_table := tableName; match_rule := kv.1;
                            match_row := row |} ]
                  else [])
           (map_to_list tableRules).

Definition matches_of_table (tableName : string) (partitions : partitions_t)
  : list RuleMatch :=
  match RULES !! tableName with
  | None => []
  | Some tableRules =>
      flat_map (λ day_rows, flat_map (matches_of_row tableName tableRules) day_rows.2)
               (map_to_list partitions)
  end.

Definition processRules (data : tables_t) : list RuleMatch :=
  flat_map (λ kv, matches_of_table kv.1 kv.2) (map_to_list data).

End Evaluator.

(** ** enroll and log (later revision) *)

Record response := {
  statusCode : Z;
  body : option string;
}.

Definition OK : response := {| statusCode := 200; body := None |}.
Definition ERROR : response := {| statusCode := 500; body := None |}.

(** [s.split(',')]: [cur] holds the current piece, last character first. *)
Fixpoint split_go (sep : ascii) (s : string) (cur : string) : list string :=
  match s with
  | EmptyString => [rev_string cur EmptyString]
  | String c s' =>
      if Ascii.eqb c sep then rev_string cur EmptyString :: split_go sep s' EmptyString
      else split_go sep s' (String c cur)
  end.

Definition split (sep : ascii) (s : string) : list string :=
  split_go sep s EmptyString.

(** [l.indexOf(v)] on an array of strings: strict equality. *)
Fixpoint indexOf (l : list string) (v : value) : Z :=
  match l with
  | [] => -1
  | s :: l' =>
      if strict_eq_str v s then 0
      else let i := indexOf l' v in if i <? 0 then -1 else i + 1
  end.

(** The branch that [log] takes. *)
Inductive log_branch :=
  | InvalidNodeKey      (* console.error('Invalid node key:', ..); return ERROR *)
  | InvalidLogData      (* console.error('Invalid log data:', ..); return ERROR *)
  | Status (data : value)     (* logStatus(body.data); return OK *)
  | Snapshot                  (* return OK *)
  | Results (data : value)    (* parseResult(body.data), processRules, uploadToS3 *)
  | UnknownLogType.           (* return ERROR *)

Section Enrollment.

(** [process.env.ENROLL_SECRETS || ''] *)
Variable enrollSecrets : string.

(** [crypto.createHash('sha256').update(s).digest('hex')] *)
Variable sha256_hex : string → string.

(** [JSON.stringify] *)
Variable JSON_stringify : value → string.

Definition ENROLL_SECRETS : list string :=
  map trim (split "," enrollSecrets).

Definition NODE_KEYS : list string :=
  map (λ secret, sha256_hex (trim secret)) (split "," enrollSecrets).

Definition enroll (body : gmap string value) : result response :=
  let enroll_secret := default VUndef (body !! "enroll_secret") in
  if negb (truthy enroll_secret) || (indexOf ENROLL_SECRETS enroll_secret <? 0)
  then Ok ERROR
  else
    match enroll_secret with
    | VStr s =>
        let node_key := sha256_hex s in
        Ok {| statusCode := 200;
              body := Some (JSON_stringify
                (VObj (<["node_invalid" := VBool false]>
                         (<["node_key" := VStr node_key]> ∅)))) |}
    | _ => Raise TypeError
    end.

Definition log (body : gmap string value) : log_branch :=
  let node_key := default VUndef (body !! "node_key") in
  let log_type := default VUndef (body !! "log_type") in
  let data := default VUndef (body !! "data") in
  if negb (truthy node_key) || (indexOf NODE_KEYS node_key <? 0)
  then InvalidNodeKey
  else if negb (truthy log_type) || negb (truthy data)
  then InvalidLogData
  else if strict_eq_str log_type "status" then Status data
  else if strict_eq_str log_type "snapshot" then Snapshot
  else if strict_eq_str log_type "result" then Results data
  else UnknownLogType.

(** What [log] returns on the branches that return at once. *)
Definition log_returns (b : log_branch) : option response :=
  match b with
  | InvalidNodeKey | InvalidLogData | UnknownLogType => Some ERROR
  | Snapshot => Some OK
  | Status _ | Results _ => None
  end.

End Enrollment.

(** ** parseResult over a store

    The same two revisions of [parseResult], with the objects that the
    caller holds kept in a store: [record.columns] is a reference, and so
    is every row that [parseResult] pushes.  This is the level at which
    writing into an object of the caller can be told from writing into a
    fresh one.  A call gives the store that it leaves, whether it returns
    or throws, and the table of references when it returns. *)

Module Heap.

Abbreviation loc := nat.
Abbreviation heap := (gmap nat (gmap string value)).
Abbreviation tables_t := (gmap string (gmap string (list nat))).

Record record := {
  name : string;
  calendarTime : value;
  unixTime : value;
  action : value;
  columns : loc;
}.

(** [o[key] = v] on the object at [l]. *)
Definition write (h : heap) (l : loc) (key : string) (v : value) : heap :=
  alter (<[key := v]>) l h.

(** [o[key]] on the object at [l]. *)
Definition read (h : heap) (l : loc) (key : string) : value :=
  default VUndef (h !! l ≫= λ o, o !! key).

Definition push (tables : tables_t) (tableName day : string) (row : loc)
  : tables_t :=
  let partitions := default ∅ (tables !! tableName) in
  let partitions :=
    match partitions !! day with
    | Some _ => partitions
    | None => <[day := []]> partitions
    end in
  <[tableName := <[day := default [] (partitions !! day) ++ [row]]> partitions]> tables.

(** What a call leaves: the store, and its value or its exception. *)
Definition outcome {A} (out : heap * option js_error) (a : A) : heap * result A :=
  (out.1, match out.2 with None => Ok a | Some e => Raise e end).

Section Partitioner.

Variable JSON_parse : string → option value.

Definition set_column (columns row : loc) (h : heap) (key : string)
  : heap * option js_error :=
  let val := read h columns key in
  match normalize JSON_parse val with
  | Ok v => (if String.eqb key "__proto__" then h else write h row key v, None)
  | Raise e => (h, Some e)
  end.

(** Later revision: [row] is a new object.  A reference to no object
    stands for a [columns] that is absent or [null], of which
    [Object.keys] throws. *)
Definition make_row (h : heap) (record : record) : heap * result loc :=
  match h !! columns record with
  | None => (h, Raise TypeError)
  | Some cols =>
      let row := fresh (dom h) in
      let h := <[row := reserved_keys (calendarTime record) (unixTime record)
                          (action record)]> h in
      outcome (loop (set_column (columns record) row) h (map_to_list cols).*1) row
  end.

Definition add_record (st : heap * tables_t) (record : record)
  : (heap * tables_t) * option js_error :=
  let day := getDay (unixTime record) in
  match make_row st.1 record with
  | (h, Ok row) => ((h, push st.2 (name record) day row), None)
  | (h, Raise e) => ((h, st.2), Some e)
  end.

Definition parseResult (h : heap) (data : list record) : heap * result tables_t :=
  let out := loop add_record (h, ∅) data in
  outcome (out.1.1, out.2) out.1.2.

End Partitioner.

(** Earlier revision: [row] is [record.columns]. *)
Definition make_row_rev1 (h : heap) (record : record) : heap * result loc :=
  match h !! columns record with
  | None => (h, Raise TypeError)
  | Some _ =>
      let row := columns record in
      let h := write h row "calendarTime" (calendarTime record) in
      let h := write h row "unixTime" (unixTime record) in
      let h := write h row "added" (VBool (strict_eq_str (action record) "added")) in
      (h, Ok row)
  end.

Definition add_record_rev1 (st : heap * tables_t) (record : record)
  : (heap * tables_t) * option js_error :=
  let day := getDay (unixTime record) in
  match make_row_rev1 st.1 record with
  | (h, Ok row) => ((h, push st.2 (name record) day row), None)
  | (h, Raise e) => ((h, st.2), Some e)
  end.

Definition parseResult_rev1 (h : heap) (data : list record)
  : heap * result tables_t :=
  let out := loop add_record_rev1 (h, ∅) data in
  outcome (out.1.1, out.2) out.1.2.

End Heap.

(** The record that a record of references denotes in a store, and the
    dataset that a table of references denotes. *)
Definition load_record (h : Heap.heap) (r : Heap.record) : record :=
  {| name := Heap.name r;
     calendarTime := Heap.calendarTime r;
     unixTime := Heap.unixTime r;
     action := Heap.action r;
     columns := default ∅ (h !! Heap.columns r) |}.

Definition deref_tables (h : Heap.heap) (tables : Heap.tables_t) : tables_t :=
  fmap (M := gmap string)
    (fmap (M := gmap string) (map (λ l : nat, default ∅ (h !! l)))) tables.

(** ** The proleptic Gregorian calendar, for stating what a UTC date is *)

Module Calendar.

Definition is_leap (y : Z) : bool :=
  (y mod 4 =? 0) && (negb (y mod 100 =? 0) || (y mod 400 =? 0)).

Definition month_length (leap : bool) (m : Z) : Z :=
  match m with
  | 1 | 3 | 5 | 7 | 8 | 10 | 12 => 31
  | 4 | 6 | 9 | 11 => 30
  | 2 => if leap then 29 else 28
  | _ => 0
  end.

Definition days_in_month (y m : Z) : Z := month_length (is_leap y) m.

(** Days of year [y] before the first of month [m]. *)
Definition days_before_month (y m : Z) : Z :=
  foldr Z.add 0 (month_length (is_leap y) <$> seqZ 1 (m - 1)).

(** Leap years among the years 1 .. [y]. *)
Definition leap_years_through (y : Z) : Z := y / 4 - y / 100 + y / 400.

(** Days from 1970-01-01 to the first of January of year [y]. *)
Definition days_before_year (y : Z) : Z :=
  365 * (y - 1970) + (leap_years_through (y - 1) - leap_years_through 1969).

(** Days from 1970-01-01 to the date [y]-[m]-[d]. *)
Definition days_from_civil (y m d : Z) : Z :=
  days_before_year y + days_before_month y m + (d - 1).

Definition valid_date (y m d : Z) : Prop :=
  1 <= m <= 12 ∧ 1 <= d <= days_in_month y m.

End Calendar.

(** The last two, and the last four, decimal digits of [n]. *)
Definition two_digits (n : Z) : string :=
  String (digit_char (n / 10 mod 10)) (String (digit_char (n mod 10)) EmptyString).

Definition four_digits (n : Z) : string :=
  String (digit_char (n / 1000 mod 10))
    (String (digit_char (n / 100 mod 10)) (two_digits n)).

(** ** The inputs on which a finite map is the dictionary of the code *)

(** The property names that every object inherits from
    [Object.prototype] in the initial environment.  [o[name]] finds one
    of them in an object [o] that has no such property of its own, and
    [o.__proto__ = v] calls a setter instead of storing a property. *)
Definition inherited_names : list string :=
  [ "__proto__"; "constructor"; "hasOwnProperty"; "isPrototypeOf";
    "propertyIsEnumerable"; "toLocaleString"; "toString"; "valueOf";
    "__defineGetter__"; "__defineSetter__"; "__lookupGetter__";
    "__lookupSetter__" ].

(** A name under which a dictionary holds what was stored in it, and
    nothing before. *)
Definition own_name (s : string) : bool :=
  negb (existsb (String.eqb s) inherited_names).

Definition no_digit (c : ascii) : bool := negb (is_digit c).

(** The timestamps on which [to_number] is the conversion of the
    language: a number, a boolean, [null], [undefined], a text of decimal
    digits, and a text without any digit (which reads as no number, as 0
    when it is blank, or as an infinity, of which the Date is as invalid
    as that of NaN).  Left out are the texts with a fraction, an exponent
    or a radix prefix, the arrays, which convert through their elements,
    and the objects, of which those that have a property [toString] of
    their own make [unixTime * 1000] throw. *)
Definition plain_time (v : value) : bool :=
  match v with
  | VUndef | VNull | VBool _ | VNum _ | VNaN => true
  | VStr s => all_chars is_digit s || all_chars no_digit s
  | VArr _ | VObj _ => false
  end.

(** A record that [parseResult] files under a name of its own and a day
    key that [getDay] gives as the code does. *)
Definition ordinary_record (r : record) : bool :=
  own_name (name r) && plain_time (unixTime r).

Definition ordinary_ref (r : Heap.record) : bool :=
  own_name (Heap.name r) && plain_time (Heap.unixTime r).

(** A rule group whose tables [getRules] enters under names of their
    own, and none of whose rules is named [__proto__]. *)
Definition ordinary_group (g : group) : bool :=
  forallb own_name (tables g)
  && negb (bool_decide (is_Some (rules g !! "__proto__"))).

(** ** Vocabulary for the properties of the partitioner *)

(** Strings of the form [{ .. }] and [[ .. ]]. *)
Definition braced (s : string) : Prop := ∃ body, s = "{" +:+ body +:+ "}".
Definition bracketed (s : string) : Prop := ∃ body, s = "[" +:+ body +:+ "]".

(** A column value that the later revision stores without throwing: a
    string which, when it has the shape of JSON, parses. *)
Definition column_ok (JSON_parse : string → option value) (v : value) : bool :=
  match v with
  | VStr s => if json_shaped s then bool_decide (is_Some (JSON_parse s)) else true
  | _ => false
  end.

Definition well_formed (JSON_parse : string → option value) (r : record) : bool :=
  forallb (λ kv, column_ok JSON_parse kv.2) (map_to_list (columns r)).

(** The records of table [n] and day [d]. *)
Definition in_bucket (n d : string) (r : record) : Prop :=
  name r = n ∧ getDay (unixTime r) = d.

(** Appending one row to bucket [(n, d)]. *)
Definition push_row (tables : tables_t) (n d : string) (row : gmap string value)
  : tables_t :=
  <[n := <[d := bucket tables n d ++ [row]]> (default ∅ (tables !! n))]> tables.

(** Every day-bucket of the dataset holds a row. *)
Definition buckets_nonempty (tables : tables_t) : Prop :=
  ∀ n parts d rows,
    tables !! n = Some parts → parts !! d = Some rows → rows ≠ [].

(** ** Sample batch *)

(** [quoted s] is [s] between double quotes. *)
Definition quoted (s : string) : string :=
  String JSON.dquote (s +:+ String JSON.dquote EmptyString).

(** The record of the comment in [parseResult], with a column that holds
    serialized JSON. *)
Definition sample_record : record :=
  {| name := "kubernetes_events";
     calendarTime := VStr "Sat May  8 00:44:15 2021 UTC";
     unixTime := VNum 1620434655;
     action := VStr "added";
     columns := <["abc" := VStr "def"]>
                  (<["xyz" := VStr "123"]>
                     (<["labels" := VStr ("{" +:+ quoted "a" +:+ ":1}")]> ∅)) |}.

(** A later record of the same table whose column looks like JSON and is
    not. *)
Definition broken_record : record :=
  {| name := "kubernetes_events";
     calendarTime := VStr "Sat May  8 00:44:16 2021 UTC";
     unixTime := VNum 1620434656;
     action := VStr "added";
     columns := <["labels" := VStr "{x}"]> ∅ |}.

(** A record with a column that holds a number. *)
Definition numeric_record : record :=
  {| name := "processes";
     calendarTime := VStr "Sat May  8 00:44:17 2021 UTC";
     unixTime := VNum 1620434657;
     action := VStr "added";
     columns := <["pid" := VNum 4242]> ∅ |}.

(** A record without a timestamp. *)
Definition undated_record : record :=
  {| name := "kubernetes_events";
     calendarTime := VUndef;
     unixTime := VUndef;
     action := VStr "removed";
     columns := <["abc" := VStr "ghi"]> ∅ |}.

(** A record with a column named as a reserved key. *)
Definition clashing_record : record :=
  {| name := "kubernetes_events";
     calendarTime := VStr "Sat May  8 00:44:15 2021 UTC";
     unixTime := VNum 1620434655;
     action := VStr "removed";
     columns := <["calendarTime" := VStr "yesterday"]>
                  (<["added" := VStr "yes"]> ∅) |}.

(** A store with the columns of [sample_record] at location 1, and the
    record that refers to them. *)
Definition sample_heap : Heap.heap := <[1%nat := columns sample_record]> ∅.

Definition sample_ref : Heap.record :=
  {| Heap.name := "kubernetes_events";
     Heap.calendarTime := VStr "Sat May  8 00:44:15 2021 UTC";
     Heap.unixTime := VNum 1620434655;
     Heap.action := VStr "added";
     Heap.columns := 1%nat |}.

(** ** Vocabulary and samples for the catalog and the enrollment *)

(** The rule mapping of table [t] after the groups [gs], merged in order
    from [acc]: a group that names [t] adds its rules over those already
    there. *)
Definition merged_rules (t : string) (acc : gmap string value) (gs : list group)
  : gmap string value :=
  foldl (λ acc g, if bool_decide (t ∈ tables g) then rules g ∪ acc else acc) acc gs.

(** Two rule files that both target ["kubernetes_pods"], with one rule
    name in common. *)
Definition file_a : document :=
  [ {| tables := ["kubernetes_pods"; "kubernetes_jobs"];
       rules := <["privileged" := VStr "a1"]> (<["host_pid" := VStr "a2"]> ∅) |} ].

Definition file_b : document :=
  [ {| tables := ["kubernetes_pods"];
       rules := <["privileged" := VStr "b1"]> (<["run_as_user" := VStr "b3"]> ∅) |} ].

(** Stand-ins for the two built-ins that [enroll] calls, for evaluating
    it: a digest of the length of a SHA-256 hex digest, and a serializer.
    What [enroll] and [log] decide depends on neither. *)
Definition digest_stand_in (s : string) : string :=
  "0000000000000000000000000000000000000000000000000000000000000000".

Definition stringify_stand_in (v : value) : string :=
  match v with
  | VObj m => match m !! "node_key" with Some (VStr k) => k | _ => EmptyString end
  | _ => EmptyString
  end.

(** Every reference of the table is to an object of the store. *)
Definition locs_in (t : Heap.tables_t) (h : Heap.heap) : Prop :=
  ∀ n parts d rows l,
    t !! n = Some parts → parts !! d = Some rows → l ∈ rows → is_Some (h !! l).

(** A timestamp that is no number and converts to none: absent, NaN, or
    a text without digits that is not blank. *)
Definition no_timestamp (v : value) : bool :=
  match v with
  | VUndef | VNaN => true
  | VStr s => all_chars no_digit s && negb (String.eqb (trim s) EmptyString)
  | _ => false
  end.

(** A stand-in for [re.apply] on the one rule of the repository's test
    'Privileged container', [{"==": [{"var": "privileged"}, "1"]}]: true
    on a row whose [privileged] is "1" or 1, false on the other rows of
    the test. *)
Definition apply_privileged (rule row : value) : result value :=
  match row with
  | VObj m =>
      match m !! "privileged" with
      | Some (VStr "1") | Some (VNum 1) => Ok (VBool true)
      | _ => Ok (VBool false)
      end
  | _ => Ok (VBool false)
  end.

Definition sample_rules : catalog_t :=
  <["kubernetes_pod_containers" := <["privileged" := VStr "rule"]> ∅]> ∅.

Definition privileged_row (privileged : string) (added : bool) : gmap string value :=
  <["privileged" := VStr privileged]> (<["added" := VBool added]> ∅).

Definition sample_dataset : tables_t :=
  <["kubernetes_pod_containers" :=
      <["20210508" := [privileged_row "1" true; privileged_row "0" true;
                       privileged_row "1" false]]> ∅]>
    (<["kubernetes_events" := <["20210508" := [privileged_row "1" true]]> ∅]> ∅).

(** The value of a call that returned; [d] when it threw. *)
Definition returned {A} (d : A) (r : result A) : A :=
  match r with
  | Ok a => a
  | Raise _ => d
  end.

(** The row of [sample_record], and what the earlier revision leaves
    for [sample_ref]. *)
Definition sample_row : gmap string value :=
  returned ∅ (make_row JSON.parse sample_record).

Definition sample_store_rev1 : Heap.heap * result Heap.tables_t :=
  Heap.parseResult_rev1 sample_heap [sample_ref].

(** ** ToString and property reads *)

(** ToString.  An array is joined with commas, its [null] and [undefined]
    elements printed as the empty string.  An object is a plain one: it
    prints as ["[object Object]"], unless it has a property [toString] of
    its own, which no value read from JSON can be called as, and then the
    conversion throws.  A number prints as its decimal digits, as the
    integers up to 2^53 in magnitude do ([prints_plain]). *)
Fixpoint to_string (v : value) : result string :=
  match v with
  | VUndef => Ok "undefined"
  | VNull => Ok "null"
  | VBool b => Ok (if b then "true" else "false")
  | VNum z => Ok (number_to_string (Int z))
  | VNaN => Ok "NaN"
  | VStr s => Ok s
  | VArr l =>
      (fix join (l : list value) : result string :=
         match l with
         | [] => Ok EmptyString
         | e :: l' =>
             s ← match e with
                 | VUndef | VNull => Ok EmptyString
                 | _ => to_string e
                 end;
             match l' with
             | [] => Ok s
             | _ :: _ => r ← join l'; Ok (s +:+ "," +:+ r)
             end
         end) l
  | VObj m =>
      if decide (is_Some (m !! "toString")) then Raise TypeError
      else Ok "[object Object]"
  end.

(** The same conversion of an array, element by element. *)
Definition element_string (e : value) : result string :=
  match e with
  | VUndef | VNull => Ok EmptyString
  | _ => to_string e
  end.

Fixpoint join_elements (l : list value) : result string :=
  match l with
  | [] => Ok EmptyString
  | e :: l' =>
      s ← element_string e;
      match l' with
      | [] => Ok s
      | _ :: _ => r ← join_elements l'; Ok (s +:+ "," +:+ r)
      end
  end.

(** [row.key] for the names that [index.js] reads: reading a property of
    [null] or [undefined] throws; a string, a number, a boolean and an
    array have none of these names. *)
Definition field (row : value) (key : string) : result value :=
  match row with
  | VUndef | VNull => Raise TypeError
  | VObj m => Ok (default VUndef (m !! key))
  | _ => Ok VUndef
  end.

(** The properties of a parsed request body as [enroll] and [log] read
    them, all at once. *)
Definition fields_of (body : value) : result (gmap string value) :=
  match body with
  | VObj m => Ok m
  | VUndef | VNull => Raise TypeError
  | _ => Ok ∅
  end.

(** The values that [for (const row of data)] visits: the elements of an
    array, the characters of a string; no other value of the model is
    iterable. *)
Definition for_of (data : value) : result (list value) :=
  match data with
  | VArr l => Ok l
  | VStr s => Ok ((λ c, VStr (String c EmptyString)) <$> list_ascii_of_string s)
  | _ => Raise TypeError
  end.

(** ** handler (later revision) *)

(** The two properties of the event that [handler] reads. *)
Record event := {
  event_path : value;
  event_body : value;
}.

Section Handler.

Variable JSON_parse : string → option value.
Variable enrollSecrets : string.
Variable sha256_hex : string → string.
Variable JSON_stringify : value → string.

(** [JSON.parse(event.body)] inside the [try]: [None] when the call
    throws, in converting its argument to a string or in parsing. *)
Definition parse_body (text : value) : option value :=
  match to_string text with
  | Ok s => JSON_parse s
  | Raise _ => None
  end.

(** [handler] up to the point where [log] has chosen its branch: the
    response returned before that ([inl]), or the branch ([inr]). *)
Definition handler (event : event) : result (response + log_branch) :=
  if negb (strict_eq_str (event_path event) "/enroll")
     && negb (strict_eq_str (event_path event) "/log")
  then Ok (inl ERROR)
  else if negb (truthy (event_body event)) then Ok (inl ERROR)
  else
    match parse_body (event_body event) with
    | None => Ok (inl ERROR)
    | Some body =>
        if strict_eq_str (event_path event) "/enroll"
        then fields ← fields_of body;
             r ← enroll enrollSecrets sha256_hex JSON_stringify fields;
             Ok (inl r)
        else fields ← fields_of body;
             Ok (inr (log enrollSecrets sha256_hex fields))
    end.

End Handler.

(** ** enroll and log (earlier revision) *)

Section EnrollmentRev1.

(** [process.env.ENROLL_SECRET || ''] *)
Variable ENROLL_SECRET : string.
Variable sha256_hex : string → string.
Variable JSON_stringify : value → string.

Definition NODE_KEY : string := sha256_hex ENROLL_SECRET.

Definition enroll_rev1 (body : gmap string value) : response :=
  if negb (strict_eq_str (default VUndef (body !! "enroll_secret")) ENROLL_SECRET)
  then ERROR
  else {| statusCode := 200;
          body := Some (JSON_stringify
            (VObj (<["node_invalid" := VBool false]>
                     (<["node_key" := VStr NODE_KEY]> ∅)))) |}.

Definition log_rev1 (body : gmap string value) : log_branch :=
  let node_key := default VUndef (body !! "node_key") in
  let log_type := default VUndef (body !! "log_type") in
  let data := default VUndef (body !! "data") in
  if negb (strict_eq_str node_key NODE_KEY) then InvalidNodeKey
  else if strict_eq_str log_type "status" then Status data
  else if strict_eq_str log_type "snapshot" then Snapshot
  else if strict_eq_str log_type "result" then Results data
  else UnknownLogType.

End EnrollmentRev1.

(** ** logStatus (both revisions) *)

Inductive console_call :=
  | console_info (msg : string)
  | console_warning (msg : string)
  | console_error (msg : string).

(** The template literal
    [`${row.calendarTime} ${row.filename}:${row.line} ${row.message}`]. *)
Definition status_message (row : value) : result string :=
  calendarTime ← field row "calendarTime" ≫= to_string;
  filename ← field row "filename" ≫= to_string;
  line ← field row "line" ≫= to_string;
  message ← field row "message" ≫= to_string;
  Ok (calendarTime +:+ " " +:+ filename +:+ ":" +:+ line +:+ " " +:+ message).

Section Console.

(** Whether the console at hand has a method [warning].  The console of
    Node.js has [warn] and no [warning]: there [console.warning(msg)]
    calls [undefined] and throws a TypeError. *)
Variable console_has_warning : bool.

(** The body of the loop for one row. *)
Definition log_status_row (row : value) : result console_call :=
  msg ← status_message row;
  severity ← field row "severity";
  if strict_eq_str severity "0" then Ok (console_info msg)
  else if strict_eq_str severity "1" then
    if console_has_warning then Ok (console_warning msg) else Raise TypeError
  else Ok (console_error msg).

(** The console calls made, in order, and the exception that ended the
    loop if one did. *)
Fixpoint logStatus_rows (rows : list value) : list console_call * option js_error :=
  match rows with
  | [] => ([], None)
  | row :: rows' =>
      match log_status_row row with
      | Ok call => let out := logStatus_rows rows' in (call :: out.1, out.2)
      | Raise e => ([], Some e)
      end
  end.

Definition logStatus (data : value) : list console_call * option js_error :=
  match for_of data with
  | Ok rows => logStatus_rows rows
  | Raise e => ([], Some e)
  end.

End Console.

(** ** uploadToS3 *)

Definition newline : string := String "010" EmptyString.

(** The parameters of [s3.putObject] that vary from call to call. *)
Record put_request := {
  Key : string;
  Body : string;
}.

(** The day-buckets of a dataset, in the order of the two nested
    [forEach] over [Object.keys]. *)
Definition buckets_of (data : tables_t)
  : list (string * string * list (gmap string value)) :=
  map_to_list data ≫= λ tp, (λ dr, (tp.1, dr.1, dr.2)) <$> map_to_list tp.2.

Section Uploader.

Variable JSON_stringify : value → string.

(** The text that the [n]-th call of
    [crypto.randomBytes(20).toString('hex')] returns. *)
Variable random_id : nat → string.

(** [rows.forEach(row => Body += JSON.stringify(row) + '\n')], from
    [Body = '']. *)
Definition object_body (rows : list (gmap string value)) : string :=
  foldl (λ Body row, Body +:+ (JSON_stringify (VObj row) +:+ newline))
        EmptyString rows.

(** [`${tableName}/day=${day}/${id}.json`] *)
Definition object_key (tableName day id : string) : string :=
  tableName +:+ "/day=" +:+ day +:+ "/" +:+ id +:+ ".json".

(** The request that the callback of each day-bucket builds before its
    first [await]; the callbacks run that far one after the other, so the
    [i]-th bucket draws the [i]-th identifier. *)
Definition uploadToS3 (data : tables_t) : list put_request :=
  imap (λ i b, {| Key := object_key b.1.1 b.1.2 (random_id i);
                  Body := object_body b.2 |})
       (buckets_of data).

End Uploader.

(** ** The retry loops of uploadToS3 and processRules *)

(** What a turn of a retry loop does: the call of turn [i], and the
    [console.error] of turn [i]. *)
Inductive attempt :=
  | call_made (i : nat)
  | error_logged (i : nat).

(** uploadToS3, later revision:
    [for (let i = 0; i < 3; i++) { try { await s3.putObject(..).promise();
     break; } catch (err) { if (i === 2) { console.error(..); } } }],
    from turn [i] with [turns] turns to go; [resolves i] tells whether the
    promise of turn [i] resolves. *)
Fixpoint put_loop (resolves : nat → bool) (i turns : nat) : list attempt :=
  match turns with
  | O => []
  | S turns' =>
      call_made i ::
      (if resolves i then []
       else (if (i =? 2)%nat then [error_logged i] else [])
            ++ put_loop resolves (S i) turns')
  end.

(** uploadToS3, earlier revision: the [catch] logs every failure. *)
Fixpoint put_loop_rev1 (resolves : nat → bool) (i turns : nat) : list attempt :=
  match turns with
  | O => []
  | S turns' =>
      call_made i ::
      (if resolves i then []
       else error_logged i :: put_loop_rev1 resolves (S i) turns')
  end.

(** processRules, later revision: the same loop around [sns.publish],
    whose [try] has no [break]. *)
Fixpoint publish_loop (resolves : nat → bool) (i turns : nat) : list attempt :=
  match turns with
  | O => []
  | S turns' =>
      (call_made i ::
       (if resolves i then []
        else if (i =? 2)%nat then [error_logged i] else []))
      ++ publish_loop resolves (S i) turns'
  end.

(** ** Vocabulary for the further properties *)

Definition not_space (c : ascii) : bool := negb (is_space c).

Definition not_char (x : ascii) (c : ascii) : bool := negb (Ascii.eqb c x).

Definition no_slash (s : string) : bool := all_chars (not_char "/") s.

(** The occurrences of [x] in [s]. *)
Fixpoint count_char (x : ascii) (s : string) : nat :=
  match s with
  | EmptyString => 0
  | String c s' => (if Ascii.eqb c x then 1 else 0) + count_char x s'
  end.

(** A text that does not begin with white space. *)
Definition starts_clean (s : string) : bool :=
  match s with
  | String c _ => negb (is_space c)
  | EmptyString => true
  end.

(** A column that both revisions store alike: not named as a reserved
    key nor [__proto__], and holding a string that has not the shape of
    JSON. *)
Definition plain_column (kv : string * value) : bool :=
  negb (String.eqb kv.1 "calendarTime") && negb (String.eqb kv.1 "unixTime")
  && negb (String.eqb kv.1 "added") && negb (String.eqb kv.1 "__proto__")
  && match kv.2 with
     | VStr s => negb (json_shaped s)
     | _ => false
     end.

Definition plain_record (r : record) : bool :=
  forallb plain_column (map_to_list (columns r)).

(** The values that a template literal prints as [to_string] has them:
    the numbers in them are integers of magnitude at most 2^53, which
    print as their decimal digits.  (A larger number prints the shortest
    digits that denote it, or in exponent notation.) *)
Fixpoint prints_plain (v : value) : bool :=
  match v with
  | VNum z => Z.abs z <=? 9007199254740992
  | VArr l => forallb prints_plain l
  | _ => true
  end.

(** The four fields that [logStatus] prints are such values. *)
Definition plain_fields (row : value) : bool :=
  match row with
  | VObj m =>
      forallb (λ k, prints_plain (default VUndef (m !! k)))
              ["calendarTime"; "filename"; "line"; "message"]
  | _ => true
  end.

(** A row that [logStatus] writes as [call]: its four fields print, its
    severity is not '1', and the call is [console.info] for severity '0'
    and [console.error] otherwise. *)
Definition logs_as (row : value) (call : console_call) : Prop :=
  plain_fields row = true
  ∧ ∃ msg severity,
      status_message row = Ok msg
      ∧ field row "severity" = Ok severity
      ∧ severity ≠ VStr "1"
      ∧ call = if strict_eq_str severity "0" then console_info msg
               else console_error msg.

(** No two groups give one table two expressions under one rule name. *)
Definition compatible (gs : list group) : Prop :=
  ∀ g1 g2 t rn e1 e2,
    g1 ∈ gs → g2 ∈ gs → t ∈ tables g1 → t ∈ tables g2 →
    rules g1 !! rn = Some e1 → rules g2 !! rn = Some e2 → e1 = e2.

(** The response of a successful [enroll]. *)
Definition node_key_response (JSON_stringify : value → string) (node_key : string)
  : response :=
  {| statusCode := 200;
     body := Some (JSON_stringify
               (VObj (<["node_invalid" := VBool false]>
                        (<["node_key" := VStr node_key]> ∅)))) |}.

(** ** Further samples *)

(** A status batch: an information, an error, a warning, and a row
    without fields. *)
Definition status_row (calendarTime filename : string) (line : value)
    (message severity : string) : value :=
  VObj (<["calendarTime" := VStr calendarTime]>
          (<["filename" := VStr filename]>
             (<["line" := line]>
                (<["message" := VStr message]>
                   (<["severity" := VStr severity]> ∅))))).

Definition sample_status : list value :=
  [ status_row "Sat May  8 00:44:15 2021 UTC" "scheduler.cpp" (VNum 105)
      "Executing query" "0";
    status_row "Sat May  8 00:44:16 2021 UTC" "tls.cpp" (VStr "253")
      "Request failed" "2";
    status_row "Sat May  8 00:44:17 2021 UTC" "tls.cpp" (VStr "260")
      "Retrying" "1";
    VObj (<["severity" := VStr "0"]> ∅) ].

(** An added record of a table that has a rule. *)
Definition pod_record : record :=
  {| name := "kubernetes_pod_containers";
     calendarTime := VStr "Sat May  8 00:44:15 2021 UTC";
     unixTime := VNum 1620434655;
     action := VStr "added";
     columns := <["privileged" := VStr "1"]> ∅ |}.

Definition pod_tables : tables_t :=
  returned ∅ (parseResult JSON.parse [pod_record]).

(** The dataset of a batch of three records. *)
Definition sample_batch : list record :=
  [sample_record; undated_record; sample_record].

Definition sample_tables : tables_t :=
  returned ∅ (parseResult JSON.parse sample_batch).

(** Stand-ins for [JSON.stringify] without indentation, which writes no
    line break, and for the random identifiers, which are hexadecimal. *)
Definition compact_stand_in (v : value) : string := "{}".

Definition id_stand_in (n : nat) : string := "5f2a".

(** A dataset of the table that [file_a] and [file_b] have rules for, and
    a match on its row. *)
Definition pods_dataset : tables_t :=
  <["kubernetes_pods" := <["20210508" := [privileged_row "1" true]]> ∅]> ∅.

Definition pods_match : RuleMatch :=
  {| match_table := "kubernetes_pods"; match_rule := "privileged";
     match_row := privileged_row "1" true |}.

(** A rule file for another table. *)
Definition file_c : document :=
  [ {| tables := ["kubernetes_nodes"];
       rules := <["privileged" := VStr "c1"]> ∅ |} ].

(** Requests: an enrollment, a result log carrying the digest that the
    stand-in gives every secret, and a body that is the JSON text [null]. *)
Definition enroll_event : event :=
  {| event_path := VStr "/enroll";
     event_body := VStr ("{" +:+ quoted "enroll_secret" +:+ ":"
                         +:+ quoted "s3cret" +:+ "}") |}.

Definition log_event : event :=
  {| event_path := VStr "/log";
     event_body := VStr ("{" +:+ quoted "node_key" +:+ ":"
                         +:+ quoted (digest_stand_in "s3cret") +:+ ","
                         +:+ quoted "log_type" +:+ ":" +:+ quoted "result" +:+ ","
                         +:+ quoted "data" +:+ ":[1]}") |}.

Definition null_event : event :=
  {| event_path := VStr "/enroll"; event_body := VStr "null" |}.

(** ** Vocabulary for the earlier revision over the store *)

(** The references of bucket [(tableName, day)]. *)
Definition ref_bucket (t : Heap.tables_t) (tableName day : string) : list nat :=
  default [] (t !! tableName ≫= λ parts, parts !! day).

(** The references held by a table of references. *)
Definition refs_in (t : Heap.tables_t) (l : nat) : Prop :=
  ∃ n d, l ∈ ref_bucket t n d.

(** The records of references that belong to bucket [(n, d)]. *)
Definition in_ref_bucket (n d : string) (r : Heap.record) : Prop :=
  Heap.name r = n ∧ getDay (Heap.unixTime r) = d.

(** * Properties *)

(** ** The Date model *)

Section DateFacts.

Import Date Calendar.

Lemma DayFromYear_succ y : DayFromYear (y + 1) = DayFromYear y + DaysInYear y.
Proof.
  unfold DayFromYear, DaysInYear.
  destruct (Z.eqb_spec (y mod 4) 0); destruct (Z.eqb_spec (y mod 100) 0);
    destruct (Z.eqb_spec (y mod 400) 0); cbn [negb];
    Z.div_mod_to_equations; lia.
Qed.

(** [YearFromDay] is the year number of ECMA-262: the largest year that
    starts on or before the day. *)
Lemma YearFromDay_spec d :
  DayFromYear (YearFromDay d) <= d < DayFromYear (YearFromDay d + 1).
Proof.
  unfold YearFromDay.
  set (y := 1970 + 400 * d / 146097).
  assert (Hlo : DayFromYear (y - 1) <= d).
  { unfold DayFromYear, y. Z.div_mod_to_equations. lia. }
  assert (Hhi : d < DayFromYear (y + 1 + 1)).
  { unfold DayFromYear, y. Z.div_mod_to_equations. lia. }
  destruct (Z.leb_spec (DayFromYear (y + 1)) d); [lia|].
  destruct (Z.leb_spec (DayFromYear y) d); [lia|].
  replace (y - 1 + 1) with y by lia. lia.
Qed.

Lemma DayFromYear_mono a b : a <= b → DayFromYear a <= DayFromYear b.
Proof. unfold DayFromYear. intros. Z.div_mod_to_equations. lia. Qed.

Lemma DayFromYear_calendar y : DayFromYear y = days_before_year y.
Proof.
  unfold DayFromYear, days_before_year, leap_years_through.
  Z.div_mod_to_equations. lia.
Qed.

Lemma DaysInYear_leap y : DaysInYear y = if is_leap y then 366 else 365.
Proof.
  unfold DaysInYear, is_leap.
  destruct (y mod 4 =? 0), (y mod 100 =? 0), (y mod 400 =? 0); reflexivity.
Qed.

(** The year, month and date of a time value are the calendar date of
    its day number. *)
Lemma utc_fields_civil t :
  valid_date (YearFromTime t) (MonthFromTime t + 1) (DateFromTime t)
  ∧ days_from_civil (YearFromTime t) (MonthFromTime t + 1) (DateFromTime t)
    = Day t.
Proof.
  pose proof (YearFromDay_spec (Day t)) as Hy.
  rewrite DayFromYear_succ in Hy. fold (YearFromTime t) in Hy.
  unfold valid_date, days_from_civil, DateFromTime, MonthFromTime,
    InLeapYear, DayWithinYear.
  rewrite <- DayFromYear_calendar.
  rewrite DaysInYear_leap in *.
  set (y := YearFromTime t) in *. set (d := Day t) in *.
  set (b := DayFromYear y) in *.
  unfold days_before_month, days_in_month.
  destruct (is_leap y); cbn [Z.eqb Pos.eqb];
    repeat match goal with
      | |- context [ ?a <? ?b ] => destruct (Z.ltb_spec a b)
      end;
    repeat match goal with
      | |- context [ month_length ?l ?m ] =>
          let v := eval vm_compute in (month_length l m) in
          change (month_length l m) with v
      | |- context [ foldr Z.add 0 ?l ] =>
          let v := eval vm_compute in (foldr Z.add 0 l) in
          change (foldr Z.add 0 l) with v
      end; lia.
Qed.

Lemma year_in_range t y0 y1 :
  DayFromYear y0 <= Day t < DayFromYear y1 → y0 <= YearFromTime t < y1.
Proof.
  intros [Hlo Hhi]. pose proof (YearFromDay_spec (Day t)) as [Ha Hb].
  fold (YearFromTime t) in Ha, Hb. split.
  - destruct (Z_le_gt_dec y0 (YearFromTime t)) as [|Hgt]; [done|].
    pose proof (DayFromYear_mono (YearFromTime t + 1) y0 ltac:(lia)). lia.
  - destruct (Z_lt_le_dec (YearFromTime t) y1) as [|Hge]; [done|].
    pose proof (DayFromYear_mono y1 (YearFromTime t) Hge). lia.
Qed.

End DateFacts.

(** ** Decimal printing *)

Lemma append_assoc (a b c : string) : (a +:+ b) +:+ c = a +:+ (b +:+ c).
Proof.
  induction a as [|x a IH]; [done|].
  change (String x ((a +:+ b) +:+ c) = String x (a +:+ b +:+ c)).
  by f_equal.
Qed.

Lemma digits_one n : 0 <= n <= 9 → "0" +:+ digits n = two_digits n.
Proof.
  intros H.
  assert (Hc : n = 0 ∨ n = 1 ∨ n = 2 ∨ n = 3 ∨ n = 4 ∨ n = 5 ∨ n = 6
               ∨ n = 7 ∨ n = 8 ∨ n = 9) by lia.
  repeat destruct Hc as [-> | Hc]; try subst n; reflexivity.
Qed.

Lemma digits_go_small fuel n acc :
  0 <= n < 10 → digits_go fuel n acc = String (digit_char n) acc.
Proof.
  intros H. destruct fuel; simpl; rewrite Z.mod_small by lia; [done|].
  destruct (Z.ltb_spec n 10); [done | lia].
Qed.

Lemma digits_two n : 10 <= n <= 99 → digits n = two_digits n.
Proof.
  intros H. unfold digits, two_digits.
  assert (Hl : 3 <= Z.log2 n).
  { change 3 with (Z.log2 8). apply Z.log2_le_mono. lia. }
  destruct (Z.to_nat (Z.log2 n)) as [|fuel] eqn:Hf; [lia|].
  simpl. destruct (Z.ltb_spec n 10); [lia|].
  rewrite digits_go_small by (Z.div_mod_to_equations; lia).
  rewrite (Z.mod_small (n / 10)) by (Z.div_mod_to_equations; lia). done.
Qed.

Lemma digits_four n : 1000 <= n <= 9999 → digits n = four_digits n.
Proof.
  intros H. unfold digits, four_digits, two_digits.
  assert (Hl : 9 <= Z.log2 n).
  { change 9 with (Z.log2 512). apply Z.log2_le_mono. lia. }
  destruct (Z.to_nat (Z.log2 n)) as [|[|[|fuel]]] eqn:Hf; [lia..|].
  simpl.
  destruct (Z.ltb_spec n 10); [lia|].
  destruct (Z.ltb_spec (n / 10) 10); [Z.div_mod_to_equations; lia|].
  destruct (Z.ltb_spec (n / 10 / 10) 10); [Z.div_mod_to_equations; lia|].
  rewrite digits_go_small by (Z.div_mod_to_equations; lia).
  replace (n / 10 / 10 / 10) with (n / 1000) by (Z.div_mod_to_equations; lia).
  replace (n / 10 / 10) with (n / 100) by (Z.div_mod_to_equations; lia).
  rewrite (Z.mod_small (n / 1000)) by (Z.div_mod_to_equations; lia). done.
Qed.

Lemma pad_two n :
  1 <= n <= 99 →
  (if num_lt (Int n) (Int 10) then "0" +:+ number_to_string (Int n)
   else number_to_string (Int n)) = two_digits n.
Proof.
  intros H. unfold num_lt, number_to_string.
  destruct (Z.ltb_spec n 0); [lia|].
  destruct (Z.ltb_spec n 10).
  - apply digits_one. lia.
  - apply digits_two. lia.
Qed.

(** ** getDay *)

(** Within the range of Date, the key is the year in decimal followed by
    the month and the date on two digits each. *)
Lemma getDay_valid t :
  Z.abs t <= 8640000000000 →
  getDay (VNum t)
  = number_to_string (Int (Date.YearFromTime (t * 1000)))
    +:+ two_digits (Date.MonthFromTime (t * 1000) + 1)
    +:+ two_digits (Date.DateFromTime (t * 1000)).
Proof.
  intros Ht. unfold getDay. cbn [to_number num_mul Date.new_Date].
  destruct (Z.leb_spec (Z.abs (t * 1000)) 8640000000000000) as [_|Hbad]; [|lia].
  cbn [Date.getUTCFullYear Date.getUTCMonth Date.getUTCDate num_add].
  destruct (utc_fields_civil (t * 1000)) as [[Hm Hd] _].
  assert (Hd' : 1 <= Date.DateFromTime (t * 1000) <= 31).
  { revert Hm Hd. unfold Calendar.days_in_month.
    generalize (Calendar.is_leap (Date.YearFromTime (t * 1000))) as l.
    generalize (Date.DateFromTime (t * 1000)) as d.
    generalize (Date.MonthFromTime (t * 1000) + 1) as m.
    intros m d l Hm.
    assert (Hc : m = 1 ∨ m = 2 ∨ m = 3 ∨ m = 4 ∨ m = 5 ∨ m = 6 ∨ m = 7
                 ∨ m = 8 ∨ m = 9 ∨ m = 10 ∨ m = 11 ∨ m = 12) by lia.
    destruct l; repeat destruct Hc as [-> | Hc]; try subst m; cbn; lia. }
  rewrite !pad_two by lia. simpl. apply append_assoc.
Qed.

Lemma Day_seconds t : Date.Day (t * 1000) = t / 86400.
Proof. unfold Date.Day, Date.msPerDay. Z.div_mod_to_equations. lia. Qed.

(** C4, as amended: for an integer timestamp within the range of Date the
    day key is the UTC calendar date of [unixTime], written as the year in
    decimal followed by the zero-padded month and day; the year takes four
    digits, and the key is YYYYMMDD, when the year lies in 1000..9999.  The
    key is computed from [unixTime] alone, and the two keys around
    2021-05-09T00:00:00Z are "20210508" and "20210509". *)
Theorem getDay_utc_date :
  (∀ t : Z, Z.abs t <= 8640000000000 →
     ∃ y m d : Z,
       Calendar.valid_date y m d
       ∧ Calendar.days_from_civil y m d = t / 86400
       ∧ getDay (VNum t) = number_to_string (Int y) +:+ two_digits m +:+ two_digits d
       ∧ (-30610224000 <= t < 253402300800 →
          1000 <= y <= 9999
          ∧ getDay (VNum t) = four_digits y +:+ two_digits m +:+ two_digits d))
  ∧ getDay (VNum 1620518399) = "20210508"
  ∧ getDay (VNum 1620518400) = "20210509"
  ∧ (∀ r r' : record, unixTime r = unixTime r' →
       getDay (unixTime r) = getDay (unixTime r')).
Proof.
  split; [|split; [|split]].
  - intros t Ht.
    exists (Date.YearFromTime (t * 1000)), (Date.MonthFromTime (t * 1000) + 1),
      (Date.DateFromTime (t * 1000)).
    destruct (utc_fields_civil (t * 1000)) as [Hv Hc].
    rewrite Day_seconds in Hc.
    split; [done|]. split; [done|]. split; [by apply getDay_valid|].
    intros Hr.
    assert (Hy : 1000 <= Date.YearFromTime (t * 1000) < 10000).
    { apply year_in_range. rewrite Day_seconds.
      change (Date.DayFromYear 1000) with (-354285).
      change (Date.DayFromYear 10000) with 2932897.
      Z.div_mod_to_equations. lia. }
    split; [lia|].
    rewrite getDay_valid by done.
    unfold number_to_string.
    destruct (Z.ltb_spec (Date.YearFromTime (t * 1000)) 0); [lia|].
    rewrite digits_four by lia. reflexivity.
  - vm_compute. reflexivity.
  - vm_compute. reflexivity.
  - intros r r' ->. reflexivity.
Qed.

Lemma getDay_utc_date_witness :
  ∃ y m d : Z,
    Calendar.valid_date y m d
    ∧ Calendar.days_from_civil y m d = 1620434655 / 86400
    ∧ getDay (VNum 1620434655)
      = number_to_string (Int y) +:+ two_digits m +:+ two_digits d
    ∧ (-30610224000 <= 1620434655 < 253402300800 →
       1000 <= y <= 9999
       ∧ getDay (VNum 1620434655) = four_digits y +:+ two_digits m +:+ two_digits d).
Proof. apply (proj1 getDay_utc_date 1620434655). simpl. lia. Defined.

(** C4 as stated fails where the year has more than four digits: the
    first second of the year 10000 gets a key of nine characters. *)
Lemma getDay_year_10000 :
  Calendar.days_from_civil 10000 1 1 = 253402300800 / 86400
  ∧ getDay (VNum 253402300800) = "100000101"
  ∧ String.length (getDay (VNum 253402300800)) = 9%nat.
Proof. vm_compute. auto. Qed.

(** ** The shape test of the field normalizer *)

Lemma append_cons c a b : String c a +:+ b = String c (a +:+ b).
Proof. reflexivity. Qed.

Lemma length_append a b :
  String.length (a +:+ b) = (String.length a + String.length b)%nat.
Proof.
  induction a as [|c a IH]; [done|].
  rewrite append_cons. simpl. by rewrite IH.
Qed.

Lemma string_snoc s :
  s ≠ EmptyString → ∃ body c, s = body +:+ String c EmptyString.
Proof.
  induction s as [|c s IH]; [done|]. intros _.
  destruct s as [|c' s'].
  - by exists EmptyString, c.
  - destruct IH as (body & c0 & Hs); [done|].
    exists (String c body), c0. by rewrite append_cons, <- Hs.
Qed.

Lemma get_snoc body c :
  String.get (String.length body) (body +:+ String c EmptyString) = Some c.
Proof. induction body as [|x body IH]; [done|]. by rewrite append_cons. Qed.

(** The first character, as [charAt(0)] sees it. *)
Lemma charAt_first s c :
  charAt s 0 = String c EmptyString ↔ ∃ rest, s = String c rest.
Proof.
  unfold charAt. simpl. destruct s as [|x s]; simpl.
  - split; [done | by intros [? ?]].
  - split; [intros [= ->]; by eexists | by intros [? [= -> _]]].
Qed.

(** The last character, as [charAt(length - 1)] sees it. *)
Lemma charAt_last body c :
  charAt (body +:+ String c EmptyString)
         (str_length (body +:+ String c EmptyString) - 1)
  = String c EmptyString.
Proof.
  unfold charAt, str_length. rewrite length_append. simpl.
  destruct (Z.ltb_spec (Z.of_nat (String.length body + 1) - 1) 0); [lia|].
  replace (Z.to_nat (Z.of_nat (String.length body + 1) - 1))
    with (String.length body) by lia.
  by rewrite get_snoc.
Qed.

Lemma json_shaped_spec s : json_shaped s = true ↔ braced s ∨ bracketed s.
Proof.
  unfold json_shaped, braced, bracketed. split.
  - intros H. apply orb_true_iff in H as [H|H].
    + left. rewrite !andb_true_iff in H.
      destruct H as (((_ & _) & Hlen) & Hfirst & Hlast).
      apply String.eqb_eq in Hfirst, Hlast.
      apply charAt_first in Hfirst as [rest ->].
      destruct rest as [|x rest]; [done|].
      destruct (string_snoc (String x rest)) as (body & c & Hb); [done|].
      rewrite Hb in Hlast |- *.
      change (String "{" (body +:+ String c EmptyString))
        with (String "{" body +:+ String c EmptyString) in Hlast.
      rewrite charAt_last in Hlast. injection Hlast as ->. by exists body.
    + right. rewrite andb_true_iff in H. destruct H as (Hfirst & Hlast).
      apply String.eqb_eq in Hfirst, Hlast.
      apply charAt_first in Hfirst as [rest ->].
      destruct rest as [|x rest]; [done|].
      destruct (string_snoc (String x rest)) as (body & c & Hb); [done|].
      rewrite Hb in Hlast |- *.
      change (String "[" (body +:+ String c EmptyString))
        with (String "[" body +:+ String c EmptyString) in Hlast.
      rewrite charAt_last in Hlast. injection Hlast as ->. by exists body.
  - intros [[body ->]|[body ->]].
    + apply orb_true_iff. left.
      change ("{" +:+ body +:+ "}") with (String "{" body +:+ String "}" EmptyString).
      rewrite charAt_last. unfold str_length. rewrite length_append. simpl.
      destruct (Z.ltb_spec 1 (Z.of_nat (S (String.length body + 1)))); [done | lia].
    + apply orb_true_iff. right.
      change ("[" +:+ body +:+ "]") with (String "[" body +:+ String "]" EmptyString).
      by rewrite charAt_last.
Qed.

(** ** Characters and texts *)

Lemma append_nil_r s : s +:+ EmptyString = s.
Proof. induction s as [|c s IH]; [done|]. rewrite append_cons. by f_equal. Qed.

Lemma all_chars_append p a b :
  all_chars p (a +:+ b) = all_chars p a && all_chars p b.
Proof.
  induction a as [|c a IH]; [done|]. rewrite append_cons. simpl.
  by rewrite IH, andb_assoc.
Qed.

Lemma all_chars_impl (p q : ascii → bool) s :
  (∀ c, p c = true → q c = true) → all_chars p s = true → all_chars q s = true.
Proof.
  intros Hpq. induction s as [|c s IH]; [done|]. simpl.
  intros [Hc Hs]%andb_true_iff. rewrite (Hpq c Hc), IH; done.
Qed.

Lemma count_char_append x a b :
  count_char x (a +:+ b) = (count_char x a + count_char x b)%nat.
Proof.
  induction a as [|c a IH]; [done|]. rewrite append_cons. simpl. rewrite IH. lia.
Qed.

Lemma count_char_none x s : all_chars (not_char x) s = true → count_char x s = 0%nat.
Proof.
  induction s as [|c s IH]; [done|]. simpl. unfold not_char at 1.
  intros [Hc Hs]%andb_true_iff. apply negb_true_iff in Hc. rewrite Hc, IH; done.
Qed.

Lemma append_inj_length a1 a2 b1 b2 :
  String.length b1 = String.length b2 →
  a1 +:+ b1 = a2 +:+ b2 → a1 = a2 ∧ b1 = b2.
Proof.
  intros Hlen. revert a2. induction a1 as [|c a1 IH]; intros [|c' a2] Heq.
  - done.
  - exfalso. change (EmptyString +:+ b1) with b1 in Heq. subst b1.
    rewrite append_cons in Hlen. simpl in Hlen. rewrite length_append in Hlen. lia.
  - exfalso. change (EmptyString +:+ b2) with b2 in Heq. subst b2.
    rewrite append_cons in Hlen. simpl in Hlen. rewrite length_append in Hlen. lia.
  - rewrite !append_cons in Heq. injection Heq as -> Heq.
    destruct (IH _ Heq) as [-> ->]. done.
Qed.

Lemma rev_string_acc s acc : rev_string s acc = rev_string s EmptyString +:+ acc.
Proof.
  revert acc. induction s as [|c s IH]; intros acc; [done|].
  cbn [rev_string]. rewrite (IH (String c acc)), (IH (String c EmptyString)).
  by rewrite append_assoc.
Qed.

Lemma rev_string_involutive s acc acc' :
  rev_string (rev_string s acc) acc' = rev_string acc (s +:+ acc').
Proof.
  revert acc acc'. induction s as [|c s IH]; intros acc acc'; [done|].
  cbn [rev_string]. rewrite IH. reflexivity.
Qed.

Lemma rev_string_twice s : rev_string (rev_string s EmptyString) EmptyString = s.
Proof. rewrite rev_string_involutive. simpl. apply append_nil_r. Qed.

Lemma rev_string_append a b acc :
  rev_string (a +:+ b) acc = rev_string b (rev_string a acc).
Proof.
  revert acc. induction a as [|c a IH]; intros acc; [done|].
  rewrite append_cons. cbn [rev_string]. apply IH.
Qed.

Lemma all_chars_rev_string p s acc :
  all_chars p (rev_string s acc) = all_chars p s && all_chars p acc.
Proof.
  revert acc. induction s as [|c s IH]; intros acc; [done|].
  cbn [rev_string]. rewrite IH. simpl.
  destruct (p c), (all_chars p s), (all_chars p acc); done.
Qed.

(** ** trim and split *)

Lemma trim_start_clean s : starts_clean (trim_start s) = true.
Proof.
  induction s as [|c s IH]; [done|]. simpl.
  destruct (is_space c) eqn:Hc; [done|]. simpl. by rewrite Hc.
Qed.

Lemma trim_start_fixed s : starts_clean s = true → trim_start s = s.
Proof. destruct s as [|c s]; [done|]. simpl. by destruct (is_space c). Qed.

Lemma trim_start_suffix s : ∃ sp, s = sp +:+ trim_start s.
Proof.
  induction s as [|c s [sp IH]]; [by exists EmptyString|]. simpl.
  destruct (is_space c).
  - exists (String c sp). rewrite append_cons. by f_equal.
  - by exists EmptyString.
Qed.

Lemma starts_clean_prefix a b :
  starts_clean (a +:+ b) = true → a ≠ EmptyString → starts_clean a = true.
Proof. destruct a as [|c a]; [done|]. by rewrite append_cons. Qed.

(** What [trim] returns neither begins nor ends with white space. *)
Lemma trim_clean s :
  starts_clean (trim s) = true
  ∧ starts_clean (rev_string (trim s) EmptyString) = true.
Proof.
  unfold trim. set (u := trim_start s).
  set (w := trim_start (rev_string u EmptyString)). split.
  - destruct (trim_start_suffix (rev_string u EmptyString)) as [sp Hsp].
    fold w in Hsp.
    assert (u = rev_string w EmptyString +:+ rev_string sp EmptyString) as Hu.
    { rewrite <- (rev_string_twice u), Hsp, rev_string_append.
      by rewrite (rev_string_acc w). }
    destruct (rev_string w EmptyString) as [|c r] eqn:Hw; [done|].
    apply (starts_clean_prefix _ (rev_string sp EmptyString)); [|done].
    rewrite <- Hu. apply trim_start_clean.
  - rewrite rev_string_twice. apply trim_start_clean.
Qed.

Lemma trim_idempotent s : trim (trim s) = trim s.
Proof.
  destruct (trim_clean s) as [H1 H2].
  unfold trim at 1. rewrite (trim_start_fixed _ H1), (trim_start_fixed _ H2).
  apply rev_string_twice.
Qed.

Lemma all_chars_starts_clean s : all_chars not_space s = true → starts_clean s = true.
Proof. destruct s as [|c s]; [done|]. simpl. by intros [? _]%andb_true_iff. Qed.

(** A text without white space is its own trimming. *)
Lemma trim_id s : all_chars not_space s = true → trim s = s.
Proof.
  intros H. unfold trim.
  rewrite (trim_start_fixed s) by by apply all_chars_starts_clean.
  rewrite trim_start_fixed.
  - apply rev_string_twice.
  - apply all_chars_starts_clean. by rewrite all_chars_rev_string, H.
Qed.

Lemma all_chars_trim_start p s :
  all_chars p s = true → all_chars p (trim_start s) = true.
Proof.
  induction s as [|c s IH]; [done|]. simpl. intros [Hc Hs]%andb_true_iff.
  destruct (is_space c); [by apply IH|]. simpl. by rewrite Hc, Hs.
Qed.

Lemma all_chars_trim p s : all_chars p s = true → all_chars p (trim s) = true.
Proof.
  intros H. unfold trim. rewrite all_chars_rev_string, andb_true_r.
  apply all_chars_trim_start. rewrite all_chars_rev_string, andb_true_r.
  by apply all_chars_trim_start.
Qed.

Lemma split_go_no_sep sep s cur :
  all_chars (not_char sep) s = true →
  split_go sep s cur = [rev_string cur EmptyString +:+ s].
Proof.
  revert cur. induction s as [|c s IH]; intros cur H.
  - simpl. by rewrite append_nil_r.
  - simpl in H. apply andb_true_iff in H as [Hc Hs].
    cbn [split_go]. apply negb_true_iff in Hc. rewrite Hc.
    rewrite IH by done. cbn [rev_string].
    rewrite (rev_string_acc cur (String c EmptyString)), append_assoc. done.
Qed.

(** The first piece of a text ends at its first separator. *)
Lemma split_go_line sep a rest cur :
  all_chars (not_char sep) a = true →
  split_go sep (a +:+ String sep rest) cur
  = (rev_string cur EmptyString +:+ a) :: split_go sep rest EmptyString.
Proof.
  revert cur. induction a as [|c a IH]; intros cur H.
  - change (EmptyString +:+ String sep rest) with (String sep rest).
    cbn [split_go]. rewrite Ascii.eqb_refl. by rewrite append_nil_r.
  - simpl in H. apply andb_true_iff in H as [Hc Ha].
    rewrite append_cons. cbn [split_go].
    unfold not_char in Hc. apply negb_true_iff in Hc. rewrite Hc.
    rewrite IH by done. cbn [rev_string].
    rewrite (rev_string_acc cur (String c EmptyString)), append_assoc. done.
Qed.

Lemma all_chars_split_go sep s cur :
  all_chars (not_char sep) cur = true →
  Forall (λ piece, all_chars (not_char sep) piece = true) (split_go sep s cur).
Proof.
  revert cur. induction s as [|c s IH]; intros cur Hcur; cbn [split_go].
  - constructor; [|constructor]. by rewrite all_chars_rev_string, Hcur.
  - destruct (Ascii.eqb c sep) eqn:Hc.
    + constructor; [by rewrite all_chars_rev_string, Hcur | by apply IH].
    + apply IH. simpl. unfold not_char at 1. by rewrite Hc, Hcur.
Qed.

Lemma length_split_go sep s cur :
  length (split_go sep s cur) = S (count_char sep s).
Proof.
  revert cur. induction s as [|c s IH]; intros cur; cbn [split_go count_char]; [done|].
  destruct (Ascii.eqb c sep); cbn [length]; rewrite IH; lia.
Qed.

(** ** Rows and buckets *)

Lemma foldM_app {A B} (f : A → B → result A) a l1 l2 :
  foldM f a (l1 ++ l2) = (a' ← foldM f a l1; foldM f a' l2).
Proof.
  revert a. induction l1 as [|b l1 IH]; intros a; simpl; [done|].
  destruct (f a b); simpl; [apply IH | done].
Qed.

Lemma bind_Ok {A B} (a : A) (k : A → result B) : (Ok a ≫= k) = k a.
Proof. reflexivity. Qed.

Lemma bind_Raise {A B} e (k : A → result B) : (Raise e ≫= k) = Raise e.
Proof. reflexivity. Qed.

Lemma foldM_cons {A B} (f : A → B → result A) a b l :
  foldM f a (b :: l) = f a b ≫= λ a', foldM f a' l.
Proof. reflexivity. Qed.

Lemma sum_sizes_insert {A} (f : A → nat) (m : gmap string A) k v :
  (sum_sizes f (<[k := v]> m) + from_option f 0 (m !! k) = sum_sizes f m + f v)%nat.
Proof.
  unfold sum_sizes. destruct (m !! k) as [x|] eqn:Hk; simpl.
  - rewrite <- (insert_delete_eq m), map_to_list_insert by apply lookup_delete_eq.
    rewrite <- (map_to_list_delete m k x Hk). simpl. lia.
  - rewrite map_to_list_insert by done. simpl. lia.
Qed.

Lemma sum_sizes_empty {A} (f : A → nat) : sum_sizes f (∅ : gmap string A) = 0%nat.
Proof. unfold sum_sizes. by rewrite map_to_list_empty. Qed.

Lemma bucket_push_row tables n d row n' d' :
  bucket (push_row tables n d row) n' d'
  = bucket tables n' d' ++ (if decide (n' = n ∧ d' = d) then [row] else []).
Proof.
  unfold push_row, bucket at 1.
  destruct (decide (n' = n)) as [->|Hn].
  - rewrite lookup_insert_eq. simpl.
    destruct (decide (d' = d)) as [->|Hd].
    + rewrite lookup_insert_eq. simpl. rewrite decide_True by done. done.
    + rewrite lookup_insert_ne by done. rewrite decide_False by tauto.
      rewrite app_nil_r. unfold bucket. by destruct (tables !! n).
  - rewrite lookup_insert_ne by done. rewrite decide_False by tauto.
    by rewrite app_nil_r.
Qed.

Lemma total_rows_push_row tables n d row :
  total_rows (push_row tables n d row) = S (total_rows tables).
Proof.
  unfold total_rows, push_row.
  pose proof (sum_sizes_insert (sum_sizes length) tables n
    (<[d := bucket tables n d ++ [row]]> (default ∅ (tables !! n)))) as Ho.
  pose proof (sum_sizes_insert length (default ∅ (tables !! n)) d
    (bucket tables n d ++ [row])) as Hi.
  rewrite length_app in Hi. simpl in Hi.
  unfold bucket in *. destruct (tables !! n) as [parts|]; simpl in *.
  - destruct (parts !! d); simpl in *; lia.
  - rewrite lookup_empty in Hi. rewrite sum_sizes_empty in Hi. simpl in Hi. lia.
Qed.

Lemma buckets_nonempty_push_row tables n d row :
  buckets_nonempty tables → buckets_nonempty (push_row tables n d row).
Proof.
  intros Hne n' parts d' rows Hn Hd. unfold push_row in Hn.
  destruct (decide (n' = n)) as [->|Hnn].
  - rewrite lookup_insert_eq in Hn. simplify_eq.
    destruct (decide (d' = d)) as [->|Hdd].
    + rewrite lookup_insert_eq in Hd. simplify_eq. by destruct (bucket tables n d).
    + rewrite lookup_insert_ne in Hd by done.
      destruct (tables !! n) as [parts|] eqn:Hp; simpl in Hd; [by eapply Hne|].
      by rewrite lookup_empty in Hd.
  - rewrite lookup_insert_ne in Hn by done. by eapply Hne.
Qed.

Section PartitionerFacts.
Variable JSON_parse : string → option value.

Lemma set_column_eq row k v :
  set_column JSON_parse row (k, v)
  = match normalize JSON_parse v with
    | Ok v' => Ok (if String.eqb k "__proto__" then row else <[k := v']> row)
    | Raise e => Raise e
    end.
Proof. unfold set_column. simpl. by destruct (normalize JSON_parse v). Qed.

(** The loop over the columns: every column is normalized, and stored
    under its key unless the key is [__proto__]; the other keys keep what
    the row started with. *)
Lemma set_columns_ok (l : list (string * value)) row0 row :
  NoDup l.*1 →
  foldM (set_column JSON_parse) row0 l = Ok row →
  (∀ k v, (k, v) ∈ l →
     ∃ v', normalize JSON_parse v = Ok v' ∧ (k ≠ "__proto__" → row !! k = Some v'))
  ∧ (∀ k, k ∉ l.*1 ∨ k = "__proto__" → row !! k = row0 !! k).
Proof.
  revert row0. induction l as [|[k0 v0] l IH]; intros row0 Hnd Hf.
  - simpl in Hf. simplify_eq. split; [|done].
    intros k v Hin. inversion Hin.
  - rewrite fmap_cons in Hnd. apply NoDup_cons in Hnd as [Hk0 Hnd].
    rewrite foldM_cons, set_column_eq in Hf.
    destruct (normalize JSON_parse v0) as [v0'|e] eqn:Hn; [|done].
    rewrite bind_Ok in Hf.
    destruct (IH _ Hnd Hf) as [IH1 IH2]. split.
    + intros k v Hin. apply elem_of_cons in Hin as [[= -> ->]|Hin].
      * exists v0'. split; [done|]. intros Hne. rewrite IH2 by (by left).
        apply String.eqb_neq in Hne. rewrite Hne. apply lookup_insert_eq.
      * by apply IH1.
    + intros k Hk. rewrite IH2.
      * destruct (String.eqb_spec k0 "__proto__") as [->|Hp]; [done|].
        apply lookup_insert_ne. intros ->.
        destruct Hk as [Hk| ->]; [|done]. apply Hk. rewrite fmap_cons. by left.
      * destruct Hk as [Hk|Hk]; [left|by right]. rewrite fmap_cons in Hk.
        by apply not_elem_of_cons in Hk as [_ Hk].
Qed.

Lemma set_columns_total (l : list (string * value)) row0 :
  (∀ k v, (k, v) ∈ l → ∃ v', normalize JSON_parse v = Ok v') →
  ∃ row, foldM (set_column JSON_parse) row0 l = Ok row.
Proof.
  revert row0. induction l as [|[k0 v0] l IH]; intros row0 Hall.
  - by eexists.
  - destruct (Hall k0 v0) as [v' Hv']; [by left|].
    rewrite foldM_cons, set_column_eq, Hv', bind_Ok.
    apply IH. intros k v Hin. apply (Hall k v). by right.
Qed.

Lemma set_columns_raise (l : list (string * value)) row0 e :
  foldM (set_column JSON_parse) row0 l = Raise e →
  ∃ k v, (k, v) ∈ l ∧ normalize JSON_parse v = Raise e.
Proof.
  revert row0. induction l as [|[k0 v0] l IH]; intros row0 Hf; [done|].
  rewrite foldM_cons, set_column_eq in Hf.
  destruct (normalize JSON_parse v0) as [v0'|e'] eqn:Hn.
  - rewrite bind_Ok in Hf.
    destruct (IH _ Hf) as (k & v & Hin & Hr). exists k, v. split; [by right|done].
  - rewrite bind_Raise in Hf. simplify_eq. exists k0, v0. split; [by left|done].
Qed.

Lemma make_row_ok r row :
  make_row JSON_parse r = Ok row →
  (∀ k v, columns r !! k = Some v →
     ∃ v', normalize JSON_parse v = Ok v' ∧ (k ≠ "__proto__" → row !! k = Some v'))
  ∧ (∀ k, columns r !! k = None → row !! k = reserved r !! k).
Proof.
  intros Hf. apply set_columns_ok in Hf as [H1 H2]; [|apply NoDup_fst_map_to_list].
  split.
  - intros k v Hk. apply H1. by apply elem_of_map_to_list.
  - intros k Hk. apply H2. left. intros Hin.
    apply list_elem_of_fmap in Hin as ([k' v] & -> & Hin).
    apply elem_of_map_to_list in Hin. simpl in Hk. congruence.
Qed.

(** The row has no property [__proto__] of its own, whatever the columns
    are. *)
Lemma make_row_proto r row :
  make_row JSON_parse r = Ok row → row !! "__proto__" = None.
Proof.
  intros Hf. apply set_columns_ok in Hf as [_ H2]; [|apply NoDup_fst_map_to_list].
  rewrite H2 by (by right). unfold reserved, reserved_keys.
  by rewrite !lookup_insert_ne, lookup_empty.
Qed.

Lemma make_row_total r :
  (∀ k v, columns r !! k = Some v → ∃ v', normalize JSON_parse v = Ok v') →
  ∃ row, make_row JSON_parse r = Ok row.
Proof.
  intros Hall. apply set_columns_total. intros k v Hin.
  apply (Hall k). by apply elem_of_map_to_list.
Qed.

Lemma make_row_raise r e :
  make_row JSON_parse r = Raise e →
  ∃ k v, columns r !! k = Some v ∧ normalize JSON_parse v = Raise e.
Proof.
  intros Hf. apply set_columns_raise in Hf as (k & v & Hin & Hr).
  exists k, v. split; [by apply elem_of_map_to_list | done].
Qed.

Lemma add_record_eq tables r :
  add_record JSON_parse tables r
  = match make_row JSON_parse r with
    | Ok row => Ok (push_row tables (name r) (getDay (unixTime r)) row)
    | Raise e => Raise e
    end.
Proof.
  unfold add_record, push_row, bucket.
  destruct (make_row JSON_parse r) as [row|e]; [|done]. rewrite bind_Ok. do 2 f_equal.
  destruct (tables !! name r) as [parts|]; simpl.
  - destruct (parts !! getDay (unixTime r)) as [rows|] eqn:Hd.
    + by rewrite Hd.
    + rewrite lookup_insert_eq. simpl. apply insert_insert_eq.
  - rewrite lookup_empty, lookup_insert_eq. simpl. apply insert_insert_eq.
Qed.

Lemma parseResult_from_ok tables data tables' :
  parseResult_from JSON_parse tables data = Ok tables' →
  (∀ n d, ∃ rows,
      bucket tables' n d = bucket tables n d ++ rows
      ∧ Forall2 (λ r row, make_row JSON_parse r = Ok row) (filter (in_bucket n d) data) rows)
  ∧ total_rows tables' = (total_rows tables + length data)%nat
  ∧ (buckets_nonempty tables → buckets_nonempty tables').
Proof.
  revert tables. induction data as [|r data IH]; intros tables Hf.
  - unfold parseResult_from in Hf. simpl in Hf. simplify_eq.
    split; [|split; [simpl; lia | done]].
    intros n d. exists []. by rewrite app_nil_r.
  - unfold parseResult_from in Hf. rewrite foldM_cons, add_record_eq in Hf.
    destruct (make_row JSON_parse r) as [row|e] eqn:Hrow; [|done]. rewrite bind_Ok in Hf.
    destruct (IH _ Hf) as (IH1 & IH2 & IH3). split; [|split].
    + intros n d. destruct (IH1 n d) as (rows & Hb & Hrows).
      rewrite bucket_push_row in Hb. rewrite filter_cons. unfold in_bucket at 1 3.
      destruct (decide (n = name r ∧ d = getDay (unixTime r))) as [[-> ->]|Hno].
      * rewrite decide_True by done. exists (row :: rows).
        split; [by rewrite Hb, <- app_assoc | by constructor].
      * rewrite decide_False by (intros [??]; by apply Hno).
        exists rows. by rewrite app_nil_r in Hb.
    + rewrite IH2, total_rows_push_row. simpl. lia.
    + intros Hne. by apply IH3, buckets_nonempty_push_row.
Qed.

Lemma parseResult_from_total tables data :
  Forall (λ r, ∃ row, make_row JSON_parse r = Ok row) data →
  ∃ tables', parseResult_from JSON_parse tables data = Ok tables'.
Proof.
  revert tables. induction data as [|r data IH]; intros tables Hall.
  - by eexists.
  - apply Forall_cons in Hall as [[row Hrow] Hall].
    unfold parseResult_from. rewrite foldM_cons, add_record_eq, Hrow, bind_Ok.
    apply IH, Hall.
Qed.

Lemma parseResult_from_rows tables data tables' :
  parseResult_from JSON_parse tables data = Ok tables' →
  Forall (λ r, ∃ row, make_row JSON_parse r = Ok row) data.
Proof.
  revert tables. induction data as [|r data IH]; intros tables Hf; [done|].
  unfold parseResult_from in Hf. rewrite foldM_cons, add_record_eq in Hf.
  destruct (make_row JSON_parse r) as [row|e] eqn:Hrow; [|done]. rewrite bind_Ok in Hf.
  constructor; [by eexists | by eapply IH].
Qed.
End PartitionerFacts.

(** ** The field normalizer, the rows and the partition *)

Section PartitionerTheorems.
Variable JSON_parse : string → option value.

Lemma column_ok_spec v : column_ok JSON_parse v = true ↔ ∃ v', normalize JSON_parse v = Ok v'.
Proof.
  unfold column_ok, normalize.
  destruct v as [| |b|z| |s|l|m]; try (split; [done | by intros [? ?]]).
  destruct (json_shaped s); [|split; [by eexists | done]].
  rewrite bool_decide_eq_true.
  destruct (JSON_parse s) as [v|]; split; try done; try by eexists.
  all: by intros [? ?].
Qed.

Lemma well_formed_spec r :
  well_formed JSON_parse r = true ↔ ∀ k v, columns r !! k = Some v → column_ok JSON_parse v = true.
Proof.
  unfold well_formed. rewrite forallb_forall. split.
  - intros H k v Hk. apply (H (k, v)).
    apply list_elem_of_In. by apply elem_of_map_to_list.
  - intros H [k v] Hin. apply list_elem_of_In, elem_of_map_to_list in Hin.
    by apply (H k).
Qed.

Lemma well_formed_row r : well_formed JSON_parse r = true ↔ ∃ row, make_row JSON_parse r = Ok row.
Proof.
  rewrite well_formed_spec. split.
  - intros H. apply make_row_total. intros k v Hk.
    by apply column_ok_spec, (H k).
  - intros [row Hrow] k v Hk. apply column_ok_spec.
    destruct (make_row_ok _ _ _ Hrow) as [H1 _].
    destruct (H1 k v Hk) as (v' & Hv' & _). by eexists.
Qed.

Lemma well_formed_rows data :
  forallb (well_formed JSON_parse) data = true ↔ Forall (λ r, ∃ row, make_row JSON_parse r = Ok row) data.
Proof.
  rewrite forallb_forall, Forall_forall. split.
  - intros H r Hr. apply well_formed_row, H. by apply list_elem_of_In.
  - intros H r Hr. apply well_formed_row, H. by apply list_elem_of_In.
Qed.
End PartitionerTheorems.

(** C2, as amended: on a column value that is a string, the normalizer
    parses the string as JSON when the string itself, untrimmed, has the
    form [{..}] or [[..]], and stores it unchanged otherwise;
    ["not-json"] and ["42"] stay strings and [{"a":1}] becomes the object
    it denotes. *)
Theorem normalize_string (JSON_parse : string → option value) (s : string) :
  ((braced s ∨ bracketed s) →
     normalize JSON_parse (VStr s)
     = match JSON_parse s with
       | Some parsed => Ok parsed
       | None => Raise SyntaxError
       end)
  ∧ (¬ (braced s ∨ bracketed s) → normalize JSON_parse (VStr s) = Ok (VStr s))
  ∧ normalize JSON.parse (VStr "not-json") = Ok (VStr "not-json")
  ∧ normalize JSON.parse (VStr "42") = Ok (VStr "42")
  ∧ normalize JSON.parse (VStr ("{" +:+ quoted "a" +:+ ":1}"))
    = Ok (VObj (<["a" := VNum 1]> ∅)).
Proof.
  split; [|split; [|split; [|split]]].
  - intros H. apply json_shaped_spec in H. unfold normalize. by rewrite H.
  - intros H. unfold normalize.
    destruct (json_shaped s) eqn:Hs; [|done].
    by apply json_shaped_spec in Hs.
  - vm_compute. reflexivity.
  - vm_compute. reflexivity.
  - vm_compute. reflexivity.
Qed.

Lemma normalize_string_witness :
  normalize JSON.parse (VStr "[1, 2]") = Ok (VArr [VNum 1; VNum 2])
  ∧ normalize JSON.parse (VStr "def") = Ok (VStr "def").
Proof.
  split.
  - rewrite (proj1 (normalize_string JSON.parse "[1, 2]")).
    + vm_compute. reflexivity.
    + right. by exists "1, 2".
  - apply (proj1 (proj2 (normalize_string JSON.parse "def"))).
    intros [[body Hb]|[body Hb]]; discriminate Hb.
Defined.

(** C2 as stated fails on a string with blanks around its braces: what
    is left after trimming begins with [{] and ends with [}], JSON.parse
    reads the string as an object, and the normalizer keeps the string. *)
Lemma normalize_keeps_padded_json :
  trim " {} " = "{}"
  ∧ JSON.parse " {} " = Some (VObj ∅)
  ∧ normalize JSON.parse (VStr " {} ") = Ok (VStr " {} ").
Proof. vm_compute. auto. Qed.

(** A value that is not a string reaches [value.charAt] and throws. *)
Example normalize_non_string :
  normalize JSON.parse (VNum 42) = Raise TypeError
  ∧ normalize JSON.parse (VBool true) = Raise TypeError
  ∧ normalize JSON.parse VNull = Raise TypeError.
Proof. auto. Qed.

Lemma strict_eq_str_spec v s : strict_eq_str v s = true ↔ v = VStr s.
Proof.
  destruct v; simpl; try (split; [done | by intros [=]]).
  rewrite String.eqb_eq. split; [by intros -> | by intros [= ->]].
Qed.

Lemma reserved_lookup r k :
  reserved r !! k
  = if decide (k = "added") then Some (VBool (strict_eq_str (action r) "added"))
    else if decide (k = "unixTime") then Some (unixTime r)
    else if decide (k = "calendarTime") then Some (calendarTime r)
    else None.
Proof.
  unfold reserved, reserved_keys.
  repeat (case_decide; [subst; by simplify_map_eq | rewrite lookup_insert_ne by done]).
  apply lookup_empty.
Qed.

(** C5, as amended: the row of a record holds one entry per source
    column, the column's value passed through the normalizer; a reserved
    key that is not a column name holds the record's value
    ([calendarTime] and [unixTime] verbatim, [added] true exactly when the
    action is "added"); a reserved key that is also a column name holds the
    column's normalized value; the row has no other key.  A column named
    [__proto__] is normalized as the others and not stored: the row has no
    entry of that name.  In the earlier revision the reserved keys hold
    the record's values whatever the columns are, and the columns are
    stored as they come. *)
Theorem make_row_entries (JSON_parse : string → option value)
    (r : record) (row : gmap string value) :
  make_row JSON_parse r = Ok row →
  (∀ k v, columns r !! k = Some v →
     ∃ v', normalize JSON_parse v = Ok v' ∧ (k ≠ "__proto__" → row !! k = Some v'))
  ∧ row !! "__proto__" = None
  ∧ (columns r !! "calendarTime" = None →
     row !! "calendarTime" = Some (calendarTime r))
  ∧ (columns r !! "unixTime" = None → row !! "unixTime" = Some (unixTime r))
  ∧ (columns r !! "added" = None →
     ∃ b, row !! "added" = Some (VBool b) ∧ (b = true ↔ action r = VStr "added"))
  ∧ (∀ k, is_Some (row !! k) →
     is_Some (columns r !! k) ∨ k = "calendarTime" ∨ k = "unixTime" ∨ k = "added")
  ∧ Rev1.make_row r !! "calendarTime" = Some (calendarTime r)
  ∧ Rev1.make_row r !! "unixTime" = Some (unixTime r)
  ∧ Rev1.make_row r !! "added" = Some (VBool (strict_eq_str (action r) "added"))
  ∧ (∀ k, k ≠ "calendarTime" → k ≠ "unixTime" → k ≠ "added" →
     Rev1.make_row r !! k = columns r !! k).
Proof.
  intros Hrow. destruct (make_row_ok _ _ _ Hrow) as [Hcol Hres].
  split; [done|]. split; [by eapply make_row_proto|]. repeat split.
  - intros Hk. by rewrite Hres, reserved_lookup.
  - intros Hk. by rewrite Hres, reserved_lookup.
  - intros Hk. eexists. split; [by rewrite Hres, reserved_lookup|].
    apply strict_eq_str_spec.
  - intros k Hk. destruct (columns r !! k) eqn:Hc; [left; by eexists|right].
    rewrite Hres, reserved_lookup in Hk by done.
    repeat case_decide; auto. by destruct Hk.
  - unfold Rev1.make_row. by simplify_map_eq.
  - unfold Rev1.make_row. by simplify_map_eq.
  - unfold Rev1.make_row. by simplify_map_eq.
  - intros k H1 H2 H3. unfold Rev1.make_row. by simplify_map_eq.
Qed.

Lemma sample_row_built : make_row JSON.parse sample_record = Ok sample_row.
Proof. vm_cast_no_check (eq_refl (Ok sample_row)). Qed.

Lemma make_row_entries_witness :
  (∃ v', normalize JSON.parse (VStr ("{" +:+ quoted "a" +:+ ":1}")) = Ok v'
         ∧ sample_row !! "labels" = Some v')
  ∧ sample_row !! "calendarTime" = Some (calendarTime sample_record)
  ∧ sample_row !! "unixTime" = Some (unixTime sample_record).
Proof.
  destruct (make_row_entries JSON.parse sample_record sample_row sample_row_built)
    as (Hcol & _ & Hct & Hut & _).
  split; [|split].
  - destruct (Hcol "labels" (VStr ("{" +:+ quoted "a" +:+ ":1}"))) as (v' & Hv' & Hk).
    { vm_compute. reflexivity. }
    exists v'. split; [exact Hv' | by apply Hk].
  - apply Hct. vm_compute. reflexivity.
  - apply Hut. vm_compute. reflexivity.
Defined.

(** C5 as stated fails when a column is named as a reserved key: the
    column's value, written after the reserved one, is what the row
    holds. *)
Lemma make_row_column_overrides :
  match make_row JSON.parse clashing_record with
  | Ok row =>
      calendarTime clashing_record = VStr "Sat May  8 00:44:15 2021 UTC"
      ∧ row !! "calendarTime" = Some (VStr "yesterday")
      ∧ action clashing_record = VStr "removed"
      ∧ row !! "added" = Some (VStr "yes")
  | Raise _ => False
  end.
Proof. vm_compute. auto. Qed.

Lemma read_digits_no_digit c s acc : is_digit c = false → read_digits (String c s) acc = None.
Proof. intros Hc. simpl. by rewrite Hc. Qed.

(** A text without digits that is not blank reads as no number. *)
Lemma string_to_number_no_digit s :
  all_chars no_digit s = true → trim s ≠ EmptyString → string_to_number s = NaN.
Proof.
  intros Hs Ht. apply (all_chars_trim no_digit) in Hs.
  unfold string_to_number. destruct (trim s) as [|c r]; [done|].
  simpl in Hs. apply andb_true_iff in Hs as [Hc Hr].
  unfold no_digit in Hc. apply negb_true_iff in Hc.
  assert (Hd : read_digits (String c r) 0 = None) by by apply read_digits_no_digit.
  assert (Hr' : ∀ c' r', r = String c' r' → read_digits (String c' r') 0 = None).
  { intros c' r' ->. simpl in Hr. apply andb_true_iff in Hr as [Hc' _].
    unfold no_digit in Hc'. apply negb_true_iff in Hc'.
    by apply read_digits_no_digit. }
  destruct c as [[] [] [] [] [] [] [] []]; try (by rewrite Hd);
    destruct r as [|c' r']; try (by rewrite Hd); by rewrite (Hr' c' r' eq_refl).
Qed.

Lemma getDay_no_timestamp v : no_timestamp v = true → getDay v = "NaNNaNNaN".
Proof.
  destruct v as [| |b|z| |s|l|m]; try done. simpl.
  intros [Hs Ht]%andb_true_iff. apply negb_true_iff, String.eqb_neq in Ht.
  unfold getDay, to_number. by rewrite (string_to_number_no_digit s Hs Ht).
Qed.

Lemma Forall2_row_of_member {A B} (R : A → B → Prop) l k x :
  Forall2 R l k → x ∈ l → ∃ y, y ∈ k ∧ R x y.
Proof.
  induction 1 as [|a b l k Hab _ IH]; intros Hx; [inversion Hx|].
  apply elem_of_cons in Hx as [->|Hx].
  - exists b. split; [by left | done].
  - destruct (IH Hx) as (y & Hy & HR). exists y. split; [by right | done].
Qed.

(** X24: for a batch of records with names of their own and plain
    timestamps, every dataset that [parseResult] returns holds in bucket
    [(n, d)], in input order, exactly the rows of the records named [n]
    whose [getDay(unixTime)] is [d]; so each record's row is in the bucket
    of its own name and day, the rows of all buckets are as many as the
    records, and no bucket of the dataset is empty.  A dataset is returned
    exactly when every column value is a string that parses whenever it
    has the shape of JSON. *)
Theorem parseResult_partition (JSON_parse : string → option value)
    (data : list record) :
  forallb ordinary_record data = true →
  (forallb (well_formed JSON_parse) data = true
   ↔ ∃ tables, parseResult JSON_parse data = Ok tables)
  ∧ ∀ tables, parseResult JSON_parse data = Ok tables →
      (∀ n d, Forall2 (λ r row, make_row JSON_parse r = Ok row)
                (filter (in_bucket n d) data) (bucket tables n d))
      ∧ (∀ r, r ∈ data →
           ∃ row, make_row JSON_parse r = Ok row
                  ∧ row ∈ bucket tables (name r) (getDay (unixTime r)))
      ∧ total_rows tables = length data
      ∧ buckets_nonempty tables.
Proof.
  intros _. split.
  { rewrite well_formed_rows. split.
    - apply parseResult_from_total.
    - intros [tables Ht]. by eapply parseResult_from_rows. }
  intros tables Ht.
  destruct (parseResult_from_ok _ _ _ _ Ht) as (Hb & Hn & Hne).
  assert (Hbuckets : ∀ n d,
    Forall2 (λ r row, make_row JSON_parse r = Ok row)
      (filter (in_bucket n d) data) (bucket tables n d)).
  { intros n d. destruct (Hb n d) as (rows & -> & Hrows).
    unfold bucket at 1. by rewrite lookup_empty. }
  split; [done|]. split; [|split].
  - intros r Hr.
    destruct (Forall2_row_of_member _ _ _ r
                (Hbuckets (name r) (getDay (unixTime r)))) as (row & Hin & Hrow).
    + apply list_elem_of_filter. by split.
    + by exists row.
  - rewrite Hn. unfold total_rows. by rewrite sum_sizes_empty.
  - apply Hne. intros n parts d rows Hn'. by rewrite lookup_empty in Hn'.
Qed.

Lemma parseResult_partition_witness :
  ∃ tables,
    parseResult JSON.parse [sample_record; undated_record; sample_record] = Ok tables
    ∧ (∀ n d, Forall2 (λ r row, make_row JSON.parse r = Ok row)
                (filter (in_bucket n d) [sample_record; undated_record; sample_record])
                (bucket tables n d))
    ∧ (∀ r, r ∈ [sample_record; undated_record; sample_record] →
         ∃ row, make_row JSON.parse r = Ok row
                ∧ row ∈ bucket tables (name r) (getDay (unixTime r)))
    ∧ total_rows tables = 3%nat
    ∧ buckets_nonempty tables.
Proof.
  destruct (proj1 (proj1 (parseResult_partition JSON.parse
              [sample_record; undated_record; sample_record] eq_refl)))
    as [tables Ht]; [vm_compute; reflexivity|].
  exists tables. split; [exact Ht|].
  exact (proj2 (parseResult_partition JSON.parse
           [sample_record; undated_record; sample_record] eq_refl) tables Ht).
Defined.

(** C3, as amended: on a batch of records with names of their own and
    plain timestamps, [parseResult] returns a dataset exactly when every
    column of every record is normalized without an exception; one column
    that looks like JSON and does not parse, in any record, makes the whole
    call throw, and no record of the batch is placed.  A timestamp that is
    absent, or a text without digits, does not throw: the record is placed
    in the bucket of its table with day key "NaNNaNNaN", next to the other
    records in their buckets. *)
Theorem parseResult_malformed (JSON_parse : string → option value)
    (data : list record) :
  forallb ordinary_record data = true →
  (forallb (well_formed JSON_parse) data = true
   ↔ ∃ tables, parseResult JSON_parse data = Ok tables)
  ∧ (∀ r k s, r ∈ data → columns r !! k = Some (VStr s) →
       json_shaped s = true → JSON_parse s = None →
       ∃ e, parseResult JSON_parse data = Raise e)
  ∧ (∀ tables r, parseResult JSON_parse data = Ok tables → r ∈ data →
       no_timestamp (unixTime r) = true →
       ∃ row, make_row JSON_parse r = Ok row
              ∧ row ∈ bucket tables (name r) "NaNNaNNaN")
  ∧ (∀ tables n d, parseResult JSON_parse data = Ok tables →
       Forall2 (λ r row, make_row JSON_parse r = Ok row)
         (filter (in_bucket n d) data) (bucket tables n d)).
Proof.
  intros _.
  assert (Hbuckets : ∀ tables n d, parseResult JSON_parse data = Ok tables →
    Forall2 (λ r row, make_row JSON_parse r = Ok row)
      (filter (in_bucket n d) data) (bucket tables n d)).
  { intros tables n d Ht.
    destruct (parseResult_from_ok _ _ _ _ Ht) as (Hb & _).
    destruct (Hb n d) as (rows & -> & Hrows).
    unfold bucket at 1. by rewrite lookup_empty. }
  split; [|split; [|split]].
  - rewrite well_formed_rows. split.
    + apply parseResult_from_total.
    + intros [tables Ht]. by eapply parseResult_from_rows.
  - intros r k s Hr Hk Hs Hp.
    destruct (parseResult JSON_parse data) as [tables|e] eqn:Ht; [|by eexists].
    exfalso. apply parseResult_from_rows in Ht.
    rewrite Forall_forall in Ht. destruct (Ht r Hr) as [row Hrow].
    destruct (make_row_ok _ _ _ Hrow) as [Hcol _].
    destruct (Hcol k _ Hk) as (v' & Hv' & _).
    unfold normalize in Hv'. by rewrite Hs, Hp in Hv'.
  - intros tables r Ht Hr Hnan.
    destruct (Forall2_row_of_member _ _ _ r
                (Hbuckets tables (name r) (getDay (unixTime r)) Ht))
      as (row & Hin & Hrow).
    + apply list_elem_of_filter. by split.
    + exists row. by rewrite <- (getDay_no_timestamp _ Hnan).
  - done.
Qed.

Lemma parseResult_malformed_witness :
  ∃ e, parseResult JSON.parse [sample_record; broken_record] = Raise e.
Proof.
  apply (proj1 (proj2 (parseResult_malformed JSON.parse
                         [sample_record; broken_record] eq_refl))
           broken_record "labels" "{x}").
  - by right; left.
  - vm_compute. reflexivity.
  - vm_compute. reflexivity.
  - vm_compute. reflexivity.
Defined.

(** C3 as stated fails on a batch whose second record has a column that
    looks like JSON and does not parse: the first record alone is
    partitioned, the two together are not, the call throws. *)
Lemma parseResult_aborts_batch :
  parseResult JSON.parse [sample_record]
  = Ok (<["kubernetes_events" := <["20210508" := [sample_row]]> ∅]> ∅)
  ∧ json_shaped "{x}" = true
  ∧ JSON.parse "{x}" = None
  ∧ parseResult JSON.parse [sample_record; broken_record] = Raise SyntaxError.
Proof.
  split; [|vm_compute; auto].
  vm_cast_no_check
    (eq_refl (A := result tables_t)
       (Ok (<["kubernetes_events" := <["20210508" := [sample_row]]> ∅]> ∅))).
Qed.

(** C9: a column value that is not a string, in any record of the
    batch, makes [parseResult] throw: the test of the normalizer reaches
    [value.charAt] on it, the conjunction binding tighter than the
    disjunction.  No dataset is returned, and the rows of the batch are in
    no bucket. *)
Theorem parseResult_non_string_column (JSON_parse : string → option value)
    (data : list record) (r : record) (k : string) (v : value) :
  r ∈ data → columns r !! k = Some v → is_string v = false →
  ∃ e, parseResult JSON_parse data = Raise e.
Proof.
  intros Hr Hk Hv.
  destruct (parseResult JSON_parse data) as [tables|e] eqn:Ht; [|by eexists].
  exfalso. apply parseResult_from_rows in Ht.
  rewrite Forall_forall in Ht. destruct (Ht r Hr) as [row Hrow].
  destruct (make_row_ok _ _ _ Hrow) as [Hcol _].
  destruct (Hcol k _ Hk) as (v' & Hv' & _). by destruct v.
Qed.

Lemma parseResult_non_string_column_witness :
  ∃ e, parseResult JSON.parse [sample_record; numeric_record] = Raise e.
Proof.
  apply (parseResult_non_string_column JSON.parse [sample_record; numeric_record]
           numeric_record "pid" (VNum 4242)).
  - by right; left.
  - vm_compute. reflexivity.
  - reflexivity.
Defined.

(** ** parseResult and the objects of its caller *)

Lemma loop_cons {S B} (f : S → B → S * option js_error) s b l :
  loop f s (b :: l)
  = match f s b with
    | (s', None) => loop f s' l
    | (s', Some e) => (s', Some e)
    end.
Proof. reflexivity. Qed.

Section HeapFacts.
Variable JSON_parse : string → option value.

Lemma write_lookup_ne (h : Heap.heap) l l' k v :
  l ≠ l' → Heap.write h l k v !! l' = h !! l'.
Proof. intros Hne. unfold Heap.write. by apply lookup_alter_ne. Qed.

Lemma write_dom (h : Heap.heap) l k v : dom (Heap.write h l k v) = dom h.
Proof. unfold Heap.write. apply dom_alter_L. Qed.

Lemma heap_set_column_eq columns row (h : Heap.heap) key :
  Heap.set_column JSON_parse columns row h key
  = match normalize JSON_parse (Heap.read h columns key) with
    | Ok v => (if String.eqb key "__proto__" then h else Heap.write h row key v, None)
    | Raise e => (h, Some e)
    end.
Proof. reflexivity. Qed.

(** Storing the columns writes into [row] alone, up to the end of the
    loop or to the exception that ends it. *)
Lemma heap_set_columns_frame columns row (keys : list string) (h : Heap.heap) :
  dom (loop (Heap.set_column JSON_parse columns row) h keys).1 = dom h
  ∧ ∀ l, l ≠ row →
      (loop (Heap.set_column JSON_parse columns row) h keys).1 !! l = h !! l.
Proof.
  revert h. induction keys as [|key keys IH]; intros h; [done|].
  rewrite loop_cons, heap_set_column_eq.
  destruct (normalize JSON_parse (Heap.read h columns key)) as [v|e]; [|done].
  destruct (String.eqb key "__proto__"); [apply IH|].
  destruct (IH (Heap.write h row key v)) as [Hd Hl]. split.
  - by rewrite Hd, write_dom.
  - intros l Hne. rewrite Hl by done. by apply write_lookup_ne.
Qed.

(** A row is a new object: the objects of the store stay as they are,
    also when the columns make the call throw. *)
Lemma heap_make_row_frame (h : Heap.heap) r :
  (∀ l, l ∈ dom h → (Heap.make_row JSON_parse h r).1 !! l = h !! l)
  ∧ dom h ⊆ dom (Heap.make_row JSON_parse h r).1
  ∧ (∀ row, (Heap.make_row JSON_parse h r).2 = Ok row →
       (row ∉ dom h) ∧ dom (Heap.make_row JSON_parse h r).1 = {[row]} ∪ dom h).
Proof.
  unfold Heap.make_row. destruct (h !! Heap.columns r) as [cols|]; [|done].
  pose proof (is_fresh (dom h)) as Hfresh.
  generalize dependent (fresh (dom h)). intros row0 Hfresh.
  unfold Heap.outcome. cbn [fst snd].
  match goal with
  | |- context [loop ?f ?h0 ?keys] =>
      destruct (heap_set_columns_frame (Heap.columns r) row0 keys h0) as [Hd Hl]
  end.
  rewrite dom_insert_L in Hd. split; [|split].
  - intros l Hin. assert (l ≠ row0) as Hne by (intros ->; done).
    rewrite Hl by done. by apply lookup_insert_ne.
  - rewrite Hd. apply union_subseteq_r.
  - intros row Hrow. destruct (loop _ _ _).2; simplify_eq. done.
Qed.

Lemma heap_add_record_eq (st : Heap.heap * Heap.tables_t) r :
  Heap.add_record JSON_parse st r
  = match (Heap.make_row JSON_parse st.1 r).2 with
    | Ok row =>
        (((Heap.make_row JSON_parse st.1 r).1,
          Heap.push st.2 (Heap.name r) (getDay (Heap.unixTime r)) row), None)
    | Raise e => (((Heap.make_row JSON_parse st.1 r).1, st.2), Some e)
    end.
Proof.
  unfold Heap.add_record. by destruct (Heap.make_row JSON_parse st.1 r) as [h [row|e]].
Qed.

Lemma heap_parseResult_frame (st : Heap.heap * Heap.tables_t) data :
  dom st.1 ⊆ dom (loop (Heap.add_record JSON_parse) st data).1.1
  ∧ ∀ l, l ∈ dom st.1 →
      (loop (Heap.add_record JSON_parse) st data).1.1 !! l = st.1 !! l.
Proof.
  revert st. induction data as [|r data IH]; intros st; [done|].
  rewrite loop_cons, heap_add_record_eq.
  destruct (heap_make_row_frame st.1 r) as (Hl & Hd & _).
  destruct (Heap.make_row JSON_parse st.1 r).2 as [row|e]; [|done].
  match goal with
  | |- context [loop _ ?st1 data] => destruct (IH st1) as [IHd IHl]
  end.
  cbn [fst] in IHd, IHl. split.
  - by (etrans; [exact Hd|]).
  - intros l Hin. rewrite IHl; [by apply Hl | by apply Hd].
Qed.
End HeapFacts.

(** ** The store-level parseResult against the value-level one *)

Section Refinement.
Variable JSON_parse : string → option value.

Lemma write_lookup_eq (h : Heap.heap) l k v o :
  h !! l = Some o → Heap.write h l k v !! l = Some (<[k := v]> o).
Proof. intros Ho. unfold Heap.write. by rewrite lookup_alter_eq, Ho. Qed.

(** Storing the columns through the store computes the row that storing
    them in a value does. *)
Lemma heap_set_columns_refines c row (cols : gmap string value)
    (l : list (string * value)) (h : Heap.heap) (cur : gmap string value) :
  c ≠ row →
  (∀ k v, (k, v) ∈ l → cols !! k = Some v) →
  h !! c = Some cols →
  h !! row = Some cur →
  match (loop (Heap.set_column JSON_parse c row) h l.*1).2 with
  | None =>
      ∃ row', foldM (set_column JSON_parse) cur l = Ok row'
              ∧ (loop (Heap.set_column JSON_parse c row) h l.*1).1 !! row = Some row'
  | Some e => foldM (set_column JSON_parse) cur l = Raise e
  end.
Proof.
  intros Hne. revert h cur. induction l as [|[k v] l IH]; intros h cur Hl Hc Hrow.
  - simpl. by exists cur.
  - rewrite fmap_cons. cbn [fst].
    rewrite loop_cons, foldM_cons, heap_set_column_eq, set_column_eq.
    assert (Heap.read h c k = v) as ->.
    { unfold Heap.read. rewrite Hc. simpl. by rewrite (Hl k v) by by left. }
    destruct (normalize JSON_parse v) as [v'|e]; [|done].
    rewrite bind_Ok. destruct (String.eqb k "__proto__").
    + apply IH; [|done..]. intros k' v0 Hin. apply Hl. by right.
    + apply IH.
      * intros k' v0 Hin. apply Hl. by right.
      * by rewrite write_lookup_ne.
      * by apply write_lookup_eq.
Qed.

Lemma heap_make_row_refines (h : Heap.heap) r :
  is_Some (h !! Heap.columns r) →
  match (Heap.make_row JSON_parse h r).2 with
  | Ok row =>
      ∃ row', make_row JSON_parse (load_record h r) = Ok row'
              ∧ (Heap.make_row JSON_parse h r).1 !! row = Some row'
  | Raise e => make_row JSON_parse (load_record h r) = Raise e
  end.
Proof.
  intros [cols Hcols]. unfold Heap.make_row, make_row. rewrite Hcols.
  assert (columns (load_record h r) = cols) as ->.
  { unfold load_record. simpl. by rewrite Hcols. }
  pose proof (is_fresh (dom h)) as Hfresh.
  assert (Heap.columns r ≠ fresh (dom h)) as Hne.
  { intros He. apply Hfresh. rewrite <- He. apply elem_of_dom. by eexists. }
  pose proof (heap_set_columns_refines (Heap.columns r) (fresh (dom h)) cols
    (map_to_list cols)
    (<[fresh (dom h) := reserved_keys (Heap.calendarTime r) (Heap.unixTime r)
                          (Heap.action r)]> h)
    (reserved (load_record h r)) Hne) as Href.
  unfold Heap.outcome. cbn [fst snd].
  destruct (loop (Heap.set_column _ _ _) _ _).2 as [e|]; apply Href.
  all: try (intros k v Hin; by apply elem_of_map_to_list).
  all: try by rewrite lookup_insert_ne.
  all: by rewrite lookup_insert_eq.
Qed.

Lemma deref_tables_agree (h h' : Heap.heap) t :
  (∀ l, is_Some (h !! l) → h' !! l = h !! l) →
  locs_in t h → deref_tables h' t = deref_tables h t.
Proof.
  intros Hagree Hin. unfold deref_tables.
  apply map_fmap_ext. intros n parts Hn.
  apply map_fmap_ext. intros d rows Hd.
  apply map_ext_in. intros l Hl. rewrite Hagree; [done|].
  eapply Hin; [done..|]. by apply list_elem_of_In.
Qed.

Lemma heap_push_eq (t : Heap.tables_t) n d row :
  Heap.push t n d row
  = <[n := <[d := default [] (t !! n ≫= λ parts, parts !! d) ++ [row]]>
             (default ∅ (t !! n))]> t.
Proof.
  unfold Heap.push. f_equal.
  destruct (t !! n) as [parts|]; simpl.
  - destruct (parts !! d) as [rows|] eqn:Hd.
    + by rewrite Hd.
    + rewrite lookup_insert_eq. simpl. apply insert_insert_eq.
  - rewrite lookup_empty, lookup_insert_eq. simpl. apply insert_insert_eq.
Qed.

Lemma deref_tables_push (h : Heap.heap) t n d row rowv :
  h !! row = Some rowv →
  deref_tables h (Heap.push t n d row) = push_row (deref_tables h t) n d rowv.
Proof.
  intros Hrow. rewrite heap_push_eq. unfold deref_tables, push_row, bucket.
  rewrite !fmap_insert, map_app, !lookup_fmap. simpl. rewrite Hrow. simpl.
  destruct (t !! n) as [parts|]; simpl.
  - rewrite lookup_fmap. by destruct (parts !! d).
  - by rewrite fmap_empty.
Qed.

Lemma locs_in_push (h : Heap.heap) t n d row :
  locs_in t h → is_Some (h !! row) → locs_in (Heap.push t n d row) h.
Proof.
  intros Hin Hrow n' parts d' rows l Hn Hd Hl. rewrite heap_push_eq in Hn.
  destruct (decide (n' = n)) as [->|Hnn].
  - rewrite lookup_insert_eq in Hn. simplify_eq.
    destruct (decide (d' = d)) as [->|Hdd].
    + rewrite lookup_insert_eq in Hd. simplify_eq.
      apply elem_of_app in Hl as [Hl|Hl%list_elem_of_singleton]; [|by subst].
      destruct (t !! n) as [parts|] eqn:Hp; simpl in Hl; [|inversion Hl].
      destruct (parts !! d) as [rows|] eqn:Hr; simpl in Hl; [|inversion Hl].
      by eapply Hin.
    + rewrite lookup_insert_ne in Hd by done.
      destruct (t !! n) as [parts|] eqn:Hp; simpl in Hd; [by eapply Hin|].
      by rewrite lookup_empty in Hd.
  - rewrite lookup_insert_ne in Hn by done. by eapply Hin.
Qed.

Lemma locs_in_mono (h h' : Heap.heap) t :
  (∀ l, is_Some (h !! l) → h' !! l = h !! l) → locs_in t h → locs_in t h'.
Proof.
  intros Hagree Hin n parts d rows l Hn Hd Hl.
  rewrite Hagree; by eapply Hin.
Qed.

(** The later revision over a store computes, behind its references, the
    dataset that the value-level [parseResult] computes, and throws when
    it throws. *)
Lemma heap_parseResult_refines_from (h0 : Heap.heap)
    (st : Heap.heap * Heap.tables_t) (data : list Heap.record) :
  (∀ r, r ∈ data → is_Some (h0 !! Heap.columns r)) →
  (∀ l, is_Some (h0 !! l) → st.1 !! l = h0 !! l) →
  locs_in st.2 st.1 →
  match (loop (Heap.add_record JSON_parse) st data).2 with
  | None =>
      parseResult_from JSON_parse (deref_tables st.1 st.2) (load_record h0 <$> data)
      = Ok (deref_tables (loop (Heap.add_record JSON_parse) st data).1.1
                         (loop (Heap.add_record JSON_parse) st data).1.2)
  | Some e =>
      parseResult_from JSON_parse (deref_tables st.1 st.2) (load_record h0 <$> data)
      = Raise e
  end.
Proof.
  revert st. induction data as [|r data IH]; intros st Hcols Hext Hlocs; [done|].
  rewrite loop_cons, heap_add_record_eq, fmap_cons.
  unfold parseResult_from. rewrite foldM_cons, add_record_eq.
  assert (is_Some (h0 !! Heap.columns r)) as Hr by (apply Hcols; by left).
  assert (load_record st.1 r = load_record h0 r) as Hload.
  { unfold load_record. by rewrite Hext. }
  pose proof (heap_make_row_refines st.1 r) as Href.
  rewrite Hload in Href.
  destruct (heap_make_row_frame JSON_parse st.1 r) as (Hframe & _ & _).
  destruct (Heap.make_row JSON_parse st.1 r) as [h1 [row|e]]; cbn [fst snd] in *.
  - destruct Href as (row' & -> & Hrow'); [by rewrite Hext|].
    rewrite bind_Ok.
    assert (Hagree : ∀ l, is_Some (st.1 !! l) → h1 !! l = st.1 !! l).
    { intros l Hl. apply Hframe. by apply elem_of_dom. }
    change (name (load_record h0 r)) with (Heap.name r).
    change (unixTime (load_record h0 r)) with (Heap.unixTime r).
    rewrite <- (deref_tables_agree st.1 h1 st.2 Hagree Hlocs).
    rewrite <- (deref_tables_push h1 st.2 _ _ row row' Hrow').
    apply (IH (h1, Heap.push st.2 (Heap.name r) (getDay (Heap.unixTime r)) row)).
    + intros r' Hr'. apply Hcols. by right.
    + intros l Hl. cbn [fst]. rewrite Hagree; [by apply Hext|].
      rewrite Hext; done.
    + cbn [fst snd]. apply locs_in_push; [|by eexists].
      by eapply locs_in_mono.
  - rewrite Href; [done | by rewrite Hext].
Qed.

Lemma heap_parseResult_refines (h : Heap.heap) (data : list Heap.record) :
  (∀ r, r ∈ data → is_Some (h !! Heap.columns r)) →
  match (Heap.parseResult JSON_parse h data).2 with
  | Ok tables =>
      parseResult JSON_parse (load_record h <$> data)
      = Ok (deref_tables (Heap.parseResult JSON_parse h data).1 tables)
  | Raise e => parseResult JSON_parse (load_record h <$> data) = Raise e
  end.
Proof.
  intros Hcols.
  pose proof (heap_parseResult_refines_from h (h, ∅) data Hcols) as Href.
  unfold Heap.parseResult, Heap.outcome, parseResult.
  cbn [fst snd] in *. unfold deref_tables at 1 3 in Href.
  rewrite fmap_empty in Href.
  destruct (loop _ _ _).2 as [e|]; apply Href; try done.
  all: intros n parts d rows l Hn; by rewrite lookup_empty in Hn.
Qed.
End Refinement.

(** C8: the later revision of [parseResult] leaves every object of the
    store that it is given as it was, entry for entry, whether it returns
    or throws: no [columns] object gains, loses or changes an entry.  For
    records with names of their own and plain timestamps, what it gives
    is a function of the records' values: the dataset behind the
    references it returns is the one that the value-level [parseResult]
    computes, and it throws when that one throws.  The earlier revision,
    which takes [record.columns] as the row, writes the three reserved
    keys into it. *)
Theorem parseResult_frame (JSON_parse : string → option value)
    (h : Heap.heap) (data : list Heap.record) :
  (∀ l o, h !! l = Some o →
     (Heap.parseResult JSON_parse h data).1 !! l = Some o)
  ∧ (∀ r, r ∈ data → is_Some (h !! Heap.columns r) →
       (Heap.parseResult JSON_parse h data).1 !! Heap.columns r
       = h !! Heap.columns r)
  ∧ (forallb ordinary_ref data = true →
     (∀ r, r ∈ data → is_Some (h !! Heap.columns r)) →
     match (Heap.parseResult JSON_parse h data).2 with
     | Ok tables =>
         parseResult JSON_parse (load_record h <$> data)
         = Ok (deref_tables (Heap.parseResult JSON_parse h data).1 tables)
     | Raise e => parseResult JSON_parse (load_record h <$> data) = Raise e
     end)
  ∧ sample_store_rev1.2
    = Ok (<["kubernetes_events" := <["20210508" := [1%nat]]> ∅]> ∅)
  ∧ sample_heap !! 1%nat = Some (columns sample_record)
  ∧ sample_store_rev1.1 !! 1%nat = Some (Rev1.make_row sample_record)
  ∧ columns sample_record !! "added" = None
  ∧ Rev1.make_row sample_record !! "added" = Some (VBool true).
Proof.
  assert (Hobj : ∀ l o, h !! l = Some o →
                 (Heap.parseResult JSON_parse h data).1 !! l = Some o).
  { intros l o Ho. unfold Heap.parseResult, Heap.outcome. cbn [fst].
    destruct (heap_parseResult_frame JSON_parse (h, ∅) data) as [_ Hl].
    rewrite Hl; [done|]. apply elem_of_dom. by eexists. }
  split; [done|]. split.
  { intros r _ [o Ho]. rewrite Ho. by apply Hobj. }
  split.
  { intros _. apply heap_parseResult_refines. }
  split; [|split; [done|split; [|split]]].
  - vm_cast_no_check
      (eq_refl (A := result Heap.tables_t)
         (Ok (<["kubernetes_events" := <["20210508" := [1%nat]]> ∅]> ∅))).
  - vm_cast_no_check (eq_refl (Some (Rev1.make_row sample_record))).
  - vm_compute. reflexivity.
  - vm_compute. reflexivity.
Qed.


(** ** processRules *)

Section EvaluatorFacts.
Variable RULES : catalog_t.
Variable re_apply : value → value → result value.

Lemma rule_fires_spec rule (row : gmap string value) :
  rule_fires re_apply rule row = true
  ↔ truthy (default VUndef (row !! "added")) = true
    ∧ ∃ v, re_apply rule (VObj row) = Ok v ∧ truthy v = true.
Proof.
  unfold rule_fires. rewrite andb_true_iff.
  destruct (re_apply rule (VObj row)) as [v|e]; split.
  - intros [Ha Hv]. split; [done|]. by exists v.
  - intros [Ha (v' & [= <-] & Hv)]. done.
  - by intros [_ ?].
  - by intros [_ (v' & ? & _)].
Qed.

Lemma matches_of_row_spec tableName (tableRules : gmap string value) row m :
  m ∈ matches_of_row re_apply tableName tableRules row
  ↔ ∃ rule, m = {| match_table := tableName; match_rule := match_rule m;
                   match_row := row |}
            ∧ tableRules !! match_rule m = Some rule
            ∧ rule_fires re_apply rule row = true.
Proof.
  unfold matches_of_row. rewrite list_elem_of_In, in_flat_map. split.
  - intros ([rn rule] & Hin & Hm). simpl in Hm.
    apply list_elem_of_In, elem_of_map_to_list in Hin.
    destruct (rule_fires re_apply rule row) eqn:Hf; [|done].
    destruct Hm as [<-|[]]. simpl. by exists rule.
  - intros (rule & Hm & Hr & Hf). exists (match_rule m, rule). split.
    + by apply list_elem_of_In, elem_of_map_to_list.
    + simpl. rewrite Hf. left. by rewrite Hm.
Qed.

Lemma processRules_spec (data : tables_t) m :
  m ∈ processRules RULES re_apply data
  ↔ ∃ partitions tableRules day rows rule,
      data !! match_table m = Some partitions
      ∧ RULES !! match_table m = Some tableRules
      ∧ partitions !! day = Some rows
      ∧ match_row m ∈ rows
      ∧ tableRules !! match_rule m = Some rule
      ∧ rule_fires re_apply rule (match_row m) = true.
Proof.
  unfold processRules. rewrite list_elem_of_In, in_flat_map. split.
  - intros ([t partitions] & Hin & Hm). simpl in Hm.
    apply list_elem_of_In, elem_of_map_to_list in Hin.
    unfold matches_of_table in Hm.
    destruct (RULES !! t) as [tableRules|] eqn:Hrules; [|done].
    apply in_flat_map in Hm as ([day rows] & Hday & Hm). simpl in Hm.
    apply list_elem_of_In, elem_of_map_to_list in Hday.
    apply in_flat_map in Hm as (row & Hrow & Hm).
    apply list_elem_of_In in Hrow.
    apply list_elem_of_In, matches_of_row_spec in Hm as (rule & Hm & Hr & Hf).
    rewrite Hm. simpl. by exists partitions, tableRules, day, rows, rule.
  - intros (partitions & tableRules & day & rows & rule
            & Hd & Hrules & Hday & Hrow & Hr & Hf).
    exists (match_table m, partitions). split.
    + by apply list_elem_of_In, elem_of_map_to_list.
    + simpl. unfold matches_of_table. rewrite Hrules.
      apply in_flat_map. exists (day, rows). split.
      * by apply list_elem_of_In, elem_of_map_to_list.
      * simpl. apply in_flat_map. exists (match_row m). split.
        -- by apply list_elem_of_In.
        -- apply list_elem_of_In, matches_of_row_spec. exists rule.
           split; [by destruct m | done].
Qed.
End EvaluatorFacts.

(** C1: [processRules] emits a match for a table, a rule name and a row
    exactly when the table is a key of the dataset and of the catalog, the
    row is in one of the table's day-buckets, [row.added] is truthy (for a
    row whose [added] is a boolean: is true) and [re.apply] of the rule's
    expression to the row returns a truthy value.  A row whose [added] is
    false gets no match, and a table without rules gets none. *)
Theorem processRules_matches (RULES : catalog_t)
    (re_apply : value → value → result value) (data : tables_t) :
  (∀ tableName ruleName (row : gmap string value),
     {| match_table := tableName; match_rule := ruleName; match_row := row |}
       ∈ processRules RULES re_apply data
     ↔ ∃ partitions tableRules day rows rule,
         data !! tableName = Some partitions
         ∧ RULES !! tableName = Some tableRules
         ∧ partitions !! day = Some rows
         ∧ row ∈ rows
         ∧ tableRules !! ruleName = Some rule
         ∧ truthy (default VUndef (row !! "added")) = true
         ∧ ∃ v, re_apply rule (VObj row) = Ok v ∧ truthy v = true)
  ∧ (∀ tableName ruleName (row : gmap string value) (added : bool),
       row !! "added" = Some (VBool added) →
       {| match_table := tableName; match_rule := ruleName; match_row := row |}
         ∈ processRules RULES re_apply data
       ↔ ∃ partitions tableRules day rows rule,
           data !! tableName = Some partitions
           ∧ RULES !! tableName = Some tableRules
           ∧ partitions !! day = Some rows
           ∧ row ∈ rows
           ∧ tableRules !! ruleName = Some rule
           ∧ added = true
           ∧ ∃ v, re_apply rule (VObj row) = Ok v ∧ truthy v = true)
  ∧ (∀ m, m ∈ processRules RULES re_apply data →
       match_row m !! "added" ≠ Some (VBool false))
  ∧ (∀ m b, m ∈ processRules RULES re_apply data →
       match_row m !! "added" = Some (VBool b) → b = true)
  ∧ (∀ m, m ∈ processRules RULES re_apply data →
       is_Some (RULES !! match_table m)).
Proof.
  assert (Hiff : ∀ tableName ruleName (row : gmap string value),
    {| match_table := tableName; match_rule := ruleName; match_row := row |}
      ∈ processRules RULES re_apply data
    ↔ ∃ partitions tableRules day rows rule,
        data !! tableName = Some partitions
        ∧ RULES !! tableName = Some tableRules
        ∧ partitions !! day = Some rows
        ∧ row ∈ rows
        ∧ tableRules !! ruleName = Some rule
        ∧ truthy (default VUndef (row !! "added")) = true
        ∧ ∃ v, re_apply rule (VObj row) = Ok v ∧ truthy v = true).
  { intros tableName ruleName row. rewrite processRules_spec. simpl.
    split.
    + intros (partitions & tableRules & day & rows & rule
              & Hd & Hrules & Hday & Hrow & Hr & Hf).
      apply rule_fires_spec in Hf as [Ha Hv].
      by exists partitions, tableRules, day, rows, rule.
    + intros (partitions & tableRules & day & rows & rule
              & Hd & Hrules & Hday & Hrow & Hr & Ha & Hv).
      exists partitions, tableRules, day, rows, rule.
      repeat (split; [done|]). by apply rule_fires_spec. }
  split; [done|]. split; [|split; [|split]].
  - intros tableName ruleName row added Hadded. rewrite Hiff, Hadded. done.
  - intros m Hm Hadded.
    apply processRules_spec in Hm as (? & ? & ? & ? & rule & _ & _ & _ & _ & _ & Hf).
    apply rule_fires_spec in Hf as [Ha _]. by rewrite Hadded in Ha.
  - intros m b Hm Hadded.
    apply processRules_spec in Hm as (? & ? & ? & ? & rule & _ & _ & _ & _ & _ & Hf).
    apply rule_fires_spec in Hf as [Ha _]. by rewrite Hadded in Ha.
  - intros m Hm.
    apply processRules_spec in Hm as (? & tableRules & ? & ? & ? & _ & Hr & _).
    by exists tableRules.
Qed.

Lemma processRules_matches_witness :
  {| match_table := "kubernetes_pod_containers"; match_rule := "privileged";
     match_row := privileged_row "1" true |}
    ∈ processRules sample_rules apply_privileged sample_dataset.
Proof.
  apply (proj1 (processRules_matches sample_rules apply_privileged sample_dataset)).
  eexists _, _, "20210508", _, (VStr "rule").
  split; [reflexivity|]. split; [reflexivity|]. split; [reflexivity|].
  split; [by left|]. split; [reflexivity|]. split; [reflexivity|].
  exists (VBool true). split; reflexivity.
Defined.

(** The only match on the sample dataset is that one: the row whose
    [privileged] is "0", the row whose [added] is false, and the table
    without rules give none. *)
Example processRules_sample :
  processRules sample_rules apply_privileged sample_dataset
  = [ {| match_table := "kubernetes_pod_containers"; match_rule := "privileged";
         match_row := privileged_row "1" true |} ].
Proof.
  vm_cast_no_check
    (eq_refl [ {| match_table := "kubernetes_pod_containers";
                  match_rule := "privileged";
                  match_row := privileged_row "1" true |} ]).
Qed.

(** ** getRules *)

Lemma foldl_insert_lookup (l : list (string * value)) (m : gmap string value) k :
  NoDup l.*1 →
  foldl (λ m kv, <[kv.1 := kv.2]> m) m l !! k
  = match list_to_map (M := gmap string value) l !! k with
    | Some v => Some v
    | None => m !! k
    end.
Proof.
  revert m. induction l as [|[k0 v0] l IH]; intros m Hnd; [done|].
  rewrite fmap_cons in Hnd. apply NoDup_cons in Hnd as [Hk0 Hnd].
  simpl. rewrite IH by done.
  destruct (decide (k = k0)) as [->|Hne].
  - rewrite lookup_insert_eq.
    rewrite (not_elem_of_list_to_map_1 l k0) by done.
    by rewrite lookup_insert_eq.
  - by rewrite !lookup_insert_ne.
Qed.

Lemma union_twice (m x : gmap string value) : m ∪ (m ∪ x) = m ∪ x.
Proof.
  apply map_eq. intros k. rewrite !lookup_union.
  by destruct (m !! k), (x !! k).
Qed.

(** Copying the rules of a group: the group's rules over the table's. *)
Lemma copy_rules_union tableRules g : copy_rules tableRules g = rules g ∪ tableRules.
Proof.
  apply map_eq. intros k. unfold copy_rules.
  rewrite foldl_insert_lookup by apply NoDup_fst_map_to_list.
  rewrite list_to_map_to_list, lookup_union.
  destruct (rules g !! k), (tableRules !! k); done.
Qed.

Lemma foldl_add_table_lookup g (ts : list string) (rules0 : catalog_t) t :
  foldl (add_table g) rules0 ts !! t
  = if bool_decide (t ∈ ts)
    then Some (rules g ∪ default ∅ (rules0 !! t))
    else rules0 !! t.
Proof.
  revert rules0. induction ts as [|t0 ts IH]; intros rules0; [done|].
  simpl. rewrite IH. unfold add_table. rewrite copy_rules_union.
  destruct (decide (t = t0)) as [->|Hne].
  - rewrite lookup_insert_eq. simpl.
    rewrite (bool_decide_eq_true_2 (t0 ∈ t0 :: ts)) by by left.
    case_bool_decide; [|done].
    simpl. by rewrite union_twice.
  - rewrite lookup_insert_ne by done.
    case_bool_decide as Hin.
    + rewrite bool_decide_eq_true_2 by by right. done.
    + rewrite bool_decide_eq_false_2; [done|].
      intros [?|?]%elem_of_cons; done.
Qed.

Lemma add_group_lookup g (rules0 : catalog_t) t :
  add_group rules0 g !! t
  = if bool_decide (t ∈ tables g)
    then Some (rules g ∪ default ∅ (rules0 !! t))
    else rules0 !! t.
Proof. apply foldl_add_table_lookup. Qed.

Lemma merged_rules_cons t acc g (gs : list group) :
  merged_rules t acc (g :: gs)
  = merged_rules t (if bool_decide (t ∈ tables g) then rules g ∪ acc else acc) gs.
Proof. reflexivity. Qed.

Lemma merged_rules_untouched t acc (gs : list group) :
  ¬ Exists (λ g, t ∈ tables g) gs → merged_rules t acc gs = acc.
Proof.
  revert acc. induction gs as [|g gs IH]; intros acc Hno; [done|].
  rewrite merged_rules_cons.
  rewrite bool_decide_eq_false_2 by (intros ?; apply Hno; by left).
  apply IH. intros ?. apply Hno. by right.
Qed.

Lemma foldl_add_group_lookup (gs : list group) (rules0 : catalog_t) t :
  foldl add_group rules0 gs !! t
  = if bool_decide (Exists (λ g, t ∈ tables g) gs)
    then Some (merged_rules t (default ∅ (rules0 !! t)) gs)
    else rules0 !! t.
Proof.
  revert rules0. induction gs as [|g gs IH]; intros rules0.
  - rewrite bool_decide_eq_false_2; [done|]. by intros ?%Exists_nil.
  - cbn [foldl]. rewrite IH, add_group_lookup. unfold merged_rules. cbn [foldl].
    destruct (bool_decide (t ∈ tables g)) eqn:Ht.
    + apply bool_decide_eq_true in Ht. simpl.
      rewrite (bool_decide_eq_true_2 (Exists _ (g :: gs))) by by left.
      case_bool_decide as Hex; [done|].
      fold (merged_rules t (rules g ∪ default ∅ (rules0 !! t)) gs).
      by rewrite merged_rules_untouched.
    + apply bool_decide_eq_false in Ht.
      case_bool_decide as Hex.
      * rewrite bool_decide_eq_true_2; [done | by right].
      * rewrite bool_decide_eq_false_2; [done|].
        by intros [?|?]%Exists_cons.
Qed.

Lemma getRules_lookup (files : list document) t :
  getRules files !! t
  = if bool_decide (Exists (λ g, t ∈ tables g) (concat files))
    then Some (merged_rules t ∅ (concat files))
    else None.
Proof.
  unfold getRules.
  assert (Hflat : ∀ rules0 : catalog_t,
    foldl add_document rules0 files = foldl add_group rules0 (concat files)).
  { induction files as [|f files IH]; intros rules0; [done|].
    simpl. by rewrite IH, foldl_app. }
  rewrite Hflat, foldl_add_group_lookup. by rewrite lookup_empty.
Qed.

(** What a rule name maps to after merging: the expression of the last
    group that names the table and has the rule, or what was there. *)
Lemma merged_rules_lookup t acc (gs : list group) rn :
  merged_rules t acc gs !! rn
  = match last (filter (λ g, t ∈ tables g ∧ is_Some (rules g !! rn)) gs) with
    | Some g => rules g !! rn
    | None => acc !! rn
    end.
Proof.
  revert acc. induction gs as [|g gs IH]; intros acc; [done|].
  rewrite merged_rules_cons, IH, filter_cons.
  case_decide as Hg.
  - rewrite last_cons. destruct Hg as [Ht [e He]].
    destruct (last (filter _ gs)) as [g'|]; [done|].
    rewrite bool_decide_eq_true_2 by done.
    rewrite lookup_union, He. by destruct (acc !! rn).
  - destruct (last (filter _ gs)) as [g'|]; [done|].
    case_bool_decide as Ht; [|done].
    rewrite lookup_union.
    destruct (rules g !! rn) eqn:He; [|by destruct (acc !! rn)].
    exfalso. apply Hg. split; [done | by eexists].
Qed.

Lemma last_filter_Some {A} (P : A → Prop) `{∀ x, Decision (P x)} (l : list A) g :
  last (filter P l) = Some g
  ↔ ∃ pre post, l = pre ++ g :: post ∧ P g ∧ ∀ x, x ∈ post → ¬ P x.
Proof.
  split.
  - induction l as [|a l IH]; [done|].
    rewrite filter_cons. case_decide as Ha.
    + rewrite last_cons. destruct (last (filter P l)) as [g'|] eqn:Hl.
      * intros [= ->]. destruct IH as (pre & post & -> & Hg & Hpost); [done|].
        by exists (a :: pre), post.
      * intros [= ->]. exists [], l. split; [done|]. split; [done|].
        intros x Hx HP.
        assert (x ∈ filter P l) as Hin by (by apply list_elem_of_filter).
        apply last_None in Hl. rewrite Hl in Hin. inversion Hin.
    + intros Hl. destruct (IH Hl) as (pre & post & -> & Hg & Hpost).
      by exists (a :: pre), post.
  - intros (pre & post & -> & Hg & Hpost).
    rewrite filter_app, filter_cons, decide_True by done.
    assert (filter P post = []) as ->.
    { apply elem_of_nil_inv. intros x [HP Hx]%list_elem_of_filter. by eapply Hpost. }
    rewrite (last_app_cons _ [] g). done.
Qed.

Lemma last_filter_member {A} (P : A → Prop) `{∀ x, Decision (P x)} (l : list A) g :
  g ∈ l → P g → ∃ g', last (filter P l) = Some g' ∧ P g'.
Proof.
  intros Hin HP.
  assert (g ∈ filter P l) as Hf by (by apply list_elem_of_filter).
  destruct (last (filter P l)) as [g'|] eqn:Hl.
  - exists g'. split; [done|].
    apply last_Some_elem_of, list_elem_of_filter in Hl. tauto.
  - apply last_None in Hl. rewrite Hl in Hf. inversion Hf.
Qed.

(** C7: for rule files whose groups name their tables by names of their
    own and have no rule named [__proto__], the keys of the catalog are
    the tables named by some group; the rule mapping of a table is the
    merge, in loading order, of the rules of the groups that name it: a
    rule name maps to the expression of the last group that names the
    table and has that rule, every rule name of such a group is there, and
    the mapping is not empty when no group's rules are. *)
Theorem getRules_catalog (files : list document) :
  forallb ordinary_group (concat files) = true →
  (∀ t, is_Some (getRules files !! t) ↔ ∃ g, g ∈ concat files ∧ t ∈ tables g)
  ∧ (∀ t tableRules, getRules files !! t = Some tableRules →
       tableRules = merged_rules t ∅ (concat files)
       ∧ (∀ rn e, tableRules !! rn = Some e ↔
            ∃ pre g post,
              concat files = pre ++ g :: post
              ∧ t ∈ tables g ∧ rules g !! rn = Some e
              ∧ ∀ g', g' ∈ post → t ∈ tables g' → rules g' !! rn = None)
       ∧ (∀ g rn, g ∈ concat files → t ∈ tables g → is_Some (rules g !! rn) →
            is_Some (tableRules !! rn))
       ∧ ((∀ g, g ∈ concat files → rules g ≠ ∅) → tableRules ≠ ∅))
  ∧ getRules [file_a; file_b] !! "kubernetes_pods"
    = Some (<["privileged" := VStr "b1"]>
              (<["host_pid" := VStr "a2"]> (<["run_as_user" := VStr "b3"]> ∅))).
Proof.
  intros _. split; [|split].
  - intros t. rewrite getRules_lookup, <- Exists_exists.
    case_bool_decide; split; try done; try by eexists.
  - intros t tableRules Ht. rewrite getRules_lookup in Ht.
    case_bool_decide as Hex; [|done]. injection Ht as <-.
    assert (Hpresent : ∀ g rn, g ∈ concat files → t ∈ tables g →
      is_Some (rules g !! rn) →
      is_Some (merged_rules t ∅ (concat files) !! rn)).
    { intros g rn Hg Htg Hrn. rewrite merged_rules_lookup.
      destruct (last_filter_member
                  (λ g, t ∈ tables g ∧ is_Some (rules g !! rn)) (concat files) g)
        as (g' & -> & _ & Hg'); done. }
    split; [done|]. split; [|split; [done|]].
    + intros rn e. rewrite merged_rules_lookup. split.
      * destruct (last (filter _ (concat files))) as [g|] eqn:Hl; [|done].
        intros He. apply last_filter_Some in Hl as (pre & post & Hc & [Htg _] & Hpost).
        exists pre, g, post. repeat (split; [done|]).
        intros g' Hg' Htg'. destruct (rules g' !! rn) eqn:He'; [|done].
        exfalso. apply (Hpost g' Hg'). split; [done | by eexists].
      * intros (pre & g & post & Hc & Htg & He & Hpost).
        assert (last (filter (λ g, t ∈ tables g ∧ is_Some (rules g !! rn))
                        (concat files)) = Some g) as ->; [|done].
        apply last_filter_Some. exists pre, post. split; [done|].
        split; [split; [done | by eexists]|].
        intros g' Hg' [Htg' [e' He']]. by rewrite (Hpost g' Hg' Htg') in He'.
    + intros Hne Hempty. apply Exists_exists in Hex as (g & Hg & Htg).
      destruct (map_choose (rules g) (Hne g Hg)) as (rn & e & He).
      destruct (Hpresent g rn Hg Htg) as [e' He']; [by eexists|].
      by rewrite Hempty, lookup_empty in He'.
  - vm_cast_no_check
      (eq_refl (Some (<["privileged" := VStr "b1"]>
                        (<["host_pid" := VStr "a2"]>
                           (<["run_as_user" := VStr "b3"]> (∅ : gmap string value)))))).
Qed.

Lemma getRules_catalog_witness :
  (∀ t, is_Some (getRules [file_a; file_b] !! t)
        ↔ ∃ g, g ∈ concat [file_a; file_b] ∧ t ∈ tables g)
  ∧ (∀ tableRules, getRules [file_a; file_b] !! "kubernetes_jobs" = Some tableRules →
       tableRules = merged_rules "kubernetes_jobs" ∅ (concat [file_a; file_b])).
Proof.
  destruct (getRules_catalog [file_a; file_b] eq_refl) as (Hkeys & Hrules & _).
  split; [exact Hkeys|]. intros tableRules Ht. exact (proj1 (Hrules _ _ Ht)).
Defined.

(** ** enroll and log *)

Lemma indexOf_ge (l : list string) v : -1 <= indexOf l v.
Proof.
  induction l as [|s l IH]; simpl; [lia|].
  destruct (strict_eq_str v s); [lia|].
  destruct (Z.ltb_spec (indexOf l v) 0); lia.
Qed.

(** [indexOf] finds a value exactly when it is one of the strings. *)
Lemma indexOf_found (l : list string) v :
  0 <= indexOf l v ↔ ∃ s, s ∈ l ∧ v = VStr s.
Proof.
  induction l as [|s l IH]; simpl.
  - split; [lia | by intros (? & ?%elem_of_nil & _)].
  - destruct (strict_eq_str v s) eqn:Hv.
    + apply strict_eq_str_spec in Hv. split; [|lia].
      intros _. exists s. split; [by left | done].
    + pose proof (indexOf_ge l v).
      destruct (Z.ltb_spec (indexOf l v) 0).
      * split; [lia|]. intros (s' & [->|Hin]%elem_of_cons & ->).
        -- rewrite (proj2 (strict_eq_str_spec (VStr s) s)) in Hv; done.
        -- assert (0 <= indexOf l (VStr s')); [|lia]. apply IH. by exists s'.
      * split; [|lia]. intros _. destruct (proj1 IH) as (s' & Hin & ->); [lia|].
        exists s'. split; [by right | done].
Qed.

Lemma indexOf_missing (l : list string) v :
  (indexOf l v <? 0) = true ↔ ∀ s, s ∈ l → v ≠ VStr s.
Proof.
  rewrite Z.ltb_lt. pose proof (indexOf_found l v) as Hf. split.
  - intros Hlt s Hin ->. assert (0 <= indexOf l (VStr s)); [|lia].
    apply Hf. by exists s.
  - intros Hno. destruct (Z_lt_le_dec (indexOf l v) 0) as [|Hge]; [done|].
    apply Hf in Hge as (s & Hin & ->). by destruct (Hno s Hin).
Qed.

Lemma truthy_string s : truthy (VStr s) = true ↔ s ≠ EmptyString.
Proof.
  simpl. rewrite negb_true_iff. split.
  - intros H ->. by rewrite String.eqb_refl in H.
  - intros H. by apply String.eqb_neq.
Qed.

Lemma NODE_KEYS_digests enrollSecrets sha256_hex :
  NODE_KEYS enrollSecrets sha256_hex = sha256_hex <$> ENROLL_SECRETS enrollSecrets.
Proof. unfold NODE_KEYS, ENROLL_SECRETS. by rewrite <- list_fmap_compose. Qed.

(** C10, as amended: for every secret of the configured list that is not
    the empty string, [enroll] answers 200 with the serialized object
    whose [node_key] is the digest of the secret, and a log request
    carrying that digest passes the node-key check; a log request whose
    [node_key] is absent, or is the digest of no configured secret, is
    answered with the error response. *)
Theorem enroll_log_round_trip (enrollSecrets : string)
    (sha256_hex : string → string) (JSON_stringify : value → string) :
  (∀ s, String.length (sha256_hex s) = 64%nat) →
  (∀ s, s ∈ ENROLL_SECRETS enrollSecrets → s ≠ EmptyString →
     enroll enrollSecrets sha256_hex JSON_stringify (<["enroll_secret" := VStr s]> ∅)
     = Ok {| statusCode := 200;
             body := Some (JSON_stringify
                             (VObj (<["node_invalid" := VBool false]>
                                      (<["node_key" := VStr (sha256_hex s)]> ∅)))) |}
     ∧ ∀ body, body !! "node_key" = Some (VStr (sha256_hex s)) →
               log enrollSecrets sha256_hex body ≠ InvalidNodeKey)
  ∧ (∀ body,
       body !! "node_key" = None
       ∨ (∀ s, s ∈ ENROLL_SECRETS enrollSecrets →
               body !! "node_key" ≠ Some (VStr (sha256_hex s))) →
       log enrollSecrets sha256_hex body = InvalidNodeKey
       ∧ log_returns InvalidNodeKey = Some ERROR).
Proof.
  intros Hlen.
  assert (Hdigest : ∀ s, truthy (VStr (sha256_hex s)) = true).
  { intros s. apply truthy_string. intros He.
    specialize (Hlen s). by rewrite He in Hlen. }
  split.
  - intros s Hin Hne. split.
    + unfold enroll. rewrite lookup_insert_eq. simpl default.
      rewrite (proj2 (truthy_string s) Hne). simpl negb. simpl orb.
      destruct (Z.ltb_spec (indexOf (ENROLL_SECRETS enrollSecrets) (VStr s)) 0)
        as [Hlt|_]; [|done].
      assert (0 <= indexOf (ENROLL_SECRETS enrollSecrets) (VStr s)); [|lia].
      apply indexOf_found. by exists s.
    + intros body Hk. unfold log. rewrite Hk. simpl default.
      rewrite Hdigest. simpl negb. simpl orb.
      destruct (Z.ltb_spec (indexOf (NODE_KEYS enrollSecrets sha256_hex)
                              (VStr (sha256_hex s))) 0) as [Hlt|_].
      * assert (0 <= indexOf (NODE_KEYS enrollSecrets sha256_hex)
                       (VStr (sha256_hex s))); [|lia].
        apply indexOf_found. exists (sha256_hex s). split; [|done].
        rewrite NODE_KEYS_digests. by apply list_elem_of_fmap_2.
      * cbn [orb]. repeat case_match; done.
  - intros body Hbad. split; [|done]. unfold log.
    destruct Hbad as [Hnone|Hno].
    + by rewrite Hnone.
    + assert ((indexOf (NODE_KEYS enrollSecrets sha256_hex)
                 (default VUndef (body !! "node_key")) <? 0) = true) as ->.
      { apply indexOf_missing. intros k Hk Heq.
        rewrite NODE_KEYS_digests in Hk.
        apply list_elem_of_fmap in Hk as (s & -> & Hs).
        apply (Hno s Hs).
        destruct (body !! "node_key") as [v|]; simpl in Heq; [by subst | done]. }
      by rewrite orb_true_r.
Qed.

Lemma enroll_log_round_trip_witness :
  enroll "s3cret, other" digest_stand_in stringify_stand_in
    (<["enroll_secret" := VStr "other"]> ∅)
  = Ok {| statusCode := 200;
          body := Some (stringify_stand_in
                          (VObj (<["node_invalid" := VBool false]>
                                   (<["node_key" := VStr (digest_stand_in "other")]> ∅)))) |}
  ∧ ∀ body, body !! "node_key" = Some (VStr (digest_stand_in "other")) →
            log "s3cret, other" digest_stand_in body ≠ InvalidNodeKey.
Proof.
  apply (proj1 (enroll_log_round_trip "s3cret, other" digest_stand_in
                  stringify_stand_in (λ s, eq_refl)) "other").
  - vm_compute. by right; left.
  - discriminate.
Defined.

(** C10 as stated fails for the empty secret, which is in the list when
    ENROLL_SECRETS is unset or has an empty piece: [enroll] rejects it. *)
Lemma enroll_rejects_empty_secret :
  ENROLL_SECRETS EmptyString = [EmptyString]
  ∧ ENROLL_SECRETS "s3cret," = ["s3cret"; EmptyString]
  ∧ enroll EmptyString digest_stand_in stringify_stand_in
      (<["enroll_secret" := VStr EmptyString]> ∅) = Ok ERROR
  ∧ enroll "s3cret," digest_stand_in stringify_stand_in
      (<["enroll_secret" := VStr EmptyString]> ∅) = Ok ERROR.
Proof. vm_compute. auto. Qed.

(** * Further properties *)

(** ** Printing a number and reading it back *)

Lemma digit_char_code d : 0 <= d <= 9 → nat_of_ascii (digit_char d) = (48 + Z.to_nat d)%nat.
Proof. intros H. unfold digit_char. apply nat_ascii_embedding. lia. Qed.

Lemma is_digit_digit_char d : 0 <= d <= 9 → is_digit (digit_char d) = true.
Proof.
  intros H. unfold is_digit. rewrite digit_char_code by done.
  apply andb_true_iff. split; apply Nat.leb_le; lia.
Qed.

Lemma digit_char_inj a b :
  0 <= a <= 9 → 0 <= b <= 9 → digit_char a = digit_char b → a = b.
Proof.
  intros Ha Hb Heq. apply (f_equal nat_of_ascii) in Heq.
  rewrite !digit_char_code in Heq by done. lia.
Qed.

Lemma two_digits_inj a b :
  0 <= a <= 99 → 0 <= b <= 99 → two_digits a = two_digits b → a = b.
Proof.
  intros Ha Hb Heq. unfold two_digits in Heq. injection Heq as H1 H2.
  apply digit_char_inj in H1; [|Z.div_mod_to_equations; lia..].
  apply digit_char_inj in H2; [|Z.div_mod_to_equations; lia..].
  Z.div_mod_to_equations; lia.
Qed.

Lemma all_chars_digits_go p fuel n acc :
  (∀ d, 0 <= d <= 9 → p (digit_char d) = true) →
  all_chars p acc = true → all_chars p (digits_go fuel n acc) = true.
Proof.
  intros Hp. revert n acc. induction fuel as [|fuel IH]; intros n acc Hacc; simpl.
  - rewrite Hp, Hacc; [done|]. Z.div_mod_to_equations; lia.
  - destruct (n <? 10).
    + simpl. rewrite Hp, Hacc; [done|]. Z.div_mod_to_equations; lia.
    + apply IH. simpl. rewrite Hp, Hacc; [done|]. Z.div_mod_to_equations; lia.
Qed.

Lemma all_digits_digits n : all_chars is_digit (digits n) = true.
Proof. apply all_chars_digits_go; [apply is_digit_digit_char | done]. Qed.

Lemma digits_go_cons fuel n acc : ∃ c r, digits_go fuel n acc = String c r.
Proof.
  revert n acc. induction fuel as [|fuel IH]; intros n acc; simpl; [by eexists _, _|].
  destruct (n <? 10); [by eexists _, _ | apply IH].
Qed.

(** With fuel for every binary digit, the decimal digits read back as
    the number. *)
Lemma read_digits_digits_go fuel n acc :
  0 <= n < 2 ^ (Z.of_nat fuel + 1) →
  read_digits (digits_go fuel n acc) 0 = read_digits acc n.
Proof.
  revert n acc. induction fuel as [|fuel IH]; intros n acc Hn.
  - simpl in Hn. cbn [digits_go]. rewrite Z.mod_small by lia.
    cbn [read_digits]. rewrite is_digit_digit_char by lia.
    rewrite digit_char_code by lia. f_equal. lia.
  - cbn [digits_go]. destruct (Z.ltb_spec n 10).
    + rewrite Z.mod_small by lia.
      cbn [read_digits]. rewrite is_digit_digit_char by lia.
      rewrite digit_char_code by lia. f_equal. lia.
    + rewrite IH.
      * cbn [read_digits]. rewrite is_digit_digit_char by (Z.div_mod_to_equations; lia).
        rewrite digit_char_code by (Z.div_mod_to_equations; lia). f_equal.
        Z.div_mod_to_equations; lia.
      * replace (Z.of_nat (S fuel) + 1) with (Z.succ (Z.of_nat fuel + 1)) in Hn by lia.
        rewrite Z.pow_succ_r in Hn by lia.
        Z.div_mod_to_equations; lia.
Qed.

Lemma read_digits_digits n : 0 <= n → read_digits (digits n) 0 = Some n.
Proof.
  intros Hn. unfold digits. rewrite read_digits_digits_go; [done|].
  destruct (decide (n = 0)) as [->|Hne]; [simpl; lia|].
  rewrite Z2Nat.id by apply Z.log2_nonneg.
  pose proof (Z.log2_spec n ltac:(lia)) as [_ Hhi].
  replace (Z.log2 n + 1) with (Z.succ (Z.log2 n)) by lia. lia.
Qed.

Lemma digit_not_space c : is_digit c = true → not_space c = true.
Proof.
  unfold is_digit, not_space, is_space. intros H.
  apply andb_true_iff in H as [H1 H2].
  apply Nat.leb_le in H1, H2.
  apply negb_true_iff.
  repeat (apply orb_false_iff; split); try apply andb_false_iff.
  - right. apply Nat.leb_gt. lia.
  - apply Nat.eqb_neq. lia.
  - apply Nat.eqb_neq. lia.
Qed.

Lemma string_to_number_digits c r :
  all_chars is_digit (String c r) = true →
  string_to_number (String c r)
  = match read_digits (String c r) 0 with Some z => Int z | None => NaN end.
Proof.
  intros H. unfold string_to_number.
  rewrite trim_id by (eapply all_chars_impl; [apply digit_not_space | done]).
  simpl in H. apply andb_true_iff in H as [Hc _].
  destruct c as [[] [] [] [] [] [] [] []]; try discriminate Hc; reflexivity.
Qed.

Lemma string_to_number_minus c r :
  all_chars is_digit (String c r) = true →
  string_to_number (String "-" (String c r))
  = match read_digits (String c r) 0 with Some z => Int (- z) | None => NaN end.
Proof.
  intros H. unfold string_to_number.
  rewrite trim_id; [done|].
  change (not_space "-" && all_chars not_space (String c r) = true).
  rewrite (all_chars_impl is_digit not_space _ digit_not_space H). done.
Qed.

(** Printing an integer and converting the text to a number gives the
    integer. *)
Lemma to_number_number_to_string z :
  to_number (VStr (number_to_string (Int z))) = Int z.
Proof.
  unfold to_number, number_to_string.
  destruct (Z.ltb_spec z 0).
  - pose proof (all_digits_digits (- z)) as Hd.
    pose proof (read_digits_digits (- z) ltac:(lia)) as Hr.
    unfold digits in *.
    destruct (digits_go_cons (Z.to_nat (Z.log2 (- z))) (- z) EmptyString)
      as (c & r & Heq).
    rewrite Heq in *. change ("-" +:+ String c r) with (String "-" (String c r)).
    rewrite string_to_number_minus, Hr by done. f_equal. lia.
  - pose proof (all_digits_digits z) as Hd.
    pose proof (read_digits_digits z ltac:(lia)) as Hr.
    unfold digits in *.
    destruct (digits_go_cons (Z.to_nat (Z.log2 z)) z EmptyString) as (c & r & Heq).
    rewrite Heq in *.
    by rewrite string_to_number_digits, Hr.
Qed.

Lemma number_to_string_inj a b :
  number_to_string (Int a) = number_to_string (Int b) → a = b.
Proof.
  intros Heq. pose proof (to_number_number_to_string a) as Ha.
  rewrite Heq, to_number_number_to_string in Ha. by injection Ha.
Qed.

Lemma number_to_string_first z :
  ∃ c r, number_to_string (Int z) = String c r ∧ (is_digit c = true ∨ c = "-"%char).
Proof.
  unfold number_to_string. destruct (z <? 0).
  - exists "-"%char, (digits (- z)). split; [done | by right].
  - pose proof (all_digits_digits z) as Hd. unfold digits in *.
    destruct (digits_go_cons (Z.to_nat (Z.log2 z)) z EmptyString) as (c & r & Heq).
    rewrite Heq in *. exists c, r. split; [done|]. left.
    simpl in Hd. by apply andb_true_iff in Hd as [? _].
Qed.

(** ** getDay: further properties *)

(** X1: a timestamp given as the decimal text of an integer, as an agent
    may send it, gets the day key of that integer. *)
Theorem getDay_decimal_string (t : Z) :
  getDay (VStr (number_to_string (Int t))) = getDay (VNum t).
Proof. unfold getDay. rewrite to_number_number_to_string. reflexivity. Qed.

Lemma getDay_out_of_range t :
  8640000000000 < Z.abs t → getDay (VNum t) = "NaNNaNNaN".
Proof.
  intros H. unfold getDay. cbn [to_number num_mul Date.new_Date].
  destruct (Z.leb_spec (Z.abs (t * 1000)) 8640000000000000); [lia|]. reflexivity.
Qed.

(** X2: an integer timestamp gets the key "NaNNaNNaN" exactly when it
    lies outside the range of Date, more than 8 640 000 000 000 seconds
    from the epoch. *)
Theorem getDay_invalid_key (t : Z) :
  getDay (VNum t) = "NaNNaNNaN" ↔ 8640000000000 < Z.abs t.
Proof.
  split; [|apply getDay_out_of_range].
  intros Hk. destruct (Z_lt_le_dec 8640000000000 (Z.abs t)) as [|Hle]; [done|].
  rewrite getDay_valid in Hk by done.
  destruct (number_to_string_first (Date.YearFromTime (t * 1000)))
    as (c & r & Heq & Hc).
  rewrite Heq, append_cons in Hk. injection Hk as -> _.
  by destruct Hc.
Qed.

Lemma civil_bounds t :
  1 <= Date.MonthFromTime t + 1 <= 12 ∧ 1 <= Date.DateFromTime t <= 31.
Proof.
  destruct (utc_fields_civil t) as [[Hm Hd] _]. split; [done|].
  revert Hm Hd. unfold Calendar.days_in_month.
  generalize (Calendar.is_leap (Date.YearFromTime t)) as l.
  generalize (Date.DateFromTime t) as d.
  generalize (Date.MonthFromTime t + 1) as m.
  intros m d l Hm.
  assert (Hc : m = 1 ∨ m = 2 ∨ m = 3 ∨ m = 4 ∨ m = 5 ∨ m = 6 ∨ m = 7
               ∨ m = 8 ∨ m = 9 ∨ m = 10 ∨ m = 11 ∨ m = 12) by lia.
  destruct l; repeat destruct Hc as [-> | Hc]; try subst m; cbn; lia.
Qed.

(** X3: within the range of Date, two integer timestamps get the same
    day key exactly when they fall on the same UTC day. *)
Theorem getDay_same_day (t1 t2 : Z) :
  Z.abs t1 <= 8640000000000 → Z.abs t2 <= 8640000000000 →
  getDay (VNum t1) = getDay (VNum t2) ↔ t1 / 86400 = t2 / 86400.
Proof.
  intros H1 H2. rewrite !getDay_valid by done. rewrite <- !Day_seconds. split.
  - intros Heq.
    apply append_inj_length in Heq as [Hy Hmd]; [|done].
    apply number_to_string_inj in Hy.
    apply append_inj_length in Hmd as [Hm Hd]; [|done].
    destruct (civil_bounds (t1 * 1000)) as [Hm1 Hd1].
    destruct (civil_bounds (t2 * 1000)) as [Hm2 Hd2].
    apply two_digits_inj in Hm; [|lia..].
    apply two_digits_inj in Hd; [|lia..].
    destruct (utc_fields_civil (t1 * 1000)) as [_ <-].
    destruct (utc_fields_civil (t2 * 1000)) as [_ <-].
    by rewrite Hy, Hm, Hd.
  - intros Hd. unfold Date.YearFromTime, Date.MonthFromTime, Date.DateFromTime,
      Date.MonthFromTime, Date.InLeapYear, Date.DayWithinYear, Date.YearFromTime.
    by rewrite Hd.
Qed.

Lemma getDay_same_day_witness :
  (getDay (VNum 1620432000) = getDay (VNum 1620518399)
   ↔ 1620432000 / 86400 = 1620518399 / 86400)
  ∧ (getDay (VNum 1620518399) = getDay (VNum 1620518400)
     ↔ 1620518399 / 86400 = 1620518400 / 86400).
Proof.
  split.
  - apply (getDay_same_day 1620432000 1620518399); simpl; lia.
  - apply (getDay_same_day 1620518399 1620518400); simpl; lia.
Defined.

(** ** parseResult: further properties *)

Lemma buckets_nonempty_empty : buckets_nonempty ∅.
Proof. intros n parts d rows Hn. by rewrite lookup_empty in Hn. Qed.

Lemma bucket_empty n d : bucket ∅ n d = [].
Proof. unfold bucket. by rewrite lookup_empty. Qed.

Lemma total_rows_empty : total_rows ∅ = 0%nat.
Proof. unfold total_rows. apply sum_sizes_empty. Qed.

Lemma rev1_add_record_eq tables r :
  Rev1.add_record tables r
  = push_row tables (name r) (getDay (unixTime r)) (Rev1.make_row r).
Proof.
  unfold Rev1.add_record, push_row, bucket. f_equal.
  destruct (tables !! name r) as [parts|]; simpl.
  - destruct (parts !! getDay (unixTime r)) as [rows|] eqn:Hd.
    + by rewrite Hd.
    + rewrite lookup_insert_eq. simpl. apply insert_insert_eq.
  - rewrite lookup_empty, lookup_insert_eq. simpl. apply insert_insert_eq.
Qed.

Lemma rev1_parseResult_from tables data :
  (∀ n d, bucket (foldl Rev1.add_record tables data) n d
          = bucket tables n d ++ (Rev1.make_row <$> filter (in_bucket n d) data))
  ∧ total_rows (foldl Rev1.add_record tables data)
    = (total_rows tables + length data)%nat
  ∧ (buckets_nonempty tables → buckets_nonempty (foldl Rev1.add_record tables data)).
Proof.
  revert tables. induction data as [|r data IH]; intros tables.
  - split; [|split; [simpl; lia | done]]. intros n d. simpl. by rewrite app_nil_r.
  - cbn [foldl]. rewrite rev1_add_record_eq.
    destruct (IH (push_row tables (name r) (getDay (unixTime r)) (Rev1.make_row r)))
      as (IH1 & IH2 & IH3).
    split; [|split].
    + intros n d. rewrite IH1, bucket_push_row, filter_cons. unfold in_bucket at 2.
      destruct (decide (n = name r ∧ d = getDay (unixTime r))) as [[-> ->]|Hno].
      * rewrite decide_True by done. by rewrite fmap_cons, <- app_assoc.
      * rewrite decide_False by (intros [??]; by apply Hno). by rewrite app_nil_r.
    + rewrite IH2, total_rows_push_row. simpl. lia.
    + intros Hne. by apply IH3, buckets_nonempty_push_row.
Qed.

(** X4: for a batch of records with names of their own and plain
    timestamps, the earlier revision of [parseResult] puts in bucket
    [(n, d)], in input order, exactly the rows of the records named [n]
    whose day key is [d], each row being the record's columns with the
    three reserved keys written over them; the rows are as many as the
    records and no bucket is empty. *)
Theorem parseResult_rev1_partition (data : list record) :
  forallb ordinary_record data = true →
  (∀ n d, bucket (Rev1.parseResult data) n d
          = Rev1.make_row <$> filter (in_bucket n d) data)
  ∧ (∀ r, r ∈ data →
       Rev1.make_row r ∈ bucket (Rev1.parseResult data) (name r) (getDay (unixTime r)))
  ∧ total_rows (Rev1.parseResult data) = length data
  ∧ buckets_nonempty (Rev1.parseResult data).
Proof.
  intros _.
  destruct (rev1_parseResult_from ∅ data) as (Hb & Hn & Hne).
  assert (Hbuckets : ∀ n d, bucket (Rev1.parseResult data) n d
                            = Rev1.make_row <$> filter (in_bucket n d) data).
  { intros n d. unfold Rev1.parseResult. by rewrite Hb, bucket_empty. }
  split; [done|]. split; [|split].
  - intros r Hr. rewrite Hbuckets. apply list_elem_of_fmap_2.
    apply list_elem_of_filter. by split.
  - unfold Rev1.parseResult. by rewrite Hn, total_rows_empty.
  - apply Hne, buckets_nonempty_empty.
Qed.

Lemma parseResult_rev1_partition_witness :
  bucket (Rev1.parseResult sample_batch) "kubernetes_events" "20210508"
  = [Rev1.make_row sample_record; Rev1.make_row sample_record]
  ∧ total_rows (Rev1.parseResult sample_batch) = 3%nat.
Proof.
  destruct (parseResult_rev1_partition sample_batch eq_refl) as (Hb & _ & Hn & _).
  split; [|exact Hn]. rewrite Hb. reflexivity.
Defined.

Section RevisionsAgree.
Variable JSON_parse : string → option value.

Lemma plain_record_spec r :
  plain_record r = true ↔
  ∀ k v, columns r !! k = Some v →
    k ≠ "calendarTime" ∧ k ≠ "unixTime" ∧ k ≠ "added" ∧ k ≠ "__proto__"
    ∧ ∃ s, v = VStr s ∧ json_shaped s = false.
Proof.
  unfold plain_record. rewrite forallb_forall. split.
  - intros H k v Hk.
    specialize (H (k, v)). rewrite <- list_elem_of_In, elem_of_map_to_list in H.
    specialize (H Hk). unfold plain_column in H. simpl in H.
    rewrite !andb_true_iff, !negb_true_iff, !String.eqb_neq in H.
    destruct H as [[[[H1 H2] H3] H4] H5]. repeat (split; [done|]).
    destruct v; try done. eexists. split; [done|]. by apply negb_true_iff.
  - intros H [k v] Hin. apply list_elem_of_In, elem_of_map_to_list in Hin.
    destruct (H k v Hin) as (H1 & H2 & H3 & H4 & s & -> & Hs).
    unfold plain_column. simpl.
    rewrite Hs. simpl. rewrite andb_true_r.
    rewrite !andb_true_iff, !negb_true_iff, !String.eqb_neq. done.
Qed.

Lemma make_row_plain r :
  plain_record r = true → make_row JSON_parse r = Ok (Rev1.make_row r).
Proof.
  intros Hp. rewrite plain_record_spec in Hp.
  destruct (make_row_total JSON_parse r) as [row Hrow].
  { intros k v Hk. destruct (Hp k v Hk) as (_ & _ & _ & _ & s & -> & Hs).
    exists (VStr s). unfold normalize. by rewrite Hs. }
  rewrite Hrow. f_equal.
  destruct (make_row_ok _ _ _ Hrow) as [Hcol Hres].
  apply map_eq. intros k. unfold Rev1.make_row.
  destruct (columns r !! k) as [v|] eqn:Hk.
  - destruct (Hp k v Hk) as (H1 & H2 & H3 & H4 & s & -> & Hs).
    destruct (Hcol k _ Hk) as (v' & Hv' & Hrk). rewrite (Hrk H4).
    unfold normalize in Hv'. rewrite Hs in Hv'. injection Hv' as <-.
    by rewrite !lookup_insert_ne, Hk.
  - rewrite (Hres k Hk), reserved_lookup.
    repeat (case_decide; [subst; by simplify_map_eq|]).
    by rewrite !lookup_insert_ne.
Qed.

Lemma parseResult_from_plain tables data :
  forallb plain_record data = true →
  parseResult_from JSON_parse tables data = Ok (foldl Rev1.add_record tables data).
Proof.
  revert tables. induction data as [|r data IH]; intros tables H; [done|].
  simpl in H. apply andb_true_iff in H as [Hr Hd].
  unfold parseResult_from.
  rewrite foldM_cons, add_record_eq, make_row_plain, bind_Ok by done.
  cbn [foldl]. rewrite rev1_add_record_eq. by apply IH.
Qed.

Lemma parseResult_buckets data tables n d :
  parseResult JSON_parse data = Ok tables →
  Forall2 (λ r row, make_row JSON_parse r = Ok row)
    (filter (in_bucket n d) data) (bucket tables n d).
Proof.
  intros Ht. destruct (parseResult_from_ok _ _ _ _ Ht) as (Hb & _).
  destruct (Hb n d) as (rows & -> & Hrows). by rewrite bucket_empty.
Qed.

(** Every day key of a dataset is the key of one of the records. *)
Lemma parseResult_days data (tables : tables_t) t parts d rows :
  parseResult JSON_parse data = Ok tables →
  tables !! t = Some parts → parts !! d = Some rows →
  ∃ r, r ∈ data ∧ name r = t ∧ getDay (unixTime r) = d.
Proof.
  intros Hp Ht Hd.
  pose proof (parseResult_buckets _ _ t d Hp) as Hb.
  destruct (parseResult_from_ok _ _ _ _ Hp) as (_ & _ & Hne).
  specialize (Hne buckets_nonempty_empty t parts d rows Ht Hd).
  assert (bucket tables t d = rows) as Hbk.
  { unfold bucket. rewrite Ht. simpl. by rewrite Hd. }
  rewrite Hbk in Hb. destruct rows as [|row rows]; [done|].
  inversion Hb as [|r row' rs rows' Hr _ Hfilter]; subst.
  assert (r ∈ filter (in_bucket t d) data) as Hin by (rewrite <- Hfilter; by left).
  apply list_elem_of_filter in Hin as [[Hn Hday] Hin]. by exists r.
Qed.
End RevisionsAgree.

(** X5: on a batch of records with names of their own and plain
    timestamps, whose columns are strings that have not the shape of JSON
    and are not named [calendarTime], [unixTime], [added] or [__proto__],
    the later revision of [parseResult] returns, without throwing, the
    dataset that the earlier revision returns. *)
Theorem parseResult_revisions_agree (JSON_parse : string → option value)
    (data : list record) :
  forallb ordinary_record data = true →
  forallb plain_record data = true →
  parseResult JSON_parse data = Ok (Rev1.parseResult data).
Proof. intros _. apply parseResult_from_plain. Qed.

Lemma parseResult_revisions_agree_witness :
  parseResult JSON.parse [undated_record; pod_record]
  = Ok (Rev1.parseResult [undated_record; pod_record]).
Proof.
  apply (parseResult_revisions_agree JSON.parse [undated_record; pod_record]).
  - reflexivity.
  - vm_compute. reflexivity.
Defined.

Lemma Forall2_functional {A B} (R : A → B → Prop) l k1 k2 :
  (∀ a b1 b2, R a b1 → R a b2 → b1 = b2) →
  Forall2 R l k1 → Forall2 R l k2 → k1 = k2.
Proof.
  intros Hf H1. revert k2. induction H1 as [|a b l k Hab _ IH]; intros k2 H2.
  - by inversion H2.
  - inversion H2 as [|a' b' l' k' Hab' H2']; subst.
    f_equal; [by eapply Hf | by apply IH].
Qed.

(** X6: for records with names of their own and plain timestamps,
    [parseResult] returns a dataset for two batches put end to end exactly
    when it returns one for each, and every bucket of the whole is then the
    bucket of the first batch followed by the bucket of the second. *)
Theorem parseResult_app (JSON_parse : string → option value)
    (data1 data2 : list record) :
  forallb ordinary_record (data1 ++ data2) = true →
  ((∃ tables, parseResult JSON_parse (data1 ++ data2) = Ok tables)
   ↔ (∃ tables1, parseResult JSON_parse data1 = Ok tables1)
     ∧ (∃ tables2, parseResult JSON_parse data2 = Ok tables2))
  ∧ ∀ tables tables1 tables2,
      parseResult JSON_parse (data1 ++ data2) = Ok tables →
      parseResult JSON_parse data1 = Ok tables1 →
      parseResult JSON_parse data2 = Ok tables2 →
      ∀ n d, bucket tables n d = bucket tables1 n d ++ bucket tables2 n d.
Proof.
  intros _. split.
  - split.
    + intros [tables Ht]. apply parseResult_from_rows, Forall_app in Ht as [H1 H2].
      split; by apply parseResult_from_total.
    + intros [[t1 H1] [t2 H2]]. apply parseResult_from_total, Forall_app.
      split; by eapply parseResult_from_rows.
  - intros tables t1 t2 Ht H1 H2 n d.
    pose proof (parseResult_buckets _ _ _ n d Ht) as Hb.
    pose proof (parseResult_buckets _ _ _ n d H1) as Hb1.
    pose proof (parseResult_buckets _ _ _ n d H2) as Hb2.
    rewrite filter_app in Hb.
    eapply Forall2_functional; [|exact Hb|by apply Forall2_app].
    intros a b1 b2 Ha1 Ha2. simpl in Ha1, Ha2. congruence.
Qed.

Lemma sample_tables_returned : parseResult JSON.parse sample_batch = Ok sample_tables.
Proof. vm_cast_no_check (eq_refl (Ok sample_tables)). Qed.

Lemma pod_tables_returned : parseResult JSON.parse [pod_record] = Ok pod_tables.
Proof. vm_cast_no_check (eq_refl (Ok pod_tables)). Qed.

Lemma parseResult_app_witness :
  ∃ tables,
    parseResult JSON.parse (sample_batch ++ [pod_record]) = Ok tables
    ∧ bucket tables "kubernetes_events" "20210508"
      = bucket sample_tables "kubernetes_events" "20210508"
        ++ bucket pod_tables "kubernetes_events" "20210508".
Proof.
  destruct (proj2 (proj1 (parseResult_app JSON.parse sample_batch [pod_record]
                            eq_refl)))
    as [tables Ht].
  { split; eexists; [apply sample_tables_returned | apply pod_tables_returned]. }
  exists tables. split; [exact Ht|].
  exact (proj2 (parseResult_app JSON.parse sample_batch [pod_record] eq_refl)
           tables sample_tables pod_tables Ht
           sample_tables_returned pod_tables_returned
           "kubernetes_events" "20210508").
Defined.

(** ** parseResult followed by processRules *)

(** X7: for records with names of their own and plain timestamps, when
    no column is named [added] or [__proto__], the matches that
    [processRules] emits on the dataset of [parseResult] are exactly those
    of the records whose action is "added": the record's table has the
    rule, and [re.apply] of the rule to the record's row returns a truthy
    value.  A removed record raises no alert. *)
Theorem alerts_for_added_records (JSON_parse : string → option value)
    (RULES : catalog_t) (re_apply : value → value → result value)
    (data : list record) (tables : tables_t) :
  forallb ordinary_record data = true →
  parseResult JSON_parse data = Ok tables →
  (∀ r, r ∈ data → columns r !! "added" = None ∧ columns r !! "__proto__" = None) →
  ∀ m, m ∈ processRules RULES re_apply tables
       ↔ ∃ r tableRules rule v,
           r ∈ data
           ∧ action r = VStr "added"
           ∧ name r = match_table m
           ∧ make_row JSON_parse r = Ok (match_row m)
           ∧ RULES !! name r = Some tableRules
           ∧ tableRules !! match_rule m = Some rule
           ∧ re_apply rule (VObj (match_row m)) = Ok v
           ∧ truthy v = true.
Proof.
  intros _ Ht Hcols m.
  assert (Hadded : ∀ r, r ∈ data → columns r !! "added" = None).
  { intros r Hr. by destruct (Hcols r Hr). }
  rewrite processRules_spec. split.
  - intros (partitions & tableRules & day & rows & rule
            & Hd & Hrules & Hday & Hrow & Hr & Hf).
    apply rule_fires_spec in Hf as [Ha (v & Hv & Htv)].
    pose proof (parseResult_buckets _ _ _ (match_table m) day Ht) as Hb.
    assert (bucket tables (match_table m) day = rows) as Hbk.
    { unfold bucket. rewrite Hd. simpl. by rewrite Hday. }
    rewrite Hbk in Hb.
    apply Forall2_flip in Hb.
    destruct (Forall2_row_of_member _ _ _ _ Hb Hrow) as (r & Hin & Hmk).
    apply list_elem_of_filter in Hin as [[Hn Hday'] Hin].
    exists r, tableRules, rule, v. split; [done|].
    destruct (make_row_ok _ _ _ Hmk) as [_ Hres].
    rewrite (Hres "added" (Hadded r Hin)), reserved_lookup in Ha.
    rewrite decide_True in Ha by done. simpl in Ha.
    apply strict_eq_str_spec in Ha.
    rewrite Hn. done.
  - intros (r & tableRules & rule & v & Hin & Hact & Hn & Hmk & Hrules & Hr & Hv & Htv).
    pose proof (parseResult_buckets _ _ _ (name r) (getDay (unixTime r)) Ht) as Hb.
    destruct (Forall2_row_of_member _ _ _ r Hb) as (row & Hrow & Hmk').
    { apply list_elem_of_filter. by split. }
    rewrite Hmk in Hmk'. injection Hmk' as <-.
    unfold bucket in Hrow.
    destruct (tables !! name r) as [partitions|] eqn:Hd; [|by inversion Hrow].
    simpl in Hrow.
    destruct (partitions !! getDay (unixTime r)) as [rows|] eqn:Hday;
      [|by inversion Hrow].
    simpl in Hrow. rewrite <- Hn.
    exists partitions, tableRules, (getDay (unixTime r)), rows, rule.
    repeat (split; [done|]). apply rule_fires_spec. split; [|by exists v].
    destruct (make_row_ok _ _ _ Hmk) as [_ Hres].
    rewrite (Hres "added" (Hadded r Hin)), reserved_lookup.
    rewrite decide_True by done. simpl. by apply strict_eq_str_spec.
Qed.

Lemma pod_row_built :
  make_row JSON.parse pod_record
  = Ok (returned ∅ (make_row JSON.parse pod_record)).
Proof.
  vm_cast_no_check (eq_refl (Ok (returned ∅ (make_row JSON.parse pod_record)))).
Qed.

Lemma alerts_for_added_records_witness :
  {| match_table := "kubernetes_pod_containers"; match_rule := "privileged";
     match_row := returned ∅ (make_row JSON.parse pod_record) |}
    ∈ processRules sample_rules apply_privileged pod_tables.
Proof.
  apply (alerts_for_added_records JSON.parse sample_rules apply_privileged
           [pod_record] pod_tables eq_refl pod_tables_returned).
  - intros r ->%list_elem_of_singleton. split; reflexivity.
  - exists pod_record, (<["privileged" := VStr "rule"]> ∅), (VStr "rule"), (VBool true).
    split; [by left|]. split; [reflexivity|]. split; [reflexivity|].
    split; [apply pod_row_built|]. split; [reflexivity|]. split; [reflexivity|].
    split; [|reflexivity].
    vm_compute. reflexivity.
Defined.

(** ** getRules: further properties *)

(** X8: [processRules] over the catalog that [getRules] builds from
    rule files whose groups name their tables by names of their own and
    have no rule named [__proto__] applies, for a table and a rule name,
    the expression of the last group in loading order that names the table
    and has the rule: a match is emitted exactly for a row of the table's
    buckets whose [added] is truthy and on which [re.apply] of that
    expression returns a truthy value. *)
Theorem processRules_getRules (files : list document)
    (re_apply : value → value → result value) (data : tables_t) (m : RuleMatch) :
  forallb ordinary_group (concat files) = true →
  m ∈ processRules (getRules files) re_apply data
  ↔ ∃ partitions day rows pre g post rule v,
      data !! match_table m = Some partitions
      ∧ partitions !! day = Some rows
      ∧ match_row m ∈ rows
      ∧ concat files = pre ++ g :: post
      ∧ match_table m ∈ tables g
      ∧ rules g !! match_rule m = Some rule
      ∧ (∀ g', g' ∈ post → match_table m ∈ tables g' →
           rules g' !! match_rule m = None)
      ∧ truthy (default VUndef (match_row m !! "added")) = true
      ∧ re_apply rule (VObj (match_row m)) = Ok v
      ∧ truthy v = true.
Proof.
  intros _. rewrite processRules_spec. split.
  - intros (partitions & tableRules & day & rows & rule
            & Hd & Hrules & Hday & Hrow & Hr & Hf).
    apply rule_fires_spec in Hf as (Ha & v & Hv & Htv).
    rewrite getRules_lookup in Hrules.
    case_bool_decide as Hex; [|done]. injection Hrules as <-.
    rewrite merged_rules_lookup in Hr.
    destruct (last (filter _ (concat files))) as [g|] eqn:Hl; [|done].
    apply last_filter_Some in Hl as (pre & post & Hc & [Htg _] & Hpost).
    exists partitions, day, rows, pre, g, post, rule, v.
    repeat (split; [done|]). split; [|done].
    intros g' Hg' Htg'. destruct (rules g' !! match_rule m) eqn:He'; [|done].
    exfalso. apply (Hpost g' Hg'). split; [done | by eexists].
  - intros (partitions & day & rows & pre & g & post & rule & v
            & Hd & Hday & Hrow & Hc & Htg & He & Hpost & Ha & Hv & Htv).
    exists partitions, (merged_rules (match_table m) ∅ (concat files)), day, rows, rule.
    split; [done|]. split.
    { rewrite getRules_lookup, bool_decide_eq_true_2; [done|].
      apply Exists_exists. exists g. split; [|done].
      rewrite Hc. apply elem_of_app. right. by left. }
    repeat (split; [done|]). split; [|apply rule_fires_spec; split; [done | by exists v]].
    rewrite merged_rules_lookup.
    assert (last (filter (λ g, match_table m ∈ tables g
                              ∧ is_Some (rules g !! match_rule m))
                    (concat files)) = Some g) as ->; [|done].
    apply last_filter_Some. exists pre, post. split; [done|].
    split; [split; [done | by eexists]|].
    intros g' Hg' [Htg' [e' He']]. by rewrite (Hpost g' Hg' Htg') in He'.
Qed.

Lemma processRules_getRules_witness :
  pods_match ∈ processRules (getRules [file_a; file_b]) apply_privileged pods_dataset.
Proof.
  apply (processRules_getRules [file_a; file_b] apply_privileged pods_dataset
           pods_match eq_refl).
  exists (<["20210508" := [privileged_row "1" true]]> ∅), "20210508",
    [privileged_row "1" true], file_a,
    {| tables := ["kubernetes_pods"];
       rules := <["privileged" := VStr "b1"]> (<["run_as_user" := VStr "b3"]> ∅) |},
    [], (VStr "b1"), (VBool true).
  split; [reflexivity|]. split; [reflexivity|]. split; [by left|].
  split; [reflexivity|]. split; [by left|]. split; [reflexivity|].
  split; [by intros g' ?%elem_of_nil|]. split; [reflexivity|].
  split; reflexivity.
Defined.

Lemma merged_rules_perm t (gs gs' : list group) :
  gs ≡ₚ gs' → compatible gs → merged_rules t ∅ gs = merged_rules t ∅ gs'.
Proof.
  intros Hperm Hc. apply map_eq. intros rn. rewrite !merged_rules_lookup.
  set (P := λ g : group, t ∈ tables g ∧ is_Some (rules g !! rn)).
  destruct (last (filter P gs)) as [g|] eqn:Hl;
    destruct (last (filter P gs')) as [g'|] eqn:Hl'.
  - apply last_Some_elem_of, list_elem_of_filter in Hl as [[Ht [e He]] Hin].
    apply last_Some_elem_of, list_elem_of_filter in Hl' as [[Ht' [e' He']] Hin'].
    rewrite He, He'. f_equal. eapply (Hc g g' t rn); eauto. by rewrite Hperm.
  - exfalso. apply last_Some_elem_of, list_elem_of_filter in Hl as [HP Hin].
    apply last_None in Hl'.
    assert (g ∈ filter P gs') as Hg by (apply list_elem_of_filter; by rewrite <- Hperm).
    rewrite Hl' in Hg. inversion Hg.
  - exfalso. apply last_Some_elem_of, list_elem_of_filter in Hl' as [HP Hin].
    apply last_None in Hl.
    assert (g' ∈ filter P gs) as Hg by (apply list_elem_of_filter; by rewrite Hperm).
    rewrite Hl in Hg. inversion Hg.
  - done.
Qed.

(** X9: when the groups name their tables by names of their own, no
    rule is named [__proto__], and no two groups give one table two
    different expressions under one rule name, the catalog does not depend
    on the order in which the rule files are read, nor on the order of the
    groups in a file. *)
Theorem getRules_order (files files' : list document) :
  forallb ordinary_group (concat files) = true →
  compatible (concat files) →
  files ≡ₚ files' ∨ concat files ≡ₚ concat files' →
  getRules files = getRules files'.
Proof.
  intros _ Hc Hperm.
  assert (concat files ≡ₚ concat files') as Hp.
  { destruct Hperm as [H|H]; [by rewrite H | done]. }
  apply map_eq. intros t. rewrite !getRules_lookup.
  assert (Exists (λ g, t ∈ tables g) (concat files)
          ↔ Exists (λ g, t ∈ tables g) (concat files')) as Hex.
  { rewrite !Exists_exists. by setoid_rewrite Hp. }
  rewrite (merged_rules_perm t _ _ Hp Hc).
  case_bool_decide as H1; case_bool_decide as H2; tauto.
Qed.

Lemma getRules_order_witness : getRules [file_a; file_c] = getRules [file_c; file_a].
Proof.
  apply (getRules_order [file_a; file_c] [file_c; file_a]).
  - reflexivity.
  - intros g1 g2 t rn e1 e2 Hg1 Hg2 Ht1 Ht2 He1 He2.
    apply elem_of_cons in Hg1 as [->|Hg1]; apply elem_of_cons in Hg2 as [->|Hg2];
      try apply list_elem_of_singleton in Hg1 as ->;
      try apply list_elem_of_singleton in Hg2 as ->;
      try congruence.
    + apply list_elem_of_singleton in Ht2 as ->.
      apply elem_of_cons in Ht1 as [Ht1|Ht1]; [done|].
      by apply list_elem_of_singleton in Ht1.
    + apply list_elem_of_singleton in Ht1 as ->.
      apply elem_of_cons in Ht2 as [Ht2|Ht2]; [done|].
      by apply list_elem_of_singleton in Ht2.
  - left. apply Permutation_swap.
Defined.

(** ** The list of secrets *)

(** X10: the list of enrollment secrets has one entry more than the
    configured text has commas, so it is never empty; every entry is
    trimmed, neither beginning nor ending with white space, and holds no
    comma; and [NODE_KEYS] holds the digests of the same entries in the
    same order. *)
Theorem ENROLL_SECRETS_shape (enrollSecrets : string) (sha256_hex : string → string) :
  length (ENROLL_SECRETS enrollSecrets) = S (count_char "," enrollSecrets)
  ∧ NODE_KEYS enrollSecrets sha256_hex = sha256_hex <$> ENROLL_SECRETS enrollSecrets
  ∧ ∀ secret, secret ∈ ENROLL_SECRETS enrollSecrets →
      trim secret = secret
      ∧ starts_clean secret = true
      ∧ starts_clean (rev_string secret EmptyString) = true
      ∧ all_chars (not_char ",") secret = true.
Proof.
  split; [|split].
  - unfold ENROLL_SECRETS, split. by rewrite length_map, length_split_go.
  - apply NODE_KEYS_digests.
  - intros secret Hin. unfold ENROLL_SECRETS in Hin.
    apply list_elem_of_In, in_map_iff in Hin as (piece & <- & Hin).
    destruct (trim_clean piece) as [H1 H2].
    split; [apply trim_idempotent|]. split; [done|]. split; [done|].
    apply all_chars_trim.
    pose proof (all_chars_split_go "," enrollSecrets EmptyString eq_refl) as Hall.
    rewrite Forall_forall in Hall. apply Hall. by apply list_elem_of_In.
Qed.

(** ** enroll and log: further properties *)

Lemma ENROLL_SECRETS_single s :
  all_chars (not_char ",") s = true → trim s = s → ENROLL_SECRETS s = [s].
Proof.
  intros Hc Ht. unfold ENROLL_SECRETS, split. rewrite split_go_no_sep by done.
  cbn [map rev_string]. change (EmptyString +:+ s) with s. by rewrite Ht.
Qed.

Lemma indexOf_single s v : (indexOf [s] v <? 0) = negb (strict_eq_str v s).
Proof. simpl. by destruct (strict_eq_str v s). Qed.

(** X11: with one secret configured (a text without comma that is not
    empty and has no white space around it), the later revision answers an
    enrollment as the earlier revision does, rejects a node key when the
    earlier one does, and, when [log_type] and [data] are truthy, takes
    the branch of [log] that the earlier one takes. *)
Theorem enroll_single_secret (secret : string)
    (sha256_hex : string → string) (JSON_stringify : value → string) :
  all_chars (not_char ",") secret = true → trim secret = secret →
  secret ≠ EmptyString → sha256_hex secret ≠ EmptyString →
  (∀ body, enroll secret sha256_hex JSON_stringify body
           = Ok (enroll_rev1 secret sha256_hex JSON_stringify body))
  ∧ (∀ body, log secret sha256_hex body = InvalidNodeKey
             ↔ log_rev1 secret sha256_hex body = InvalidNodeKey)
  ∧ (∀ body, truthy (default VUndef (body !! "log_type")) = true →
             truthy (default VUndef (body !! "data")) = true →
             log secret sha256_hex body = log_rev1 secret sha256_hex body).
Proof.
  intros Hc Ht Hne Hd.
  assert (Hkey : ∀ v, strict_eq_str v secret = true → truthy v = true).
  { intros v Hv. apply strict_eq_str_spec in Hv as ->. by apply truthy_string. }
  assert (Hdig : ∀ v, strict_eq_str v (sha256_hex secret) = true → truthy v = true).
  { intros v Hv. apply strict_eq_str_spec in Hv as ->. by apply truthy_string. }
  assert (Hlog : ∀ body : gmap string value,
    (negb (truthy (default VUndef (body !! "node_key")))
     || (indexOf (NODE_KEYS secret sha256_hex)
           (default VUndef (body !! "node_key")) <? 0))
    = negb (strict_eq_str (default VUndef (body !! "node_key"))
              (NODE_KEY secret sha256_hex))).
  { intros body. rewrite NODE_KEYS_digests, ENROLL_SECRETS_single by done.
    cbn [fmap list_fmap]. rewrite indexOf_single. unfold NODE_KEY.
    destruct (strict_eq_str _ (sha256_hex secret)) eqn:Hv.
    - by rewrite (Hdig _ Hv).
    - by rewrite orb_true_r. }
  split; [|split].
  - intros body. unfold enroll, enroll_rev1.
    rewrite ENROLL_SECRETS_single, indexOf_single by done.
    destruct (strict_eq_str (default VUndef (body !! "enroll_secret")) secret) eqn:Hv.
    + rewrite (Hkey _ Hv). simpl. apply strict_eq_str_spec in Hv as ->. done.
    + by rewrite orb_true_r.
  - intros body. unfold log, log_rev1. rewrite Hlog.
    destruct (strict_eq_str _ (NODE_KEY secret sha256_hex)); simpl; [|done].
    split; intros H; repeat case_match; done.
  - intros body Hty Hda. unfold log, log_rev1. rewrite Hlog, Hty, Hda. done.
Qed.

Lemma enroll_single_secret_witness :
  (∀ body, enroll "s3cret" digest_stand_in stringify_stand_in body
           = Ok (enroll_rev1 "s3cret" digest_stand_in stringify_stand_in body))
  ∧ (∀ body, log "s3cret" digest_stand_in body = InvalidNodeKey
             ↔ log_rev1 "s3cret" digest_stand_in body = InvalidNodeKey)
  ∧ (∀ body, truthy (default VUndef (body !! "log_type")) = true →
             truthy (default VUndef (body !! "data")) = true →
             log "s3cret" digest_stand_in body = log_rev1 "s3cret" digest_stand_in body).
Proof.
  apply (enroll_single_secret "s3cret" digest_stand_in stringify_stand_in);
    [reflexivity | reflexivity | discriminate | discriminate].
Defined.

(** [enroll] never throws, and answers with a node key only to a
    configured secret that is not empty. *)
Lemma enroll_only_configured (enrollSecrets : string)
    (sha256_hex : string → string) (JSON_stringify : value → string)
    (body : gmap string value) :
  ∃ r, enroll enrollSecrets sha256_hex JSON_stringify body = Ok r
       ∧ (r = ERROR
          ∨ ∃ s, body !! "enroll_secret" = Some (VStr s)
                 ∧ s ∈ ENROLL_SECRETS enrollSecrets
                 ∧ s ≠ EmptyString
                 ∧ r = node_key_response JSON_stringify (sha256_hex s)).
Proof.
  unfold enroll.
  destruct (truthy (default VUndef (body !! "enroll_secret"))) eqn:Ht;
    [|exists ERROR; split; [done | by left]].
  destruct (Z.ltb_spec (indexOf (ENROLL_SECRETS enrollSecrets)
                          (default VUndef (body !! "enroll_secret"))) 0) as [|Hge];
    [exists ERROR; split; [done | by left]|].
  apply indexOf_found in Hge as (s & Hin & Hs). rewrite Hs in Ht |- *.
  eexists. split; [done|]. right. exists s.
  split; [|split; [done|split; [by apply truthy_string | done]]].
  destruct (body !! "enroll_secret"); [by simplify_eq/= | done].
Qed.

(** The node-key check of [log] passes exactly for the digest of a
    configured secret, when that digest is not the empty text. *)
Lemma log_node_key enrollSecrets sha256_hex (fields : gmap string value) :
  log enrollSecrets sha256_hex fields ≠ InvalidNodeKey
  ↔ ∃ s, s ∈ ENROLL_SECRETS enrollSecrets
         ∧ fields !! "node_key" = Some (VStr (sha256_hex s))
         ∧ sha256_hex s ≠ EmptyString.
Proof.
  unfold log.
  destruct (truthy (default VUndef (fields !! "node_key"))) eqn:Ht; cbn [negb orb].
  - destruct (Z.ltb_spec (indexOf (NODE_KEYS enrollSecrets sha256_hex)
                            (default VUndef (fields !! "node_key"))) 0) as [Hlt|Hge].
    + split; [done|]. intros (s & Hin & Hk & _). exfalso.
      assert (0 <= indexOf (NODE_KEYS enrollSecrets sha256_hex)
                     (default VUndef (fields !! "node_key"))); [|lia].
      apply indexOf_found. exists (sha256_hex s). rewrite Hk. split; [|done].
      rewrite NODE_KEYS_digests. by apply list_elem_of_fmap_2.
    + split; [|intros _; repeat case_match; done]. intros _.
      apply indexOf_found in Hge as (k & Hin & Hk).
      rewrite NODE_KEYS_digests in Hin.
      apply list_elem_of_fmap in Hin as (s & -> & Hin).
      exists s. split; [done|]. rewrite Hk in Ht.
      apply truthy_string in Ht. split; [|done].
      destruct (fields !! "node_key"); [by simplify_eq/= | done].
  - split; [done|]. intros (s & _ & Hk & Hne). rewrite Hk in Ht. simpl in Ht.
    apply negb_false_iff, String.eqb_eq in Ht. done.
Qed.

(** X12: when the empty text is one of the configured secrets, as it is
    when ENROLL_SECRETS is unset or has an empty piece, [log] lets the
    digest of the empty text pass its node-key check, although [enroll]
    refuses the empty secret and so never hands that key out. *)
Theorem log_accepts_empty_digest (enrollSecrets : string)
    (sha256_hex : string → string) (JSON_stringify : value → string) :
  EmptyString ∈ ENROLL_SECRETS enrollSecrets →
  sha256_hex EmptyString ≠ EmptyString →
  (∀ body : gmap string value,
     body !! "node_key" = Some (VStr (sha256_hex EmptyString)) →
     log enrollSecrets sha256_hex body ≠ InvalidNodeKey)
  ∧ (∀ body : gmap string value,
       body !! "enroll_secret" = Some (VStr EmptyString) →
       enroll enrollSecrets sha256_hex JSON_stringify body = Ok ERROR).
Proof.
  intros Hin Hne. split.
  - intros body Hk. apply log_node_key. by exists EmptyString.
  - intros body Hs. unfold enroll. by rewrite Hs.
Qed.

Lemma log_accepts_empty_digest_witness :
  (∀ body : gmap string value,
     body !! "node_key" = Some (VStr (digest_stand_in EmptyString)) →
     log EmptyString digest_stand_in body ≠ InvalidNodeKey)
  ∧ (∀ body : gmap string value,
       body !! "enroll_secret" = Some (VStr EmptyString) →
       enroll EmptyString digest_stand_in stringify_stand_in body = Ok ERROR).
Proof.
  apply (log_accepts_empty_digest EmptyString digest_stand_in stringify_stand_in).
  - vm_compute. by left.
  - discriminate.
Defined.

(** ** handler *)

Lemma fields_of_raise body e :
  fields_of body = Raise e ↔ e = TypeError ∧ (body = VNull ∨ body = VUndef).
Proof.
  destruct body; simpl; split; try done; try (intros [= <-]; auto);
    try (by intros [_ [?|?]]); by intros [-> _].
Qed.

Lemma valid_path_spec p :
  negb (strict_eq_str p "/enroll") && negb (strict_eq_str p "/log") = false
  ↔ p = VStr "/enroll" ∨ p = VStr "/log".
Proof.
  rewrite <- !strict_eq_str_spec.
  destruct (strict_eq_str p "/enroll"), (strict_eq_str p "/log"); simpl; intuition.
Qed.

(** Up to the point where [log] has chosen its branch, [handler] throws
    exactly when the path is '/enroll' or '/log' and the body is a text
    that [JSON.parse] reads as [null]. *)
Lemma handler_raise_spec (JSON_parse : string → option value)
    (enrollSecrets : string) (sha256_hex : string → string)
    (JSON_stringify : value → string) (ev : event) (e : js_error) :
  handler JSON_parse enrollSecrets sha256_hex JSON_stringify ev = Raise e
  ↔ e = TypeError
    ∧ (event_path ev = VStr "/enroll" ∨ event_path ev = VStr "/log")
    ∧ truthy (event_body ev) = true
    ∧ ∃ parsed, parse_body JSON_parse (event_body ev) = Some parsed
                ∧ (parsed = VNull ∨ parsed = VUndef).
Proof.
  split.
  - unfold handler.
    destruct (negb (strict_eq_str (event_path ev) "/enroll")
              && negb (strict_eq_str (event_path ev) "/log")) eqn:Hp; [done|].
    apply valid_path_spec in Hp.
    destruct (truthy (event_body ev)); [|done]. cbn [negb].
    destruct (parse_body JSON_parse (event_body ev)) as [parsed|]; [|done].
    assert (Hf : fields_of parsed = Raise e →
                 e = TypeError
                 ∧ (event_path ev = VStr "/enroll" ∨ event_path ev = VStr "/log")
                 ∧ true = true
                 ∧ ∃ p, Some parsed = Some p ∧ (p = VNull ∨ p = VUndef)).
    { intros [-> H]%fields_of_raise. repeat (split; [done|]). by exists parsed. }
    destruct (fields_of parsed) as [fields|e'] eqn:Hfields.
    + rewrite !bind_Ok.
      destruct (enroll_only_configured enrollSecrets sha256_hex JSON_stringify fields)
        as (r & -> & _).
      rewrite bind_Ok. destruct (strict_eq_str (event_path ev) "/enroll"); intros [=].
    + rewrite !bind_Raise.
      destruct (strict_eq_str (event_path ev) "/enroll"); intros [= ->]; by apply Hf.
  - intros (-> & Hp & Ht & parsed & Hparse & Hnull).
    unfold handler. apply valid_path_spec in Hp. rewrite Hp, Ht, Hparse. cbn [negb].
    assert (fields_of parsed = Raise TypeError) as ->.
    { by apply fields_of_raise. }
    by destruct (strict_eq_str (event_path ev) "/enroll").
Qed.

(** X13: on the paths '/enroll' and '/log', a body that [JSON.parse]
    reads as [null] makes [handler] throw a TypeError instead of
    answering: [enroll] and [log] read a property of [null].  On '/enroll'
    that is the only way in which [handler] throws: a wrong path, an empty
    body, a body that does not parse and every other parsed body are
    answered. *)
Theorem handler_throws (JSON_parse : string → option value)
    (enrollSecrets : string) (sha256_hex : string → string)
    (JSON_stringify : value → string) (ev : event) :
  (event_path ev = VStr "/enroll" ∨ event_path ev = VStr "/log" →
   truthy (event_body ev) = true →
   parse_body JSON_parse (event_body ev) = Some VNull →
   handler JSON_parse enrollSecrets sha256_hex JSON_stringify ev = Raise TypeError)
  ∧ (event_path ev = VStr "/enroll" →
     ∀ e, handler JSON_parse enrollSecrets sha256_hex JSON_stringify ev = Raise e
          ↔ e = TypeError
            ∧ truthy (event_body ev) = true
            ∧ ∃ parsed, parse_body JSON_parse (event_body ev) = Some parsed
                        ∧ (parsed = VNull ∨ parsed = VUndef)).
Proof.
  split.
  - intros Hp Ht Hb. apply handler_raise_spec.
    split; [done|]. split; [done|]. split; [done|]. exists VNull. by split; [|left].
  - intros Hp e. rewrite handler_raise_spec. split.
    + intros (-> & _ & Ht & Hb). done.
    + intros (-> & Ht & Hb). split; [done|]. split; [by left | done].
Qed.

Lemma handler_throws_witness :
  handler JSON.parse "s3cret" digest_stand_in stringify_stand_in null_event
  = Raise TypeError.
Proof.
  apply (proj1 (handler_throws JSON.parse "s3cret" digest_stand_in
                  stringify_stand_in null_event)).
  - by left.
  - reflexivity.
  - vm_compute. reflexivity.
Defined.

(** X14: [handler] answers with anything but the error response exactly
    when the path is '/enroll' and the body parses to an object whose
    [enroll_secret] is a configured secret that is not empty; the answer is
    then status 200 with the serialized digest of that secret. *)
Theorem handler_enrolls (JSON_parse : string → option value)
    (enrollSecrets : string) (sha256_hex : string → string)
    (JSON_stringify : value → string) (ev : event) (r : response) :
  handler JSON_parse enrollSecrets sha256_hex JSON_stringify ev = Ok (inl r)
  ∧ r ≠ ERROR
  ↔ event_path ev = VStr "/enroll"
    ∧ truthy (event_body ev) = true
    ∧ ∃ fields s,
        parse_body JSON_parse (event_body ev) = Some (VObj fields)
        ∧ fields !! "enroll_secret" = Some (VStr s)
        ∧ s ∈ ENROLL_SECRETS enrollSecrets
        ∧ s ≠ EmptyString
        ∧ r = node_key_response JSON_stringify (sha256_hex s).
Proof.
  split.
  - intros [Hh Hr]. unfold handler in Hh.
    destruct (negb (strict_eq_str (event_path ev) "/enroll")
              && negb (strict_eq_str (event_path ev) "/log")); [by simplify_eq|].
    destruct (truthy (event_body ev)); cbn [negb] in Hh; [|by simplify_eq].
    destruct (parse_body JSON_parse (event_body ev)) as [parsed|]; [|by simplify_eq].
    destruct (strict_eq_str (event_path ev) "/enroll") eqn:Hp.
    + apply strict_eq_str_spec in Hp. split; [done|]. split; [done|].
      destruct (fields_of parsed) as [fields|] eqn:Hf; [|done]. rewrite bind_Ok in Hh.
      destruct (enroll_only_configured enrollSecrets sha256_hex JSON_stringify fields)
        as (r' & Hr' & Hcase).
      rewrite Hr', bind_Ok in Hh. injection Hh as ->.
      destruct Hcase as [->|(s & Hs & Hin & Hne & ->)]; [done|].
      destruct parsed; simplify_eq/=; try by rewrite lookup_empty in Hs.
      by exists fields, s.
    + destruct (fields_of parsed); [by rewrite bind_Ok in Hh | done].
  - intros (Hp & Ht & fields & s & Hparse & Hs & Hin & Hne & ->).
    split; [|done]. unfold handler. rewrite Hp, Ht, Hparse. simpl.
    unfold enroll. rewrite Hs. simpl default.
    rewrite (proj2 (truthy_string s) Hne). cbn [negb orb].
    destruct (Z.ltb_spec (indexOf (ENROLL_SECRETS enrollSecrets) (VStr s)) 0) as [Hlt|_];
      [|done].
    assert (0 <= indexOf (ENROLL_SECRETS enrollSecrets) (VStr s)); [|lia].
    apply indexOf_found. by exists s.
Qed.

Lemma handler_enrolls_witness :
  handler JSON.parse "s3cret, other" digest_stand_in stringify_stand_in enroll_event
  = Ok (inl (node_key_response stringify_stand_in (digest_stand_in "s3cret")))
  ∧ node_key_response stringify_stand_in (digest_stand_in "s3cret") ≠ ERROR.
Proof.
  apply (proj2 (handler_enrolls JSON.parse "s3cret, other" digest_stand_in
                  stringify_stand_in enroll_event
                  (node_key_response stringify_stand_in (digest_stand_in "s3cret")))).
  split; [reflexivity|]. split; [reflexivity|].
  exists (<["enroll_secret" := VStr "s3cret"]> ∅), "s3cret".
  split; [vm_compute; reflexivity|]. split; [reflexivity|].
  split; [vm_compute; by left|]. split; [discriminate | reflexivity].
Defined.

(** X15: [handler] hands a batch on to [logStatus] or to [parseResult]
    only for a request on '/log' whose body parses to an object that
    carries the digest of a configured secret as [node_key], the matching
    [log_type], and the batch as a truthy [data]. *)
Theorem handler_authenticates (JSON_parse : string → option value)
    (enrollSecrets : string) (sha256_hex : string → string)
    (JSON_stringify : value → string) (ev : event) (b : log_branch) :
  handler JSON_parse enrollSecrets sha256_hex JSON_stringify ev = Ok (inr b) →
  b ≠ InvalidNodeKey →
  event_path ev = VStr "/log"
  ∧ ∃ fields s,
      parse_body JSON_parse (event_body ev) = Some (VObj fields)
      ∧ s ∈ ENROLL_SECRETS enrollSecrets
      ∧ fields !! "node_key" = Some (VStr (sha256_hex s))
      ∧ b = log enrollSecrets sha256_hex fields
      ∧ (∀ data, b = Status data →
           fields !! "log_type" = Some (VStr "status")
           ∧ fields !! "data" = Some data ∧ truthy data = true)
      ∧ (∀ data, b = Results data →
           fields !! "log_type" = Some (VStr "result")
           ∧ fields !! "data" = Some data ∧ truthy data = true).
Proof.
  intros Hh Hb. unfold handler in Hh.
  destruct (negb (strict_eq_str (event_path ev) "/enroll")
            && negb (strict_eq_str (event_path ev) "/log")) eqn:Hp; [by simplify_eq|].
  destruct (truthy (event_body ev)); cbn [negb] in Hh; [|by simplify_eq].
  destruct (parse_body JSON_parse (event_body ev)) as [parsed|]; [|by simplify_eq].
  apply valid_path_spec in Hp.
  destruct (strict_eq_str (event_path ev) "/enroll") eqn:He.
  { destruct (fields_of parsed) as [fields|]; [|done]. rewrite bind_Ok in Hh.
    destruct (enroll_only_configured enrollSecrets sha256_hex JSON_stringify fields)
      as (r' & Hr' & _).
    by rewrite Hr', bind_Ok in Hh. }
  destruct Hp as [Hp|Hp]; [by rewrite Hp in He|]. split; [done|].
  destruct (fields_of parsed) as [fields|] eqn:Hf; [|done]. rewrite bind_Ok in Hh.
  injection Hh as <-.
  destruct (proj1 (log_node_key _ _ _) Hb) as (s & Hin & Hk & Hne).
  assert (parsed = VObj fields) as ->.
  { destruct parsed; simplify_eq/=; try by rewrite lookup_empty in Hk. done. }
  exists fields, s. repeat (split; [done|]).
  assert (Hbranch : ∀ data,
    (log enrollSecrets sha256_hex fields = Status data →
     fields !! "log_type" = Some (VStr "status")
     ∧ fields !! "data" = Some data ∧ truthy data = true)
    ∧ (log enrollSecrets sha256_hex fields = Results data →
       fields !! "log_type" = Some (VStr "result")
       ∧ fields !! "data" = Some data ∧ truthy data = true)).
  { intros data. unfold log.
    destruct (negb (truthy (default VUndef (fields !! "node_key")))
              || (indexOf (NODE_KEYS enrollSecrets sha256_hex)
                    (default VUndef (fields !! "node_key")) <? 0)); [done|].
    destruct (truthy (default VUndef (fields !! "log_type"))) eqn:Hty; [|done].
    destruct (truthy (default VUndef (fields !! "data"))) eqn:Hda; [|done].
    cbn [negb orb].
    destruct (fields !! "data") as [d|] eqn:Hdata; [|done]. simpl in Hda |- *.
    destruct (strict_eq_str (default VUndef (fields !! "log_type")) "status") eqn:H1.
    { apply strict_eq_str_spec in H1.
      destruct (fields !! "log_type"); [|done]. simpl in H1. subst.
      split; [by intros [= ->] | done]. }
    destruct (strict_eq_str (default VUndef (fields !! "log_type")) "snapshot") eqn:H2;
      [done|].
    destruct (strict_eq_str (default VUndef (fields !! "log_type")) "result") eqn:H3;
      [|done].
    apply strict_eq_str_spec in H3.
    destruct (fields !! "log_type"); [|done]. simpl in H3. subst.
    split; [done | by intros [= ->]]. }
  split; intros data; apply Hbranch.
Qed.

Lemma handler_authenticates_witness :
  event_path log_event = VStr "/log"
  ∧ ∃ fields s,
      parse_body JSON.parse (event_body log_event) = Some (VObj fields)
      ∧ s ∈ ENROLL_SECRETS "s3cret"
      ∧ fields !! "node_key" = Some (VStr (digest_stand_in s))
      ∧ Results (VArr [VNum 1]) = log "s3cret" digest_stand_in fields
      ∧ (∀ data, Results (VArr [VNum 1]) = Status data →
           fields !! "log_type" = Some (VStr "status")
           ∧ fields !! "data" = Some data ∧ truthy data = true)
      ∧ (∀ data, Results (VArr [VNum 1]) = Results data →
           fields !! "log_type" = Some (VStr "result")
           ∧ fields !! "data" = Some data ∧ truthy data = true).
Proof.
  apply (handler_authenticates JSON.parse "s3cret" digest_stand_in
           stringify_stand_in log_event (Results (VArr [VNum 1]))).
  - vm_compute. reflexivity.
  - discriminate.
Defined.

(** ** logStatus *)

Lemma to_string_array l : to_string (VArr l) = join_elements l.
Proof. reflexivity. Qed.

(** The conversion to a string throws nothing but a TypeError. *)
Lemma to_string_error v e : to_string v = Raise e → e = TypeError.
Proof.
  revert v e. fix IH 1. intros [| |b|z| |s|l|m] e; try done.
  - rewrite to_string_array. revert l e.
    fix IHl 1. intros [|x l] e; [done|].
    cbn [join_elements].
    pose proof (IH x) as Hx. pose proof (IHl l) as Hl.
    destruct (element_string x) as [sx|ex] eqn:Hsx.
    + rewrite bind_Ok. destruct l as [|y l]; [done|].
      destruct (join_elements (y :: l)) as [r|er] eqn:Hj.
      * by rewrite bind_Ok.
      * rewrite bind_Raise. intros [= <-]. by apply Hl.
    + rewrite bind_Raise. intros [= <-]. apply Hx.
      destruct x; done.
  - simpl. case_decide; [by intros [= <-] | done].
Qed.

Lemma field_error row k e : field row k = Raise e → e = TypeError.
Proof. destruct row; simpl; congruence. Qed.

Lemma status_message_error row e : status_message row = Raise e → e = TypeError.
Proof.
  unfold status_message.
  repeat match goal with
  | |- context [field row ?k] =>
      let Hf := fresh "Hf" in
      destruct (field row k) as [?|?] eqn:Hf;
      [rewrite bind_Ok | rewrite !bind_Raise; intros [= <-]; by eapply field_error]
  | |- context [to_string ?v] =>
      let Ht := fresh "Ht" in
      destruct (to_string v) as [?|?] eqn:Ht;
      [rewrite bind_Ok | rewrite !bind_Raise; intros [= <-]; by eapply to_string_error]
  end.
  done.
Qed.

Lemma log_status_row_logs_as hw row call :
  logs_as row call → log_status_row hw row = Ok call.
Proof.
  intros (_ & msg & sev & Hm & Hs & Hne & ->). unfold log_status_row.
  rewrite Hm, bind_Ok, Hs, bind_Ok.
  destruct (strict_eq_str sev "0"); [done|].
  destruct (strict_eq_str sev "1") eqn:H1; [|done].
  by apply strict_eq_str_spec in H1.
Qed.

Lemma log_status_row_warning row :
  field row "severity" = Ok (VStr "1") → log_status_row false row = Raise TypeError.
Proof.
  intros Hs. unfold log_status_row.
  destruct (status_message row) as [msg|e] eqn:Hm.
  - rewrite bind_Ok, Hs, bind_Ok. done.
  - rewrite bind_Raise. f_equal. by eapply status_message_error.
Qed.

Lemma logStatus_rows_ok hw rows calls :
  Forall2 logs_as rows calls → logStatus_rows hw rows = (calls, None).
Proof.
  induction 1 as [|row call rows calls Hrow _ IH]; [done|].
  cbn [logStatus_rows]. rewrite (log_status_row_logs_as hw _ _ Hrow), IH. done.
Qed.

Lemma logStatus_rows_stop hw pre calls row e post :
  Forall2 logs_as pre calls → log_status_row hw row = Raise e →
  logStatus_rows hw (pre ++ row :: post) = (calls, Some e).
Proof.
  intros Hpre Hrow. induction Hpre as [|r c pre calls Hr _ IH].
  - simpl. by rewrite Hrow.
  - cbn [app logStatus_rows]. rewrite (log_status_row_logs_as hw _ _ Hr), IH. done.
Qed.

(** X16: on an array of rows whose fields print, holding no number above
    2^53 in magnitude, and whose severity is not '1', [logStatus] writes
    one line per row, in order, with
    [console.info] for severity '0' and [console.error] for every other,
    and returns.  On a console without a method [warning], as that of
    Node.js, the first row of severity '1' ends the call with a TypeError:
    the rows before it have been written, the rows after it are not. *)
Theorem logStatus_lines (console_has_warning : bool) :
  (∀ rows calls, Forall2 logs_as rows calls →
     logStatus console_has_warning (VArr rows) = (calls, None))
  ∧ (console_has_warning = false →
     ∀ pre calls row post,
       Forall2 logs_as pre calls →
       field row "severity" = Ok (VStr "1") →
       logStatus console_has_warning (VArr (pre ++ row :: post))
       = (calls, Some TypeError)).
Proof.
  split.
  - intros rows calls H. by apply logStatus_rows_ok.
  - intros -> pre calls row post Hpre Hs.
    apply logStatus_rows_stop; [done|]. by apply log_status_row_warning.
Qed.

Lemma logStatus_lines_witness :
  logStatus false (VArr sample_status)
  = ([ console_info "Sat May  8 00:44:15 2021 UTC scheduler.cpp:105 Executing query";
       console_error "Sat May  8 00:44:16 2021 UTC tls.cpp:253 Request failed" ],
     Some TypeError).
Proof.
  apply (proj2 (logStatus_lines false) eq_refl
           [ status_row "Sat May  8 00:44:15 2021 UTC" "scheduler.cpp" (VNum 105)
               "Executing query" "0";
             status_row "Sat May  8 00:44:16 2021 UTC" "tls.cpp" (VStr "253")
               "Request failed" "2" ]
           _
           (status_row "Sat May  8 00:44:17 2021 UTC" "tls.cpp" (VStr "260")
              "Retrying" "1")
           [ VObj (<["severity" := VStr "0"]> ∅) ]).
  - constructor; [|constructor; [|constructor]].
    + split; [reflexivity|].
      exists "Sat May  8 00:44:15 2021 UTC scheduler.cpp:105 Executing query", (VStr "0").
      split; [vm_compute; reflexivity|]. split; [reflexivity|]. split; [discriminate|].
      reflexivity.
    + split; [reflexivity|].
      exists "Sat May  8 00:44:16 2021 UTC tls.cpp:253 Request failed", (VStr "2").
      split; [vm_compute; reflexivity|]. split; [reflexivity|]. split; [discriminate|].
      reflexivity.
  - reflexivity.
Defined.

(** ** uploadToS3 *)

Lemma foldl_append {A} (f : A → string) (l : list A) acc :
  foldl (λ Body row, Body +:+ f row) acc l
  = acc +:+ foldr (λ row s, f row +:+ s) EmptyString l.
Proof.
  revert acc. induction l as [|x l IH]; intros acc; simpl.
  - by rewrite append_nil_r.
  - by rewrite IH, append_assoc.
Qed.

Section UploaderFacts.
Variable JSON_stringify : value → string.

Lemma object_body_lines rows :
  object_body JSON_stringify rows
  = foldr (λ row s, (JSON_stringify (VObj row) +:+ newline) +:+ s) EmptyString rows.
Proof. unfold object_body. by rewrite foldl_append. Qed.

Lemma split_object_body rows :
  (∀ v, all_chars (not_char "010") (JSON_stringify v) = true) →
  split "010" (object_body JSON_stringify rows)
  = ((λ row, JSON_stringify (VObj row)) <$> rows) ++ [EmptyString].
Proof.
  intros Hnl. rewrite object_body_lines. unfold split.
  induction rows as [|row rows IH]; [done|].
  cbn [foldr]. rewrite append_assoc. unfold newline at 1.
  rewrite append_cons. change (EmptyString +:+ ?s) with s.
  rewrite split_go_line by done. cbn [rev_string fmap list_fmap app].
  change (EmptyString +:+ ?s) with s. f_equal. exact IH.
Qed.

Lemma count_object_body rows :
  (∀ v, all_chars (not_char "010") (JSON_stringify v) = true) →
  count_char "010" (object_body JSON_stringify rows) = length rows.
Proof.
  intros Hnl. rewrite object_body_lines.
  induction rows as [|row rows IH]; [done|].
  cbn [foldr length]. rewrite !count_char_append, IH, count_char_none by done.
  done.
Qed.
End UploaderFacts.

Lemma elem_of_buckets_of (data : tables_t) t d rows :
  (t, d, rows) ∈ buckets_of data
  ↔ ∃ parts, data !! t = Some parts ∧ parts !! d = Some rows.
Proof.
  unfold buckets_of. rewrite list_elem_of_bind. split.
  - intros ([t' parts] & Hin & Ht). simpl in Hin.
    apply list_elem_of_fmap in Hin as ([d' rows'] & [= -> -> ->] & Hd).
    apply elem_of_map_to_list in Ht, Hd. by exists parts.
  - intros (parts & Ht & Hd). exists (t, parts). split.
    + simpl. apply list_elem_of_fmap. exists (d, rows).
      split; [done | by apply elem_of_map_to_list].
    + by apply elem_of_map_to_list.
Qed.

(** A table and a day name one bucket. *)
Lemma NoDup_buckets_of (data : tables_t) : NoDup ((λ b, b.1) <$> buckets_of data).
Proof.
  apply NoDup_fmap_2_strong.
  - intros [[t d] rows] [[t' d'] rows'] H1 H2 [= <- <-].
    apply elem_of_buckets_of in H1 as (parts & Ht & Hd).
    apply elem_of_buckets_of in H2 as (parts' & Ht' & Hd').
    by simplify_eq.
  - unfold buckets_of. apply NoDup_bind.
    + intros [t parts] [t' parts'] [[t0 d] rows] H1 H2 Hin1 Hin2. simpl in *.
      apply list_elem_of_fmap in Hin1 as ([d1 r1] & [= -> -> ->] & _).
      apply list_elem_of_fmap in Hin2 as ([d2 r2] & [= -> -> ->] & _).
      apply elem_of_map_to_list in H1, H2. by simplify_eq.
    + intros [t parts] _. simpl. apply NoDup_fmap_2_strong; [|apply NoDup_map_to_list].
      intros [d1 r1] [d2 r2] _ _ [= -> ->]. done.
    + apply NoDup_map_to_list.
Qed.

Lemma sum_list_with_bind {A B} (f : B → nat) (g : A → list B) (l : list A) :
  sum_list_with f (l ≫= g) = sum_list_with (λ x, sum_list_with f (g x)) l.
Proof.
  induction l as [|x l IH]; [done|].
  rewrite bind_cons, sum_list_with_app, IH. done.
Qed.

Lemma sum_list_with_fmap {A B} (f : B → nat) (h : A → B) (l : list A) :
  sum_list_with f (h <$> l) = sum_list_with (f ∘ h) l.
Proof.
  induction l as [|x l IH]; [done|].
  rewrite fmap_cons. cbn [sum_list_with]. by rewrite IH.
Qed.

Lemma total_rows_buckets_of (data : tables_t) :
  total_rows data = sum_list_with (λ b, length b.2) (buckets_of data).
Proof.
  unfold total_rows, sum_sizes, buckets_of. rewrite sum_list_with_bind.
  induction (map_to_list data) as [|[t parts] l IH]; [done|].
  cbn [sum_list_with]. rewrite IH, sum_list_with_fmap. done.
Qed.

(** X17: [uploadToS3] builds one request for each day-bucket of each
    table; its key is the table name, [/day=], the day key, [/], an
    identifier and [.json]; and, [JSON.stringify] writing no line break,
    its body cut at the line breaks gives back the serialized rows of the
    bucket, one per line and in order, each line ended. *)
Theorem uploadToS3_objects (JSON_stringify : value → string)
    (random_id : nat → string) (data : tables_t) :
  (∀ v, all_chars (not_char "010") (JSON_stringify v) = true) →
  (∀ t d rows, (t, d, rows) ∈ buckets_of data
               ↔ ∃ parts, data !! t = Some parts ∧ parts !! d = Some rows)
  ∧ NoDup ((λ b, b.1) <$> buckets_of data)
  ∧ Forall2 (λ b req,
       (∃ id, Key req = b.1.1 +:+ "/day=" +:+ b.1.2 +:+ "/" +:+ id +:+ ".json")
       ∧ split "010" (Body req)
         = ((λ row, JSON_stringify (VObj row)) <$> b.2) ++ [EmptyString])
      (buckets_of data) (uploadToS3 JSON_stringify random_id data).
Proof.
  intros Hnl. split; [apply elem_of_buckets_of|]. split; [apply NoDup_buckets_of|].
  unfold uploadToS3. apply Forall2_same_length_lookup. split.
  - by rewrite length_imap.
  - intros i b req Hb Hreq. rewrite list_lookup_imap, Hb in Hreq.
    injection Hreq as <-. simpl. split; [by eexists|]. by apply split_object_body.
Qed.

Lemma uploadToS3_objects_witness :
  (∀ t d rows, (t, d, rows) ∈ buckets_of sample_dataset
               ↔ ∃ parts, sample_dataset !! t = Some parts ∧ parts !! d = Some rows)
  ∧ NoDup ((λ b, b.1) <$> buckets_of sample_dataset)
  ∧ Forall2 (λ b req,
       (∃ id, Key req = b.1.1 +:+ "/day=" +:+ b.1.2 +:+ "/" +:+ id +:+ ".json")
       ∧ split "010" (Body req)
         = ((λ row, compact_stand_in (VObj row)) <$> b.2) ++ [EmptyString])
      (buckets_of sample_dataset)
      (uploadToS3 compact_stand_in id_stand_in sample_dataset).
Proof.
  apply (uploadToS3_objects compact_stand_in id_stand_in sample_dataset).
  intros v. reflexivity.
Defined.

(** X18: the objects that [uploadToS3] builds from the dataset that
    [parseResult] returns for records with names of their own and plain
    timestamps hold, [JSON.stringify] writing no line break, as many lines
    as the batch has records; no object is empty, and there are no more
    objects than records. *)
Theorem uploadToS3_lines (JSON_parse : string → option value)
    (JSON_stringify : value → string) (random_id : nat → string)
    (data : list record) (tables : tables_t) :
  forallb ordinary_record data = true →
  (∀ v, all_chars (not_char "010") (JSON_stringify v) = true) →
  parseResult JSON_parse data = Ok tables →
  sum_list_with (λ req, count_char "010" (Body req))
    (uploadToS3 JSON_stringify random_id tables) = length data
  ∧ Forall (λ req, Body req ≠ EmptyString) (uploadToS3 JSON_stringify random_id tables)
  ∧ (length (uploadToS3 JSON_stringify random_id tables) <= length data)%nat.
Proof.
  intros _ Hnl Hp.
  destruct (parseResult_from_ok _ _ _ _ Hp) as (_ & Hn & Hne).
  rewrite total_rows_empty in Hn. simpl in Hn.
  specialize (Hne buckets_nonempty_empty).
  rewrite total_rows_buckets_of in Hn.
  assert (Hrows : ∀ b, b ∈ buckets_of tables → b.2 ≠ []).
  { intros [[t d] rows] (parts & Ht & Hd)%elem_of_buckets_of. by eapply Hne. }
  unfold uploadToS3. revert Hn Hrows. generalize (length data) as n.
  generalize random_id as ids.
  induction (buckets_of tables) as [|b l IH]; intros ids n Hn Hrows.
  - simpl in *. subst. split; [done|]. split; [constructor | done].
  - rewrite imap_cons. cbn [sum_list_with] in Hn |- *. simpl Body.
    destruct (IH (ids ∘ S) (n - length b.2)%nat) as (IH1 & IH2 & IH3).
    { lia. } { intros b' Hb'. apply Hrows. by right. }
    assert (Hb : b.2 ≠ []) by (apply Hrows; by left).
    rewrite count_object_body by done.
    change (imap ((λ i b0, {| Key := object_key b0.1.1 b0.1.2 (ids i);
                              Body := object_body JSON_stringify b0.2 |}) ∘ S) l)
      with (imap (λ i b0, {| Key := object_key b0.1.1 b0.1.2 ((ids ∘ S) i);
                              Body := object_body JSON_stringify b0.2 |}) l).
    split; [|split].
    + rewrite IH1. lia.
    + constructor; [|exact IH2].
      simpl. intros Hempty.
      apply (f_equal (count_char "010")) in Hempty.
      rewrite count_object_body in Hempty by done.
      destruct b.2; done.
    + cbn [length]. destruct b.2; [done|]. cbn [length] in Hn, IH3. lia.
Qed.

Lemma uploadToS3_lines_witness :
  sum_list_with (λ req, count_char "010" (Body req))
    (uploadToS3 compact_stand_in id_stand_in sample_tables) = 3%nat
  ∧ Forall (λ req, Body req ≠ EmptyString)
      (uploadToS3 compact_stand_in id_stand_in sample_tables)
  ∧ (length (uploadToS3 compact_stand_in id_stand_in sample_tables) <= 3)%nat.
Proof.
  apply (uploadToS3_lines JSON.parse compact_stand_in id_stand_in
           sample_batch sample_tables).
  - reflexivity.
  - intros v. reflexivity.
  - apply sample_tables_returned.
Defined.

Lemma no_slash_append a b : no_slash (a +:+ b) = no_slash a && no_slash b.
Proof. apply all_chars_append. Qed.

(** A text is cut in one way at its last slash. *)
Lemma append_slash_inj a b a' b' :
  no_slash b = true → no_slash b' = true →
  a +:+ String "/" b = a' +:+ String "/" b' → a = a' ∧ b = b'.
Proof.
  intros Hb Hb'. revert a'. induction a as [|c a IH]; intros [|c' a'] Heq.
  - by injection Heq.
  - exfalso. change (EmptyString +:+ ?s) with s in Heq. rewrite append_cons in Heq.
    injection Heq as _ ->. rewrite no_slash_append in Hb.
    apply andb_true_iff in Hb as [_ Hb]. done.
  - exfalso. change (EmptyString +:+ ?s) with s in Heq. rewrite append_cons in Heq.
    injection Heq as _ <-. rewrite no_slash_append in Hb'.
    apply andb_true_iff in Hb' as [_ Hb']. done.
  - rewrite !append_cons in Heq. injection Heq as -> Heq.
    destruct (IH _ Heq) as [-> ->]. done.
Qed.

(** A key tells its table, its day and its identifier. *)
Lemma object_key_inj t d id t' d' id' :
  no_slash d = true → no_slash d' = true →
  no_slash id = true → no_slash id' = true →
  object_key t d id = object_key t' d' id' → t = t' ∧ d = d' ∧ id = id'.
Proof.
  intros Hd Hd' Hi Hi' Heq. unfold object_key in Heq.
  change "/day=" with ("/" +:+ "day=") in Heq.
  assert (Hcut : ∀ t d id,
    t +:+ ("/" +:+ "day=") +:+ d +:+ "/" +:+ id +:+ ".json"
    = (t +:+ String "/" ("day=" +:+ d)) +:+ String "/" (id +:+ ".json")).
  { intros. rewrite !append_assoc. reflexivity. }
  rewrite !Hcut in Heq.
  apply append_slash_inj in Heq as [Heq Hid];
    [|rewrite no_slash_append; by rewrite ?Hi, ?Hi'..].
  apply append_inj_length in Hid as [-> _]; [|done].
  apply append_slash_inj in Heq as [-> Hday];
    [|rewrite no_slash_append; by rewrite ?Hd, ?Hd'..].
  by injection Hday.
Qed.

Lemma digit_no_slash c : is_digit c = true → not_char "/" c = true.
Proof.
  unfold is_digit, not_char. intros [H1 _]%andb_true_iff. apply Nat.leb_le in H1.
  apply negb_true_iff, Ascii.eqb_neq. intros ->.
  change (nat_of_ascii "/") with 47%nat in H1. lia.
Qed.

Lemma number_to_string_no_slash n : no_slash (number_to_string n) = true.
Proof.
  destruct n as [z|]; [|done]. unfold number_to_string, no_slash.
  assert (Hd : ∀ k, all_chars (not_char "/") (digits k) = true).
  { intros k. eapply all_chars_impl; [apply digit_no_slash | apply all_digits_digits]. }
  destruct (z <? 0); [|done].
  change ("-" +:+ digits (- z)) with (String "-" (digits (- z))).
  simpl. apply Hd.
Qed.

(** No day key holds a slash. *)
Lemma getDay_no_slash v : no_slash (getDay v) = true.
Proof.
  unfold getDay. rewrite !no_slash_append.
  repeat match goal with
  | |- context [if ?b then _ else _] => destruct b
  end; rewrite ?no_slash_append, !number_to_string_no_slash; done.
Qed.

(** X19: the objects that [uploadToS3] builds from the dataset of
    [parseResult] have keys that differ from one another, whatever the
    table names are and even when identifiers repeat, as long as no
    identifier holds a slash: no object of a call overwrites another. *)
Theorem uploadToS3_keys_distinct (JSON_parse : string → option value)
    (JSON_stringify : value → string) (random_id : nat → string)
    (data : list record) (tables : tables_t) :
  (∀ n, no_slash (random_id n) = true) →
  parseResult JSON_parse data = Ok tables →
  NoDup (Key <$> uploadToS3 JSON_stringify random_id tables).
Proof.
  intros Hid Hp. apply NoDup_alt. intros i j k Hi Hj.
  unfold uploadToS3 in Hi, Hj.
  rewrite list_lookup_fmap, list_lookup_imap in Hi, Hj.
  destruct (buckets_of tables !! i) as [[[t d] rows]|] eqn:Hbi; [|done].
  destruct (buckets_of tables !! j) as [[[t' d'] rows']|] eqn:Hbj; [|done].
  simpl in Hi, Hj. injection Hi as Hi. injection Hj as Hj. rewrite <- Hj in Hi.
  assert (Hday : ∀ i t d rows, buckets_of tables !! i = Some (t, d, rows) →
                 no_slash d = true).
  { intros i0 t0 d0 rows0 Hb.
    apply list_elem_of_lookup_2, elem_of_buckets_of in Hb as (parts & Ht & Hd).
    destruct (parseResult_days _ _ _ _ _ _ _ Hp Ht Hd) as (r & _ & _ & <-).
    apply getDay_no_slash. }
  apply object_key_inj in Hi as (-> & -> & _); eauto.
  eapply (proj1 (NoDup_alt _) (NoDup_buckets_of tables) i j (t', d')).
  - by rewrite list_lookup_fmap, Hbi.
  - by rewrite list_lookup_fmap, Hbj.
Qed.

Lemma uploadToS3_keys_distinct_witness :
  NoDup (Key <$> uploadToS3 compact_stand_in id_stand_in sample_tables).
Proof.
  apply (uploadToS3_keys_distinct JSON.parse compact_stand_in id_stand_in
           sample_batch sample_tables).
  - intros n. reflexivity.
  - apply sample_tables_returned.
Defined.

(** ** The retry loops *)

Ltac below_three j :=
  let Hc := fresh "Hc" in
  assert (Hc : j = 0%nat ∨ j = 1%nat ∨ j = 2%nat) by lia;
  destruct Hc as [->|[->| ->]].

Ltac use_turns Hall :=
  try (pose proof (Hall 0%nat ltac:(lia)));
  try (pose proof (Hall 1%nat ltac:(lia)));
  try (pose proof (Hall 2%nat ltac:(lia))).

Ltac member_cases H :=
  rewrite ?elem_of_cons, ?elem_of_nil in H;
  destruct_or?; try done; simplify_eq.

Ltac loop_cases resolves :=
  cbn [put_loop put_loop_rev1 publish_loop Nat.eqb app];
  destruct (resolves 0%nat) eqn:?, (resolves 1%nat) eqn:?, (resolves 2%nat) eqn:?;
  cbn [app].

Lemma put_loop_calls resolves i :
  call_made i ∈ put_loop resolves 0 3
  ↔ (i < 3)%nat ∧ ∀ j, (j < i)%nat → resolves j = false.
Proof.
  loop_cases resolves; split.
  all: try (intros H; member_cases H; (split; [lia|]); intros j Hj; below_three j;
            (done || (exfalso; lia))).
  all: intros [Hi Hall]; below_three i; use_turns Hall; try congruence;
    rewrite ?elem_of_cons; tauto.
Qed.

Lemma put_loop_errors resolves i :
  error_logged i ∈ put_loop resolves 0 3
  ↔ i = 2%nat ∧ ∀ j, (j < 3)%nat → resolves j = false.
Proof.
  loop_cases resolves; split.
  all: try (intros H; member_cases H; (split; [lia|]); intros j Hj; below_three j;
            (done || (exfalso; lia))).
  all: intros [-> Hall]; use_turns Hall; try congruence;
    rewrite ?elem_of_cons; tauto.
Qed.

Lemma put_loop_rev1_errors resolves i :
  error_logged i ∈ put_loop_rev1 resolves 0 3
  ↔ (i < 3)%nat ∧ ∀ j, (j <= i)%nat → resolves j = false.
Proof.
  loop_cases resolves; split.
  all: try (intros H; member_cases H; (split; [lia|]); intros j Hj; below_three j;
            (done || (exfalso; lia))).
  all: intros [Hi Hall]; below_three i; use_turns Hall; try congruence;
    rewrite ?elem_of_cons; tauto.
Qed.

Lemma publish_loop_calls resolves i :
  call_made i ∈ publish_loop resolves 0 3 ↔ (i < 3)%nat.
Proof.
  loop_cases resolves; split.
  all: try (intros H; member_cases H; lia).
  all: intros Hi; below_three i; rewrite ?elem_of_cons; tauto.
Qed.

Lemma publish_loop_errors resolves i :
  error_logged i ∈ publish_loop resolves 0 3 ↔ i = 2%nat ∧ resolves 2%nat = false.
Proof.
  loop_cases resolves; split.
  all: try (intros H; member_cases H; done).
  all: intros [-> ?]; try congruence; rewrite ?elem_of_cons; tauto.
Qed.

(** X20: whatever the outcomes of the calls are, the loop of
    [uploadToS3] calls [s3.putObject] again only after a failure, three
    times at most, and never after a success; it reports an error only
    when all three calls fail (the earlier revision reports every
    failure).  The loop of [processRules], which has no [break], calls
    [sns.publish] three times for every match, also after a success, and
    reports an error exactly when the third call fails. *)
Theorem retry_loops (resolves : nat → bool) :
  (∀ i, call_made i ∈ put_loop resolves 0 3
        ↔ (i < 3)%nat ∧ ∀ j, (j < i)%nat → resolves j = false)
  ∧ (∀ i, error_logged i ∈ put_loop resolves 0 3
          ↔ i = 2%nat ∧ ∀ j, (j < 3)%nat → resolves j = false)
  ∧ (∀ i, call_made i ∈ put_loop_rev1 resolves 0 3
          ↔ call_made i ∈ put_loop resolves 0 3)
  ∧ (∀ i, error_logged i ∈ put_loop_rev1 resolves 0 3
          ↔ (i < 3)%nat ∧ ∀ j, (j <= i)%nat → resolves j = false)
  ∧ (∀ i, call_made i ∈ publish_loop resolves 0 3 ↔ (i < 3)%nat)
  ∧ (∀ i, error_logged i ∈ publish_loop resolves 0 3
          ↔ i = 2%nat ∧ resolves 2%nat = false).
Proof.
  split; [apply put_loop_calls|]. split; [apply put_loop_errors|].
  split; [|split; [apply put_loop_rev1_errors|
                   split; [apply publish_loop_calls | apply publish_loop_errors]]].
  intros i. loop_cases resolves; rewrite ?elem_of_cons, ?elem_of_nil;
    split; intros H; destruct_or?; simplify_eq; tauto.
Qed.

(** ** The order of the partition keys *)

Lemma compare_append a1 a2 b1 b2 :
  String.length a1 = String.length a2 →
  String.compare (a1 +:+ b1) (a2 +:+ b2)
  = match String.compare a1 a2 with
    | Eq => String.compare b1 b2
    | c => c
    end.
Proof.
  revert a2. induction a1 as [|c a1 IH]; intros [|c' a2] Hlen; try done.
  rewrite !append_cons. cbn [String.compare].
  destruct (Ascii.compare c c'); try done. apply IH. by injection Hlen.
Qed.

Lemma compare_digit_char a b :
  0 <= a <= 9 → 0 <= b <= 9 → Ascii.compare (digit_char a) (digit_char b) = (a ?= b).
Proof.
  intros Ha Hb. unfold Ascii.compare, digit_char, ascii_of_nat.
  rewrite !N_ascii_embedding by lia.
  destruct (Z.compare_spec a b), (N.compare_spec (N.of_nat (48 + Z.to_nat a))
                                    (N.of_nat (48 + Z.to_nat b))); try done; lia.
Qed.

Lemma compare_two_digits a b :
  String.compare (two_digits a) (two_digits b) = (a mod 100 ?= b mod 100).
Proof.
  unfold two_digits. cbn [String.compare].
  rewrite !compare_digit_char by (Z.div_mod_to_equations; lia).
  destruct (Z.compare_spec (a / 10 mod 10) (b / 10 mod 10)),
    (Z.compare_spec (a mod 10) (b mod 10)), (Z.compare_spec (a mod 100) (b mod 100));
    try done; exfalso; Z.div_mod_to_equations; lia.
Qed.

Lemma four_digits_split n :
  four_digits n = two_digits (n / 100) +:+ two_digits n.
Proof.
  unfold four_digits, two_digits.
  replace (n / 100 / 10) with (n / 1000) by (Z.div_mod_to_equations; lia).
  reflexivity.
Qed.

Lemma compare_four_digits a b :
  0 <= a <= 9999 → 0 <= b <= 9999 →
  String.compare (four_digits a) (four_digits b) = (a ?= b).
Proof.
  intros Ha Hb. rewrite !four_digits_split, compare_append by done.
  rewrite !compare_two_digits.
  destruct (Z.compare_spec (a / 100 mod 100) (b / 100 mod 100)),
    (Z.compare_spec (a mod 100) (b mod 100)), (Z.compare_spec a b);
    try done; exfalso; Z.div_mod_to_equations; lia.
Qed.

(** The order of the dates of two times is the order of their days. *)
Lemma civil_compare t1 t2 :
  match Date.YearFromTime t1 ?= Date.YearFromTime t2 with
  | Eq => match Date.MonthFromTime t1 + 1 ?= Date.MonthFromTime t2 + 1 with
          | Eq => Date.DateFromTime t1 ?= Date.DateFromTime t2
          | c => c
          end
  | c => c
  end = (Date.Day t1 ?= Date.Day t2).
Proof.
  pose proof (YearFromDay_spec (Date.Day t1)) as H1.
  pose proof (YearFromDay_spec (Date.Day t2)) as H2.
  fold (Date.YearFromTime t1) in H1. fold (Date.YearFromTime t2) in H2.
  destruct (Z.compare_spec (Date.YearFromTime t1) (Date.YearFromTime t2)) as [Hy|Hy|Hy].
  - unfold Date.DateFromTime, Date.MonthFromTime, Date.InLeapYear, Date.DayWithinYear.
    rewrite <- Hy.
    generalize dependent (Date.DayFromYear (Date.YearFromTime t1)). intros b H1.
    generalize (if Date.DaysInYear (Date.YearFromTime t1) =? 366 then 1 else 0).
    intros L.
    generalize (Date.Day t1) (Date.Day t2). intros d1 d2.
    destruct (Z.compare_spec d1 d2) as [->|Hlt|Hgt].
    + by rewrite !Z.compare_refl.
    + repeat match goal with
        | |- context [ ?a <? ?b ] => destruct (Z.ltb_spec a b)
        end;
        cbn [Z.add Z.compare Pos.compare Pos.compare_cont Pos.add Pos.succ];
        first [ done | exfalso; lia | apply Z.compare_lt_iff; lia ].
    + repeat match goal with
        | |- context [ ?a <? ?b ] => destruct (Z.ltb_spec a b)
        end;
        cbn [Z.add Z.compare Pos.compare Pos.compare_cont Pos.add Pos.succ];
        first [ done | exfalso; lia | apply Z.compare_gt_iff; lia ].
  - pose proof (Date_mono := DayFromYear_mono (Date.YearFromTime t1 + 1)
                               (Date.YearFromTime t2) ltac:(lia)).
    destruct (Z.compare_spec (Date.Day t1) (Date.Day t2)); try done; lia.
  - pose proof (Date_mono := DayFromYear_mono (Date.YearFromTime t2 + 1)
                               (Date.YearFromTime t1) ltac:(lia)).
    destruct (Z.compare_spec (Date.Day t1) (Date.Day t2)); try done; lia.
Qed.

Lemma getDay_four_digits t :
  -30610224000 <= t < 253402300800 →
  1000 <= Date.YearFromTime (t * 1000) <= 9999
  ∧ getDay (VNum t)
    = four_digits (Date.YearFromTime (t * 1000))
      +:+ two_digits (Date.MonthFromTime (t * 1000) + 1)
      +:+ two_digits (Date.DateFromTime (t * 1000)).
Proof.
  intros Hr.
  assert (Hy : 1000 <= Date.YearFromTime (t * 1000) < 10000).
  { apply year_in_range. rewrite Day_seconds.
    change (Date.DayFromYear 1000) with (-354285).
    change (Date.DayFromYear 10000) with 2932897.
    Z.div_mod_to_equations. lia. }
  split; [lia|].
  rewrite getDay_valid by lia.
  unfold number_to_string.
  destruct (Z.ltb_spec (Date.YearFromTime (t * 1000)) 0); [lia|].
  rewrite digits_four by lia. reflexivity.
Qed.

(** X21: for times of the years 1000 to 9999, the keys that [getDay]
    gives compare as texts the way the UTC days compare: listing the
    keys of a table in lexicographic order lists its days in order of
    time. *)
Theorem getDay_order (t1 t2 : Z) :
  -30610224000 <= t1 < 253402300800 →
  -30610224000 <= t2 < 253402300800 →
  String.compare (getDay (VNum t1)) (getDay (VNum t2)) = (t1 / 86400 ?= t2 / 86400).
Proof.
  intros H1 H2.
  destruct (getDay_four_digits t1 H1) as [Hy1 ->].
  destruct (getDay_four_digits t2 H2) as [Hy2 ->].
  destruct (civil_bounds (t1 * 1000)) as [Hm1 Hd1].
  destruct (civil_bounds (t2 * 1000)) as [Hm2 Hd2].
  rewrite compare_append by done. rewrite compare_four_digits by lia.
  rewrite compare_append by done. rewrite !compare_two_digits.
  rewrite !(Z.mod_small _ 100) by lia.
  rewrite civil_compare. by rewrite !Day_seconds.
Qed.

Lemma getDay_order_witness :
  String.compare (getDay (VNum 1620518399)) (getDay (VNum 1620518400))
  = (1620518399 / 86400 ?= 1620518400 / 86400).
Proof. apply (getDay_order 1620518399 1620518400); lia. Defined.

(** ** Batches without data *)

(** X22: a batch with a valid node key and a log type of status or
    result, but without data.  The later revision of [log] answers
    ERROR before it looks at the type; the earlier revision passes the
    missing data on, and the loop of [logStatus], or that of
    [parseResult], throws a TypeError on it. *)
Theorem log_missing_data (enrollSecrets ENROLL_SECRET : string)
    (sha256_hex : string → string) (console_has_warning : bool)
    (body : gmap string value) :
  body !! "data" = None →
  body !! "node_key" = Some (VStr (NODE_KEY ENROLL_SECRET sha256_hex)) →
  body !! "log_type" = Some (VStr "status")
  ∨ body !! "log_type" = Some (VStr "result") →
  log_returns (log enrollSecrets sha256_hex body) = Some ERROR
  ∧ ((log_rev1 ENROLL_SECRET sha256_hex body = Status VUndef
      ∧ logStatus console_has_warning VUndef = ([], Some TypeError))
     ∨ (log_rev1 ENROLL_SECRET sha256_hex body = Results VUndef
        ∧ for_of VUndef = Raise TypeError)).
Proof.
  intros Hd Hk Ht. split.
  - unfold log. rewrite Hd. simpl default. cbn [truthy negb]. rewrite orb_true_r.
    by destruct (_ || _).
  - unfold log_rev1. rewrite Hk, Hd. simpl default.
    rewrite (proj2 (strict_eq_str_spec _ _) eq_refl). cbn [negb].
    destruct Ht as [-> | ->]; [by left | by right].
Qed.

Lemma log_missing_data_witness :
  log_returns (log "s3cret" digest_stand_in
                 (<["node_key" := VStr (digest_stand_in "s3cret")]>
                    (<["log_type" := VStr "result"]> ∅))) = Some ERROR
  ∧ ((log_rev1 "s3cret" digest_stand_in
        (<["node_key" := VStr (digest_stand_in "s3cret")]>
           (<["log_type" := VStr "result"]> ∅)) = Status VUndef
      ∧ logStatus false VUndef = ([], Some TypeError))
     ∨ (log_rev1 "s3cret" digest_stand_in
          (<["node_key" := VStr (digest_stand_in "s3cret")]>
             (<["log_type" := VStr "result"]> ∅)) = Results VUndef
        ∧ for_of VUndef = Raise TypeError)).
Proof.
  apply (log_missing_data "s3cret" "s3cret" digest_stand_in false
           (<["node_key" := VStr (digest_stand_in "s3cret")]>
              (<["log_type" := VStr "result"]> ∅)));
    [reflexivity | reflexivity | right; reflexivity].
Defined.

(** ** The earlier revision writes into the objects of the caller *)

Lemma refs_in_spec (t : Heap.tables_t) l :
  refs_in t l ↔ ∃ n parts d rows, t !! n = Some parts ∧ parts !! d = Some rows ∧ l ∈ rows.
Proof.
  unfold refs_in, ref_bucket. split.
  - intros (n & d & Hl).
    destruct (t !! n) as [parts|] eqn:Hn; simpl in Hl; [|inversion Hl].
    destruct (parts !! d) as [rows|] eqn:Hd; simpl in Hl; [|inversion Hl].
    by exists n, parts, d, rows.
  - intros (n & parts & d & rows & Hn & Hd & Hl). exists n, d.
    rewrite Hn. simpl. by rewrite Hd.
Qed.

Lemma deref_tables_agree_on (h h' : Heap.heap) t :
  (∀ l, refs_in t l → h' !! l = h !! l) → deref_tables h' t = deref_tables h t.
Proof.
  intros Hagree. unfold deref_tables.
  apply map_fmap_ext. intros n parts Hn.
  apply map_fmap_ext. intros d rows Hd.
  apply map_ext_in. intros l Hl. rewrite Hagree; [done|].
  apply refs_in_spec. exists n, parts, d, rows. by rewrite <- list_elem_of_In in Hl.
Qed.

Lemma ref_bucket_push t n d row n' d' :
  ref_bucket (Heap.push t n d row) n' d'
  = ref_bucket t n' d' ++ (if decide (n' = n ∧ d' = d) then [row] else []).
Proof.
  rewrite heap_push_eq. unfold ref_bucket at 1.
  destruct (decide (n' = n)) as [->|Hn].
  - rewrite lookup_insert_eq. simpl.
    destruct (decide (d' = d)) as [->|Hd].
    + rewrite lookup_insert_eq. simpl. rewrite decide_True by done. done.
    + rewrite lookup_insert_ne by done. rewrite decide_False by tauto.
      rewrite app_nil_r. unfold ref_bucket. by destruct (t !! n).
  - rewrite lookup_insert_ne by done. rewrite decide_False by tauto.
    by rewrite app_nil_r.
Qed.

Lemma make_row_rev1_eq (h : Heap.heap) r o :
  h !! Heap.columns r = Some o →
  Heap.make_row_rev1 h r
  = (<[Heap.columns r := Rev1.make_row (load_record h r)]> h, Ok (Heap.columns r)).
Proof.
  intros Ho. unfold Heap.make_row_rev1. rewrite Ho. f_equal.
  apply map_eq. intros l. unfold Heap.write, load_record, Rev1.make_row. simpl.
  rewrite Ho. simpl.
  destruct (decide (l = Heap.columns r)) as [->|Hne].
  - by rewrite lookup_insert_eq, !lookup_alter_eq, Ho.
  - by rewrite lookup_insert_ne, !lookup_alter_ne by done.
Qed.

Lemma rev1_heap_from (h : Heap.heap) (t : Heap.tables_t) (data : list Heap.record) :
  (∀ r, r ∈ data → is_Some (h !! Heap.columns r)) →
  NoDup (Heap.columns <$> data) →
  (∀ l, refs_in t l → l ∉ Heap.columns <$> data) →
  ∃ h' t',
    loop Heap.add_record_rev1 (h, t) data = ((h', t'), None)
    ∧ (∀ r, r ∈ data → h' !! Heap.columns r = Some (Rev1.make_row (load_record h r)))
    ∧ (∀ l, l ∉ Heap.columns <$> data → h' !! l = h !! l)
    ∧ (∀ n d, ref_bucket t' n d
              = ref_bucket t n d ++ (Heap.columns <$> filter (in_ref_bucket n d) data))
    ∧ deref_tables h' t'
      = foldl Rev1.add_record (deref_tables h t) (load_record h <$> data).
Proof.
  revert h t. induction data as [|r data IH]; intros h t Hcols Hnd Hsep.
  - exists h, t. split; [done|]. split; [by intros r ?%elem_of_nil|].
    split; [done|]. split; [|done]. intros n d. by rewrite app_nil_r.
  - rewrite fmap_cons in Hnd. apply NoDup_cons in Hnd as [Hc Hnd].
    destruct (Hcols r) as [o Ho]; [by left|].
    set (c := Heap.columns r) in *.
    set (h1 := <[c := Rev1.make_row (load_record h r)]> h).
    set (t1 := Heap.push t (Heap.name r) (getDay (Heap.unixTime r)) c).
    assert (Hload : ∀ r', r' ∈ data → load_record h1 r' = load_record h r').
    { intros r' Hr'. unfold load_record. f_equal. unfold h1.
      rewrite lookup_insert_ne; [done|]. intros Heq. apply Hc.
      rewrite Heq. by apply list_elem_of_fmap_2. }
    destruct (IH h1 t1) as (h' & t' & Hf & Hrows & Hframe & Hb & Hderef).
    { intros r' Hr'. unfold h1. rewrite lookup_insert_ne.
      - apply Hcols. by right.
      - intros Heq. apply Hc. rewrite Heq. by apply list_elem_of_fmap_2. }
    { done. }
    { intros l (n & d & Hl). unfold t1 in Hl. rewrite ref_bucket_push in Hl.
      apply elem_of_app in Hl as [Hl|Hl].
      - intros Hin. apply (Hsep l); [by exists n, d | by right].
      - case_decide; [|inversion Hl]. apply list_elem_of_singleton in Hl as ->. done. }
    exists h', t'. split; [|split; [|split; [|split]]].
    + rewrite loop_cons. unfold Heap.add_record_rev1 at 1. cbn [fst snd].
      rewrite (make_row_rev1_eq h r o Ho). exact Hf.
    + intros r' [->|Hr']%elem_of_cons.
      * rewrite Hframe by done. unfold h1. by rewrite lookup_insert_eq.
      * rewrite Hrows by done. by rewrite Hload.
    + intros l Hl. rewrite fmap_cons in Hl. apply not_elem_of_cons in Hl as [Hne Hl].
      rewrite Hframe by done. unfold h1. by rewrite lookup_insert_ne.
    + intros n d. rewrite Hb. unfold t1. rewrite ref_bucket_push, filter_cons.
      unfold in_ref_bucket at 2.
      destruct (decide (n = Heap.name r ∧ d = getDay (Heap.unixTime r))) as [[-> ->]|Hno].
      * rewrite decide_True by done. by rewrite fmap_cons, <- app_assoc.
      * rewrite decide_False by (intros [??]; by apply Hno). by rewrite app_nil_r.
    + rewrite Hderef, fmap_cons. cbn [foldl].
      assert (load_record h1 <$> data = load_record h <$> data) as ->.
      { apply list_fmap_ext. intros i r' Hr'. apply Hload.
        by eapply list_elem_of_lookup_2. }
      f_equal. unfold t1.
      rewrite (deref_tables_push h1 t _ _ c (Rev1.make_row (load_record h r)))
        by (unfold h1; by rewrite lookup_insert_eq).
      rewrite rev1_add_record_eq. f_equal.
      apply deref_tables_agree_on. intros l Hl. unfold h1.
      rewrite lookup_insert_ne; [done|]. intros <-.
      apply (Hsep c Hl). by left.
Qed.

(** X23: the earlier revision of [parseResult] over the store, when
    every record has a name of its own and a plain timestamp, refers to an
    object, and no two records share one: it returns; the object of each
    record is afterwards its old contents with the three keys written over
    them; no other object of the store changes; a bucket holds the
    references of its records themselves, in input order; and what the
    returned table denotes in the new store is what the earlier revision
    computes on values. *)
Theorem parseResult_rev1_store (h : Heap.heap) (data : list Heap.record) :
  forallb ordinary_ref data = true →
  (∀ r, r ∈ data → is_Some (h !! Heap.columns r)) →
  NoDup (Heap.columns <$> data) →
  ∃ h' t,
    Heap.parseResult_rev1 h data = (h', Ok t)
    ∧ (∀ r, r ∈ data → h' !! Heap.columns r = Some (Rev1.make_row (load_record h r)))
    ∧ (∀ l, l ∉ Heap.columns <$> data → h' !! l = h !! l)
    ∧ (∀ n d, ref_bucket t n d = Heap.columns <$> filter (in_ref_bucket n d) data)
    ∧ deref_tables h' t = Rev1.parseResult (load_record h <$> data).
Proof.
  intros _ Hcols Hnd.
  destruct (rev1_heap_from h ∅ data Hcols Hnd) as (h' & t & Hf & Hrows & Hframe & Hb & Hd).
  { intros l (n & d & Hl). unfold ref_bucket in Hl. rewrite lookup_empty in Hl.
    inversion Hl. }
  exists h', t. split; [|split; [done|split; [done|split]]].
  - unfold Heap.parseResult_rev1, Heap.outcome. by rewrite Hf.
  - intros n d. rewrite Hb. unfold ref_bucket. by rewrite lookup_empty.
  - rewrite Hd. unfold deref_tables. by rewrite fmap_empty.
Qed.

Lemma parseResult_rev1_store_witness :
  ∃ h' t,
    Heap.parseResult_rev1 sample_heap [sample_ref] = (h', Ok t)
    ∧ (∀ r, r ∈ [sample_ref]
            → h' !! Heap.columns r = Some (Rev1.make_row (load_record sample_heap r)))
    ∧ (∀ l, l ∉ Heap.columns <$> [sample_ref] → h' !! l = sample_heap !! l)
    ∧ (∀ n d, ref_bucket t n d = Heap.columns <$> filter (in_ref_bucket n d) [sample_ref])
    ∧ deref_tables h' t = Rev1.parseResult (load_record sample_heap <$> [sample_ref]).
Proof.
  apply (parseResult_rev1_store sample_heap [sample_ref]).
  - reflexivity.
  - intros r Hr. apply list_elem_of_singleton in Hr as ->. by eexists.
  - apply NoDup_singleton.
Defined.

(** ** Day keys and the names that objects inherit *)

Lemma own_name_first c r :
  is_digit c = true ∨ c = "-"%char ∨ c = "N"%char → own_name (String c r) = true.
Proof.
  intros [H|[->| ->]]; [|reflexivity..].
  destruct c as [[] [] [] [] [] [] [] []]; try discriminate H; reflexivity.
Qed.

(** A day key begins with a digit, with the sign of a year before year 0,
    or with the N of NaN. *)
Lemma getDay_first v :
  ∃ c r, getDay v = String c r
         ∧ (is_digit c = true ∨ c = "-"%char ∨ c = "N"%char).
Proof.
  unfold getDay.
  destruct (Date.getUTCFullYear _) as [y|].
  - destruct (number_to_string_first y) as (c & r & -> & Hc).
    change (EmptyString +:+ String c r) with (String c r).
    rewrite !append_cons. eexists _, _. split; [done|]. tauto.
  - change (EmptyString +:+ number_to_string NaN) with "NaN".
    rewrite !append_cons. eexists _, _. split; [done|]. tauto.
Qed.

(** X25: no key that [getDay] gives is the name of a property that every
    object inherits: in a [partitions] object of its own,
    [partitions[day]] reads the bucket stored under the day, or nothing. *)
Theorem getDay_own_name (v : value) : own_name (getDay v) = true.
Proof.
  destruct (getDay_first v) as (c & r & -> & Hc). by apply own_name_first.
Qed.
